(** * QwertyGhost: the per-key press animation, the keyboard layouts and the
    input callbacks of the skeuomorphic 3D keyboard, embedded in Rocq.

    The repository holds three programs that share their core:
    - the full board ([full_board.cpp], first program),
    - the single key with its switch ([full_board.cpp], "mx_green"),
    - the compact board ("with numbers and functions.cpp").

    Every [float] of the sources is an IEEE-754 binary32 value and every
    [double] a binary64 value, both taken from the Standard Library's
    specification of floating-point arithmetic ([SpecFloat]); each C++
    operator is the correctly rounded (to nearest, ties to even) operation
    of its operand type, without fused multiply-add. *)

From Stdlib Require Import ZArith Lia Bool Ascii String.
From Stdlib Require Import Floats.SpecFloat.
From Stdlib Require Import DecimalString.
From stdpp Require Import base option list strings gmap.

Open Scope Z_scope.

(** ** Floating-point formats *)

Module F32.
Definition prec : Z := 24.
Definition emax : Z := 128.
Definition add : spec_float → spec_float → spec_float := SFadd prec emax.
Definition sub : spec_float → spec_float → spec_float := SFsub prec emax.
Definition mul : spec_float → spec_float → spec_float := SFmul prec emax.
Definition div : spec_float → spec_float → spec_float := SFdiv prec emax.
Definition neg : spec_float → spec_float := SFopp.
Definition ltb : spec_float → spec_float → bool := SFltb.
Definition leb : spec_float → spec_float → bool := SFleb.
Definition eqb : spec_float → spec_float → bool := SFeqb.
(** Well-formed binary32 values: a finite one has its canonical mantissa
    and an exponent in range. *)
Definition valid : spec_float → bool := valid_binary prec emax.
(** An integer constant converted to [float]. *)
Definition of_Z (z : Z) : spec_float := binary_normalize prec emax z 0 false.
(** The decimal literal [n/d] with suffix [f]: the binary32 value nearest
    to the rational [n/d]. *)
Definition lit (n d : Z) : spec_float := div (of_Z n) (of_Z d).
(** [static_cast<float>] of a [double]. *)
Definition of_double (x : spec_float) : spec_float :=
  match x with
  | S754_finite s m e => binary_round prec emax s m e
  | _ => x
  end.
End F32.

Module F64.
Definition prec : Z := 53.
Definition emax : Z := 1024.
Definition ltb : spec_float → spec_float → bool := SFltb.
Definition leb : spec_float → spec_float → bool := SFleb.
Definition div : spec_float → spec_float → spec_float := SFdiv prec emax.
Definition valid : spec_float → bool := valid_binary prec emax.
Definition of_Z (z : Z) : spec_float := binary_normalize prec emax z 0 false.
(** The decimal literal [n/d] without suffix. *)
Definition lit (n d : Z) : spec_float := div (of_Z n) (of_Z d).
(** The conversion of a [float] operand that meets a [double]. *)
Definition of_float (x : spec_float) : spec_float :=
  match x with
  | S754_finite s m e => binary_round prec emax s m e
  | _ => x
  end.
End F64.

Abbreviation float := spec_float (only parsing).
Abbreviation double := spec_float (only parsing).

Declare Scope f32_scope.
Delimit Scope f32_scope with f32.
Infix "+" := F32.add : f32_scope.
Infix "-" := F32.sub : f32_scope.
Infix "*" := F32.mul : f32_scope.
Infix "/" := F32.div : f32_scope.
Notation "- x" := (F32.neg x) : f32_scope.
Infix "<?" := F32.ltb : f32_scope.
Infix "<=?" := F32.leb : f32_scope.
Notation "x >? y" := (F32.ltb y x) (only parsing) : f32_scope.

(** [static_cast<int>] of a [size_t], and the conversion of a [size_t] to
    an [int] in an assignment: the value modulo [2^32], as a signed
    integer. *)
Definition to_int (z : Z) : Z := (z + 2 ^ 31) mod 2 ^ 32 - 2 ^ 31.

(** ** The constants of GLFW that the sources name (values of [glfw3.h]) *)

Definition GLFW_RELEASE : Z := 0.
Definition GLFW_PRESS : Z := 1.
Definition GLFW_MOUSE_BUTTON_LEFT : Z := 0.
Definition GLFW_MOUSE_BUTTON_RIGHT : Z := 1.
Definition GLFW_MOD_SHIFT : Z := 1.
Definition GLFW_KEY_SPACE : Z := 32.
Definition GLFW_KEY_APOSTROPHE : Z := 39.
Definition GLFW_KEY_MINUS : Z := 45.
Definition GLFW_KEY_0 : Z := 48.
Definition GLFW_KEY_1 : Z := 49.
Definition GLFW_KEY_2 : Z := 50.
Definition GLFW_KEY_3 : Z := 51.
Definition GLFW_KEY_4 : Z := 52.
Definition GLFW_KEY_5 : Z := 53.
Definition GLFW_KEY_6 : Z := 54.
Definition GLFW_KEY_7 : Z := 55.
Definition GLFW_KEY_8 : Z := 56.
Definition GLFW_KEY_9 : Z := 57.
Definition GLFW_KEY_SEMICOLON : Z := 59.
Definition GLFW_KEY_EQUAL : Z := 61.
Definition GLFW_KEY_A : Z := 65.
Definition GLFW_KEY_B : Z := 66.
Definition GLFW_KEY_C : Z := 67.
Definition GLFW_KEY_D : Z := 68.
Definition GLFW_KEY_E : Z := 69.
Definition GLFW_KEY_F : Z := 70.
Definition GLFW_KEY_G : Z := 71.
Definition GLFW_KEY_H : Z := 72.
Definition GLFW_KEY_I : Z := 73.
Definition GLFW_KEY_J : Z := 74.
Definition GLFW_KEY_K : Z := 75.
Definition GLFW_KEY_L : Z := 76.
Definition GLFW_KEY_M : Z := 77.
Definition GLFW_KEY_N : Z := 78.
Definition GLFW_KEY_O : Z := 79.
Definition GLFW_KEY_P : Z := 80.
Definition GLFW_KEY_Q : Z := 81.
Definition GLFW_KEY_R : Z := 82.
Definition GLFW_KEY_S : Z := 83.
Definition GLFW_KEY_T : Z := 84.
Definition GLFW_KEY_U : Z := 85.
Definition GLFW_KEY_V : Z := 86.
Definition GLFW_KEY_W : Z := 87.
Definition GLFW_KEY_X : Z := 88.
Definition GLFW_KEY_Y : Z := 89.
Definition GLFW_KEY_Z : Z := 90.
Definition GLFW_KEY_LEFT_BRACKET : Z := 91.
Definition GLFW_KEY_RIGHT_BRACKET : Z := 93.
Definition GLFW_KEY_GRAVE_ACCENT : Z := 96.
Definition GLFW_KEY_ESCAPE : Z := 256.
Definition GLFW_KEY_BACKSPACE : Z := 259.
Definition GLFW_KEY_INSERT : Z := 260.
Definition GLFW_KEY_DELETE : Z := 261.
Definition GLFW_KEY_RIGHT : Z := 262.
Definition GLFW_KEY_LEFT : Z := 263.
Definition GLFW_KEY_DOWN : Z := 264.
Definition GLFW_KEY_UP : Z := 265.
Definition GLFW_KEY_PAGE_UP : Z := 266.
Definition GLFW_KEY_PAGE_DOWN : Z := 267.
Definition GLFW_KEY_HOME : Z := 268.
Definition GLFW_KEY_END : Z := 269.
Definition GLFW_KEY_F1 : Z := 290.
Definition GLFW_KEY_LEFT_SHIFT : Z := 340.
Definition GLFW_KEY_LEFT_CONTROL : Z := 341.
Definition GLFW_KEY_LEFT_ALT : Z := 342.
Definition GLFW_KEY_RIGHT_SHIFT : Z := 344.
Definition GLFW_KEY_RIGHT_CONTROL : Z := 345.
Definition GLFW_KEY_RIGHT_ALT : Z := 346.

(** ** Key structure *)

Inductive KeyType :=
  | ALPHANUM | FUNCTION | MODIFIER | NAVIGATION | ARROW | NUMPAD
  | BACKGROUND_ONLY.

Record vec2 := Vec2 { vx : float; vy : float }.

(** [struct Key].  The compact board's struct stops after [isPressed] and
    the single key's after [keycapRemoved]; the fields a program does not
    have keep the values given at construction and are never read by it. *)
Record Key := mkKey {
  label : string;
  pos : vec2;
  size : vec2;
  pressAnim : float;
  isPressed : bool;
  keycapRemoved : bool;
  type : KeyType
}.

Definition set_pressAnim (v : float) (k : Key) : Key :=
  mkKey (label k) (pos k) (size k) v (isPressed k) (keycapRemoved k) (type k).
Definition set_isPressed (b : bool) (k : Key) : Key :=
  mkKey (label k) (pos k) (size k) (pressAnim k) b (keycapRemoved k) (type k).
Definition set_keycapRemoved (b : bool) (k : Key) : Key :=
  mkKey (label k) (pos k) (size k) (pressAnim k) (isPressed k) b (type k).

(** ** Animation *)

(** [constexpr double PRESS_FEEDBACK_DURATION = 0.15]. *)
Definition PRESS_FEEDBACK_DURATION : double := Eval vm_compute in F64.lit 15 100.

Definition f32_zero : float := Eval vm_compute in F32.lit 0 10.   (* 0.0f *)
Definition f32_half : float := Eval vm_compute in F32.lit 5 10.   (* 0.5f *)
Definition f32_one : float := Eval vm_compute in F32.lit 10 10.   (* 1.0f *)

(** [float animSpeed = 0.5f / static_cast<float>(PRESS_FEEDBACK_DURATION)],
    the local constant of [updateKeyAnimation]. *)
Definition animSpeed : float :=
  Eval vm_compute in (f32_half / F32.of_double PRESS_FEEDBACK_DURATION)%f32.

Definition updateKeyAnimation (key : Key) (deltaTime : float) : Key :=
  let target := if isPressed key then f32_half else f32_zero in
  if (pressAnim key <? target)%f32 then
    let key1 := set_pressAnim (pressAnim key + animSpeed * deltaTime)%f32 key in
    if (pressAnim key1 >? target)%f32 then set_pressAnim target key1 else key1
  else if (pressAnim key >? target)%f32 then
    let key1 := set_pressAnim (pressAnim key - animSpeed * deltaTime)%f32 key in
    if (pressAnim key1 <? target)%f32 then set_pressAnim target key1 else key1
  else key.

(** ** Keycap geometry *)

(** What the immediate-mode calls of a face submit: one [glColor3f] and the
    four [glVertex3f] between [glBegin(GL_QUADS)] and [glEnd]. *)
Record vertex := Vertex { gx : float; gy : float; gz : float }.
Record rgb := Rgb { red : float; green : float; blue : float }.
Record quad := Quad {
  q_color : rgb;
  q_a : vertex;
  q_b : vertex;
  q_c : vertex;
  q_d : vertex
}.

Section Keycap.

(** [KEY_DEPTH] is [18.0f] in the full board and [20.0f] in the single-key
    program; the body of [drawKeycap3D] is the same in both. *)
Variable KEY_DEPTH : float.

Definition drawKeycap3D (key : Key) : list quad :=
  let pressAnim := pressAnim key in
  let bx := vx (pos key) in
  let by_ := vy (pos key) in
  let bw := vx (size key) in
  let bh := vy (size key) in
  let shiftLeft := (F32.lit 10 1 * pressAnim)%f32 in
  let shiftUp := (F32.lit 10 1 * pressAnim)%f32 in
  let pressOffsetZ := (KEY_DEPTH * pressAnim)%f32 in
  let newDepth := (KEY_DEPTH * (f32_one - f32_half * pressAnim))%f32 in
  let x := (bx - shiftLeft)%f32 in
  let y := (by_ - shiftUp)%f32 in
  let baseR := F32.lit 9 10 in
  let baseG := F32.lit 9 10 in
  let baseB := F32.lit 85 100 in
  let c07 := F32.lit 7 100 in
  let c05 := F32.lit 5 100 in
  let c02 := F32.lit 2 100 in
  let c03 := F32.lit 3 100 in
  (* FRONT face *)
  [ Quad (Rgb baseR baseG baseB)
      (Vertex x y (- pressOffsetZ))
      (Vertex (x + bw) y (- pressOffsetZ))
      (Vertex (x + bw) (y + bh) (- pressOffsetZ))
      (Vertex x (y + bh) (- pressOffsetZ));
    (* TOP face *)
    Quad (Rgb (baseR + c07) (baseG + c07) (baseB + c07))
      (Vertex x y (- pressOffsetZ))
      (Vertex (x + bw) y (- pressOffsetZ))
      (Vertex (x + bw - newDepth) (y - newDepth) (- (pressOffsetZ + newDepth)))
      (Vertex (x - newDepth) (y - newDepth) (- (pressOffsetZ + newDepth)));
    (* RIGHT face *)
    Quad (Rgb (baseR - c05) (baseG - c05) (baseB - c05))
      (Vertex (x + bw) y (- pressOffsetZ))
      (Vertex (x + bw) (y + bh) (- pressOffsetZ))
      (Vertex (x + bw - newDepth) (y + bh - newDepth) (- (pressOffsetZ + newDepth)))
      (Vertex (x + bw - newDepth) (y - newDepth) (- (pressOffsetZ + newDepth)));
    (* BOTTOM face *)
    Quad (Rgb (baseR - c02) (baseG - c02) (baseB - c02))
      (Vertex x (y + bh) (- pressOffsetZ))
      (Vertex (x + bw) (y + bh) (- pressOffsetZ))
      (Vertex (x + bw - newDepth) (y + bh - newDepth) (- (pressOffsetZ + newDepth)))
      (Vertex (x - newDepth) (y + bh - newDepth) (- (pressOffsetZ + newDepth)));
    (* LEFT face *)
    Quad (Rgb (baseR - c03) (baseG - c03) (baseB - c03))
      (Vertex x y (- pressOffsetZ))
      (Vertex x (y + bh) (- pressOffsetZ))
      (Vertex (x - newDepth) (y + bh - newDepth) (- (pressOffsetZ + newDepth)))
      (Vertex (x - newDepth) (y - newDepth) (- (pressOffsetZ + newDepth)))
  ]%f32.

(** The geometry in the words of the specification: from the rectangle
    [(x, y, w, h)], the depth and the press progress [p], the three derived
    quantities, the front rectangle and the corner behind a front corner. *)
Definition spec_shift (p : float) : float := (F32.lit 10 1 * p)%f32.
Definition spec_pressOffsetZ (p : float) : float := (KEY_DEPTH * p)%f32.
Definition spec_compressedDepth (p : float) : float :=
  (KEY_DEPTH * (f32_one - f32_half * p))%f32.

(** The four corners of the front face: the rectangle moved by the shift on
    both axes and pushed [pressOffsetZ] into the scene. *)
Definition spec_front (x y w h p : float) : vertex * vertex * vertex * vertex :=
  let fx := (x - spec_shift p)%f32 in
  let fy := (y - spec_shift p)%f32 in
  let fz := (- spec_pressOffsetZ p)%f32 in
  (Vertex fx fy fz, Vertex (fx + w)%f32 fy fz,
   Vertex (fx + w)%f32 (fy + h)%f32 fz, Vertex fx (fy + h)%f32 fz).

(** The corner of the back face behind a corner of the front face:
    [compressedDepth] further into the scene, and as much up and left. *)
Definition spec_behind (p : float) (v : vertex) : vertex :=
  Vertex (gx v - spec_compressedDepth p)%f32
         (gy v - spec_compressedDepth p)%f32
         (- (spec_pressOffsetZ p + spec_compressedDepth p))%f32.

End Keycap.

(** ** Program state *)

(** The globals of the boards.  [clicks] is the record of the detached
    threads that run the sound engine: one entry for each thread spawned, in
    the order of spawning, holding the index of the key slot whose
    activation spawned it. *)
Record World := mkWorld {
  keyboardKeys : list Key;
  glfwKeyToIndex : gmap Z Z;
  g_leftMouseDown : bool;
  clicks : list nat
}.

Definition set_keyboardKeys (ks : list Key) (s : World) : World :=
  mkWorld ks (glfwKeyToIndex s) (g_leftMouseDown s) (clicks s).
Definition set_glfwKeyToIndex (m : gmap Z Z) (s : World) : World :=
  mkWorld (keyboardKeys s) m (g_leftMouseDown s) (clicks s).
Definition set_g_leftMouseDown (b : bool) (s : World) : World :=
  mkWorld (keyboardKeys s) (glfwKeyToIndex s) b (clicks s).
(** [std::thread([]{ system("chuck ..."); }).detach()] while slot [i] is
    handled. *)
Definition spawn_click (i : nat) (s : World) : World :=
  mkWorld (keyboardKeys s) (glfwKeyToIndex s) (g_leftMouseDown s)
          (clicks s ++ [i]).
Definition spawn_clicks (l : list nat) (s : World) : World :=
  mkWorld (keyboardKeys s) (glfwKeyToIndex s) (g_leftMouseDown s)
          (clicks s ++ l).

(** An [int] converted to a [size_t], as an index or in a comparison with
    a size. *)
Definition to_size_t (z : Z) : Z := z mod 2 ^ 64.

(** [keyboardKeys[index].isPressed = b]: indexing a vector out of its
    bounds is undefined, which is [None] here. *)
Definition assign_isPressed (index : Z) (b : bool) (s : World) : option World :=
  if to_size_t index <? Z.of_nat (length (keyboardKeys s)) then
    Some (set_keyboardKeys
            (alter (set_isPressed b) (Z.to_nat (to_size_t index))
                   (keyboardKeys s)) s)
  else None.

(** The test of the three pointer loops:
    [xpos >= k.pos.x && xpos <= k.pos.x + k.size.x &&
     ypos >= k.pos.y && ypos <= k.pos.y + k.size.y],
    the sums in [float], the comparisons in [double]. *)
Definition under_cursor (xpos ypos : double) (k : Key) : bool :=
  F64.leb (F64.of_float (vx (pos k))) xpos
  && F64.leb xpos (F64.of_float (vx (pos k) + vx (size k))%f32)
  && F64.leb (F64.of_float (vy (pos k))) ypos
  && F64.leb ypos (F64.of_float (vy (pos k) + vy (size k))%f32).

(** The cursor strictly inside the rectangle of a key. *)
Definition strictly_inside (xpos ypos : double) (k : Key) : bool :=
  F64.ltb (F64.of_float (vx (pos k))) xpos
  && F64.ltb xpos (F64.of_float (vx (pos k) + vx (size k))%f32)
  && F64.ltb (F64.of_float (vy (pos k))) ypos
  && F64.ltb ypos (F64.of_float (vy (pos k) + vy (size k))%f32).

(** ** The full board *)

Module FullBoard.

Definition KEY_WIDTH : float := Eval vm_compute in F32.lit 60 1.
Definition KEY_HEIGHT : float := Eval vm_compute in F32.lit 60 1.
Definition KEY_SPACING_X : float := Eval vm_compute in F32.lit 6 1.
Definition KEY_SPACING_Y : float := Eval vm_compute in F32.lit 6 1.
Definition KEY_DEPTH : float := Eval vm_compute in F32.lit 18 1.

(** Helper to add a key and optionally map a GLFW keycode. *)
Definition addKey (label : string) (x y w h : float) (kt : KeyType)
    (glfwKey : Z) (s : World) : World :=
  let k := mkKey label (Vec2 x y) (Vec2 w h) f32_zero false false kt in
  let s := set_keyboardKeys (keyboardKeys s ++ [k]) s in
  if negb (glfwKey =? -1) then
    let idx := to_int (Z.of_nat (length (keyboardKeys s))) - 1 in
    set_glfwKeyToIndex (<[glfwKey := idx]> (glfwKeyToIndex s)) s
  else s.

(** The loop that lays a row out:
    [for (auto& keyPair : row) { addKey(keyPair.first, currentX, currentY,
     KEY_WIDTH, KEY_HEIGHT, kt, keyPair.second);
     currentX += KEY_WIDTH + KEY_SPACING_X; }];
    it returns [currentX] as the loop leaves it. *)
Fixpoint addRow (row : list (string * Z)) (kt : KeyType)
    (currentX currentY : float) (s : World) : float * World :=
  match row with
  | [] => (currentX, s)
  | (lbl, code) :: rest =>
      addRow rest kt (currentX + (KEY_WIDTH + KEY_SPACING_X))%f32 currentY
             (addKey lbl currentX currentY KEY_WIDTH KEY_HEIGHT kt code s)
  end.

(** [std::to_string] of a small nonnegative [int]. *)
Definition to_string (n : nat) : string :=
  NilEmpty.string_of_uint (Nat.to_uint n).

(** The keys of the loop [for (int i = 0; i < 12; i++)]:
    ["F" + std::to_string(i + 1)] with code [GLFW_KEY_F1 + i]. *)
Definition row1 : list (string * Z) :=
  map (λ i : nat, (("F" +:+ to_string (i + 1))%string, GLFW_KEY_F1 + Z.of_nat i))
      (seq 0 12).

Definition row2 : list (string * Z) :=
  [ ("`", GLFW_KEY_GRAVE_ACCENT);
    ("1", GLFW_KEY_1); ("2", GLFW_KEY_2); ("3", GLFW_KEY_3);
    ("4", GLFW_KEY_4); ("5", GLFW_KEY_5); ("6", GLFW_KEY_6);
    ("7", GLFW_KEY_7); ("8", GLFW_KEY_8); ("9", GLFW_KEY_9);
    ("0", GLFW_KEY_0); ("-", GLFW_KEY_MINUS); ("=", GLFW_KEY_EQUAL) ]%string.

Definition row3 : list (string * Z) :=
  [ ("Q", GLFW_KEY_Q); ("W", GLFW_KEY_W); ("E", GLFW_KEY_E);
    ("R", GLFW_KEY_R); ("T", GLFW_KEY_T); ("Y", GLFW_KEY_Y);
    ("U", GLFW_KEY_U); ("I", GLFW_KEY_I); ("O", GLFW_KEY_O);
    ("P", GLFW_KEY_P); ("[", GLFW_KEY_LEFT_BRACKET);
    ("]", GLFW_KEY_RIGHT_BRACKET) ]%string.

Definition row4 : list (string * Z) :=
  [ ("A", GLFW_KEY_A); ("S", GLFW_KEY_S); ("D", GLFW_KEY_D);
    ("F", GLFW_KEY_F); ("G", GLFW_KEY_G); ("H", GLFW_KEY_H);
    ("J", GLFW_KEY_J); ("K", GLFW_KEY_K); ("L", GLFW_KEY_L);
    (";", GLFW_KEY_SEMICOLON); ("'", GLFW_KEY_APOSTROPHE) ]%string.

Definition row5 : list (string * Z) :=
  [ ("Z", GLFW_KEY_Z); ("X", GLFW_KEY_X); ("C", GLFW_KEY_C);
    ("V", GLFW_KEY_V); ("B", GLFW_KEY_B); ("N", GLFW_KEY_N);
    ("M", GLFW_KEY_M) ]%string.

(** [initKeyboardLayout], reading the globals [g_mainStartX] and
    [g_mainStartY]. *)
Definition initKeyboardLayout (g_mainStartX g_mainStartY : float)
    (s : World) : World :=
  let s := set_glfwKeyToIndex ∅ (set_keyboardKeys [] s) in
  let startX := g_mainStartX in
  let startY := g_mainStartY in
  let currentX := startX in
  let currentY := startY in
  (* Row 1: Esc + F-keys *)
  let s := addKey "Esc" currentX currentY KEY_WIDTH KEY_HEIGHT FUNCTION
                  GLFW_KEY_ESCAPE s in
  let currentX := (currentX + (KEY_WIDTH + KEY_SPACING_X))%f32 in
  let '(currentX, s) := addRow row1 FUNCTION currentX currentY s in
  (* Row 2: Number row and Backspace *)
  let currentX := startX in
  let currentY := (currentY + (KEY_HEIGHT + KEY_SPACING_Y))%f32 in
  let '(currentX, s) := addRow row2 ALPHANUM currentX currentY s in
  let s := addKey "Backspace" currentX currentY
                  (KEY_WIDTH * F32.lit 15 10)%f32 KEY_HEIGHT MODIFIER
                  GLFW_KEY_BACKSPACE s in
  (* Row 3: QWERTY row *)
  let currentX := startX in
  let currentY := (currentY + (KEY_HEIGHT + KEY_SPACING_Y))%f32 in
  let '(currentX, s) := addRow row3 ALPHANUM currentX currentY s in
  (* Row 4: ASDF row *)
  let currentX := startX in
  let currentY := (currentY + (KEY_HEIGHT + KEY_SPACING_Y))%f32 in
  let '(currentX, s) := addRow row4 ALPHANUM currentX currentY s in
  (* Row 5: Shift row *)
  let currentX := startX in
  let currentY := (currentY + (KEY_HEIGHT + KEY_SPACING_Y))%f32 in
  let s := addKey "Shift" currentX currentY
                  (KEY_WIDTH * F32.lit 15 10)%f32 KEY_HEIGHT MODIFIER
                  GLFW_KEY_LEFT_SHIFT s in
  let currentX :=
    (currentX + (KEY_WIDTH * F32.lit 15 10 + KEY_SPACING_X))%f32 in
  let '(currentX, s) := addRow row5 ALPHANUM currentX currentY s in
  let s := addKey "Shift" currentX currentY
                  (KEY_WIDTH * F32.lit 15 10)%f32 KEY_HEIGHT MODIFIER
                  GLFW_KEY_RIGHT_SHIFT s in
  (* Row 6: Ctrl, Alt, Space, Alt, Ctrl *)
  let bottomRowY := (currentY + KEY_HEIGHT + KEY_SPACING_Y)%f32 in
  let currentX := startX in
  let s := addKey "Ctrl" currentX bottomRowY
                  (KEY_WIDTH * F32.lit 12 10)%f32 KEY_HEIGHT MODIFIER
                  GLFW_KEY_LEFT_CONTROL s in
  let currentX :=
    (currentX + (KEY_WIDTH * F32.lit 12 10 + KEY_SPACING_X))%f32 in
  let s := addKey "Alt" currentX bottomRowY KEY_WIDTH KEY_HEIGHT MODIFIER
                  GLFW_KEY_LEFT_ALT s in
  let currentX := (currentX + (KEY_WIDTH + KEY_SPACING_X))%f32 in
  let s := addKey "Space" currentX bottomRowY
                  (KEY_WIDTH * F32.lit 60 10)%f32 KEY_HEIGHT ALPHANUM
                  GLFW_KEY_SPACE s in
  let currentX :=
    (currentX + (KEY_WIDTH * F32.lit 60 10 + KEY_SPACING_X))%f32 in
  let s := addKey "Alt" currentX bottomRowY KEY_WIDTH KEY_HEIGHT MODIFIER
                  GLFW_KEY_RIGHT_ALT s in
  let currentX := (currentX + (KEY_WIDTH + KEY_SPACING_X))%f32 in
  let s := addKey "Ctrl" currentX bottomRowY
                  (KEY_WIDTH * F32.lit 12 10)%f32 KEY_HEIGHT MODIFIER
                  GLFW_KEY_RIGHT_CONTROL s in
  (* Arrow keys; [pitchX] and [pitchY] stand for the sums
     [(KEY_WIDTH + KEY_SPACING_X)] and [(KEY_HEIGHT + KEY_SPACING_Y)] that
     the source writes out at each use *)
  let pitchX := (KEY_WIDTH + KEY_SPACING_X)%f32 in
  let pitchY := (KEY_HEIGHT + KEY_SPACING_Y)%f32 in
  let arrowBlockX :=
    (g_mainStartX + F32.lit 948 1 + KEY_SPACING_X * F32.of_Z 10)%f32 in
  let arrowRowY := bottomRowY in
  let arrowUpY := (arrowRowY - pitchY)%f32 in
  let s := addKey "Left" arrowBlockX arrowRowY KEY_WIDTH KEY_HEIGHT ARROW
                  GLFW_KEY_LEFT s in
  let s := addKey "Down" (arrowBlockX + pitchX)%f32 arrowRowY
                  KEY_WIDTH KEY_HEIGHT ARROW GLFW_KEY_DOWN s in
  let s := addKey "Right" (arrowBlockX + F32.of_Z 2 * pitchX)%f32 arrowRowY
                  KEY_WIDTH KEY_HEIGHT ARROW GLFW_KEY_RIGHT s in
  let s := addKey "Up" (arrowBlockX + pitchX)%f32 arrowUpY
                  KEY_WIDTH KEY_HEIGHT ARROW GLFW_KEY_UP s in
  (* Navigation keys *)
  let navBlockX := arrowBlockX in
  let navBlockY2 := (arrowUpY - F32.of_Z 2 * pitchY)%f32 in
  let navBlockY1 := (navBlockY2 - pitchY)%f32 in
  let s := addKey "Ins" navBlockX navBlockY1 KEY_WIDTH KEY_HEIGHT NAVIGATION
                  GLFW_KEY_INSERT s in
  let s := addKey "Home" (navBlockX + pitchX)%f32 navBlockY1
                  KEY_WIDTH KEY_HEIGHT NAVIGATION GLFW_KEY_HOME s in
  let s := addKey "PgUp" (navBlockX + F32.of_Z 2 * pitchX)%f32 navBlockY1
                  KEY_WIDTH KEY_HEIGHT NAVIGATION GLFW_KEY_PAGE_UP s in
  let s := addKey "Del" navBlockX navBlockY2 KEY_WIDTH KEY_HEIGHT NAVIGATION
                  GLFW_KEY_DELETE s in
  let s := addKey "End" (navBlockX + pitchX)%f32 navBlockY2
                  KEY_WIDTH KEY_HEIGHT NAVIGATION GLFW_KEY_END s in
  let s := addKey "PgDn" (navBlockX + F32.of_Z 2 * pitchX)%f32 navBlockY2
                  KEY_WIDTH KEY_HEIGHT NAVIGATION GLFW_KEY_PAGE_DOWN s in
  s.

(** GLFW key callback. *)
Definition keyCallback (key action : Z) (s : World) : option World :=
  match glfwKeyToIndex s !! key with
  | Some index =>
      if action =? GLFW_PRESS then
        s ← assign_isPressed index true s;
        Some (spawn_click (Z.to_nat (to_size_t index)) s)
      else if action =? GLFW_RELEASE then
        assign_isPressed index false s
      else Some s
  | None => Some s
  end.

(** [for (auto& k : keyboardKeys) if (hit) { k.isPressed = true; spawn;
    break; }], from slot [i] on: the keys after the loop and the threads it
    spawned. *)
Fixpoint press_first (xpos ypos : double) (i : nat) (ks : list Key)
    : list Key * list nat :=
  match ks with
  | [] => ([], [])
  | k :: rest =>
      if under_cursor xpos ypos k then (set_isPressed true k :: rest, [i])
      else let '(rest', spawned) := press_first xpos ypos (S i) rest in
           (k :: rest', spawned)
  end.

(** [for (auto& k : keyboardKeys) if (hit) { k.keycapRemoved =
    !k.keycapRemoved; break; }]. *)
Fixpoint toggle_first (xpos ypos : double) (ks : list Key) : list Key :=
  match ks with
  | [] => []
  | k :: rest =>
      if under_cursor xpos ypos k
      then set_keycapRemoved (negb (keycapRemoved k)) k :: rest
      else k :: toggle_first xpos ypos rest
  end.

(** GLFW mouse button callback; [xpos], [ypos] are what
    [glfwGetCursorPos] returns. *)
Definition mouse_button_callback (xpos ypos : double) (button action : Z)
    (s : World) : World :=
  if button =? GLFW_MOUSE_BUTTON_LEFT then
    if action =? GLFW_PRESS then
      let s := set_g_leftMouseDown true s in
      let '(ks, spawned) := press_first xpos ypos 0 (keyboardKeys s) in
      spawn_clicks spawned (set_keyboardKeys ks s)
    else if action =? GLFW_RELEASE then
      let s := set_g_leftMouseDown false s in
      set_keyboardKeys (map (set_isPressed false) (keyboardKeys s)) s
    else s
  else if button =? GLFW_MOUSE_BUTTON_RIGHT then
    if action =? GLFW_PRESS then
      set_keyboardKeys (toggle_first xpos ypos (keyboardKeys s)) s
    else s
  else s.

(** The loop of the cursor callback, from slot [i] on:
    [for (auto& k : keyboardKeys) { if (hit) { if (!k.isPressed)
     { k.isPressed = true; spawn; } } else { k.isPressed = false; } }]. *)
Fixpoint drag_keys (xpos ypos : double) (i : nat) (ks : list Key)
    : list Key * list nat :=
  match ks with
  | [] => ([], [])
  | k :: rest =>
      let '(rest', spawned) := drag_keys xpos ypos (S i) rest in
      if under_cursor xpos ypos k then
        if negb (isPressed k)
        then (set_isPressed true k :: rest', i :: spawned)
        else (k :: rest', spawned)
      else (set_isPressed false k :: rest', spawned)
  end.

(** GLFW cursor position callback (for drag functionality). *)
Definition cursor_position_callback (xpos ypos : double) (s : World) : World :=
  if g_leftMouseDown s then
    let '(ks, spawned) := drag_keys xpos ypos 0 (keyboardKeys s) in
    spawn_clicks spawned (set_keyboardKeys ks s)
  else s.

(** A run of cursor events, oldest first. *)
Definition cursor_moves (moves : list (double * double)) (s : World) : World :=
  foldl (λ s c, cursor_position_callback (fst c) (snd c) s) s moves.

End FullBoard.

(** ** The compact board ("with numbers and functions") *)

Module Compact.

Definition KEY_WIDTH : float := Eval vm_compute in F32.lit 60 1.
Definition KEY_HEIGHT : float := Eval vm_compute in F32.lit 60 1.
Definition KEY_SPACING : float := Eval vm_compute in F32.lit 10 1.
Definition KEY_DEPTH : float := Eval vm_compute in F32.lit 15 1.

(** The body that the five loops of [initKeyboard] share: build the key at
    [(startX, startY)], push it, and map its GLFW code to the last slot
    ([keyboardKeys.size() - 1], assigned to an [int]). *)
Definition pushKey (label : string) (startX startY : float) (glfwKey : Z)
    (s : World) : World :=
  let key := mkKey label (Vec2 startX startY) (Vec2 KEY_WIDTH KEY_HEIGHT)
                   f32_zero false false ALPHANUM in
  let s := set_keyboardKeys (keyboardKeys s ++ [key]) s in
  set_glfwKeyToIndex
    (<[glfwKey := to_int (Z.of_nat (length (keyboardKeys s)) - 1)]>
       (glfwKeyToIndex s)) s.

(** One loop: the body, then [startX += KEY_WIDTH + KEY_SPACING]. *)
Fixpoint layRow (row : list (string * Z)) (startX startY : float)
    (s : World) : World :=
  match row with
  | [] => s
  | (lbl, code) :: rest =>
      layRow rest (startX + (KEY_WIDTH + KEY_SPACING))%f32 startY
             (pushKey lbl startX startY code s)
  end.

Definition funcKeys : list string :=
  [ "F1"; "F2"; "F3"; "F4"; "F5"; "F6"; "F7"; "F8"; "F9"; "F10"; "F11";
    "F12" ]%string.

(** [GLFW_KEY_F1 + (&label - &funcKeys[0])]: the code of the [i]-th label. *)
Definition funcRow : list (string * Z) :=
  imap (λ (i : nat) (l : string), (l, GLFW_KEY_F1 + Z.of_nat i)) funcKeys.

Definition code_of (c : ascii) : Z := Z.of_nat (nat_of_ascii c).

(** [for (char c : numRow)]: the label [std::string(1, c)] and the code
    [GLFW_KEY_1 + (c - '1')], or [GLFW_KEY_0] for ['0']. *)
Definition numberRow (numRow : string) : list (string * Z) :=
  map (λ c : ascii,
         (String c EmptyString,
          if Ascii.eqb c "0" then GLFW_KEY_0
          else GLFW_KEY_1 + (code_of c - code_of "1")))
      (list_ascii_of_string numRow).

(** [for (char c : row)]: the code [GLFW_KEY_A + (c - 'A')]. *)
Definition letterRow (row : string) : list (string * Z) :=
  map (λ c : ascii,
         (String c EmptyString, GLFW_KEY_A + (code_of c - code_of "A")))
      (list_ascii_of_string row).

(** [initKeyboard]; its parameters [screenWidth], [screenHeight] are not
    read. *)
Definition initKeyboard (s : World) : World :=
  let s := set_glfwKeyToIndex ∅ (set_keyboardKeys [] s) in
  (* Row 0: Function keys F1-F12 *)
  let startX := KEY_SPACING in
  let startY := KEY_SPACING in
  let s := layRow funcRow startX startY s in
  (* Row 1: Number keys 1-0 *)
  let startX := KEY_SPACING in
  let startY := (startY + (KEY_HEIGHT + KEY_SPACING))%f32 in
  let s := layRow (numberRow "1234567890") startX startY s in
  (* Row 2: QWERTYUIOP *)
  let startX := KEY_SPACING in
  let startY := (startY + (KEY_HEIGHT + KEY_SPACING))%f32 in
  let s := layRow (letterRow "QWERTYUIOP") startX startY s in
  (* Row 3: ASDFGHJKL *)
  let startX := (KEY_SPACING + (KEY_WIDTH + KEY_SPACING) / F32.lit 2 1)%f32 in
  let startY := (startY + (KEY_HEIGHT + KEY_SPACING))%f32 in
  let s := layRow (letterRow "ASDFGHJKL") startX startY s in
  (* Row 4: ZXCVBNM *)
  let startX := (KEY_SPACING + (KEY_WIDTH + KEY_SPACING))%f32 in
  let startY := (startY + (KEY_HEIGHT + KEY_SPACING))%f32 in
  let s := layRow (letterRow "ZXCVBNM") startX startY s in
  s.

(** GLFW key callback; the test [index < keyboardKeys.size()] keeps the
    accesses within bounds. *)
Definition keyCallback (key action : Z) (s : World) : World :=
  match glfwKeyToIndex s !! key with
  | Some index =>
      if to_size_t index <? Z.of_nat (length (keyboardKeys s)) then
        let slot := Z.to_nat (to_size_t index) in
        if action =? GLFW_PRESS then
          spawn_click slot
            (set_keyboardKeys (alter (set_isPressed true) slot (keyboardKeys s)) s)
        else if action =? GLFW_RELEASE then
          set_keyboardKeys (alter (set_isPressed false) slot (keyboardKeys s)) s
        else s
      else s
  | None => s
  end.

End Compact.

(** ** The single key ("mx_green") *)

Module MxGreen.

(** The global [g_key] and the number of times the click was played: the
    calls of [playKeySound] so far, each of which runs the [chuck] command
    once. *)
Record State := mkState { g_key : Key; played : nat }.

(** [playKeySound]: it starts a detached thread that runs the command
    [chuck temp_chuck_single_key.ck] once.  The key callback runs
    [playKeySound] itself on a detached thread, so one click takes two
    threads; what is counted is the click. *)
Definition playKeySound (s : State) : State :=
  mkState (g_key s) (S (played s)).

(** GLFW key callback: A animates, Shift+A toggles the keycap. *)
Definition keyCallback (key action mods : Z) (s : State) : State :=
  if key =? GLFW_KEY_A then
    if action =? GLFW_PRESS then
      if negb (Z.land mods GLFW_MOD_SHIFT =? 0) then
        mkState (set_keycapRemoved (negb (keycapRemoved (g_key s))) (g_key s))
                (played s)
      else
        playKeySound (mkState (set_isPressed true (g_key s)) (played s))
    else if action =? GLFW_RELEASE then
      mkState (set_isPressed false (g_key s)) (played s)
    else s
  else s.

End MxGreen.

(** ** Vocabulary of the proofs *)

Definition finite_or_inf (s : bool) (q : positive) (e : Z) : float :=
  if e <=? F32.emax - F32.prec then S754_finite s q e else S754_infinity s.

(** The float made of the rounded mantissa [m1 ≤ 2^24] at exponent [E]:
    a mantissa that reached [2^24] moves up one exponent. *)
Definition pack (s : bool) (m1 E : Z) : float :=
  if m1 =? 16777216 then finite_or_inf s 8388608 (E + 1)
  else match m1 with
       | Z.pos q => finite_or_inf s q E
       | _ => S754_zero s
       end.

(** What a rounding returns for a nonnegative mantissa is never a NaN
    and has the sign it was given. *)
Definition has_sign (s : bool) (x : float) : Prop :=
  match x with
  | S754_zero s' | S754_infinity s' | S754_finite s' _ _ => s' = s
  | S754_nan => False
  end.

Definition is_nan (x : float) : bool :=
  match x with S754_nan => true | _ => false end.

(** The order of two well-formed positive floats, with the larger
    mantissa brought to the exponent of the smaller float. *)
Definition le_at (m e : Z) (mq : positive) (eq : Z) : Prop :=
  e ≤ eq ∧ m ≤ Z.pos mq * 2 ^ (eq - e).

(** The floats that compare at least equal to zero: both zeros, the
    positive finite floats and plus infinity. *)
Definition nonneg (x : float) : Prop :=
  match x with
  | S754_zero _ => True
  | S754_infinity s | S754_finite s _ _ => s = false
  | S754_nan => False
  end.

Definition sample_key (p : float) (pressed : bool) : Key :=
mkKey "A" (Vec2 (F32.of_Z 50) (F32.of_Z 50)) (Vec2 (F32.of_Z 60) (F32.of_Z 60))
      p pressed false ALPHANUM.

(** The globals before any layout is built. *)
Definition start_world : World := mkWorld [] ∅ false [].

(** The identifier lookup sends no two identifiers to one slot. *)
Definition lookup_injective (m : gmap Z Z) : Prop :=
  ∀ k1 k2 i, m !! k1 = Some i → m !! k2 = Some i → k1 = k2.

(** Every slot index of the lookup is the index of a key. *)
Definition lookup_in_bounds (s : World) : Prop :=
  ∀ k i, glfwKeyToIndex s !! k = Some i →
         0 ≤ i < Z.of_nat (length (keyboardKeys s)).

(** The invariant of layout construction, with the number of keys so far. *)
Definition layout_inv (n : nat) (s : World) : Prop :=
  length (keyboardKeys s) = n
  ∧ lookup_in_bounds s
  ∧ lookup_injective (glfwKeyToIndex s).

(** The slots of the compact board that begin a row after the first: the
    rows hold 12, 10, 10, 9 and 7 keys. *)
Definition compact_row_starts : list nat := [12; 22; 32; 41]%nat.

(** The key that a pointer loop with [break] stops at: the first key in
    slot order whose rectangle holds the cursor, with its slot. *)
Definition first_hit (xpos ypos : double) (ks : list Key) : option (nat * Key) :=
  list_find (λ k, under_cursor xpos ypos k = true) ks.

(** One key after a cursor move with the button held: pressed if and only
    if the cursor is over it. *)
Definition drag_key (xpos ypos : double) (k : Key) : Key :=
  set_isPressed (under_cursor xpos ypos k) k.

(** The number of sound threads spawned for slot [i] so far. *)
Definition activations (i : nat) (s : World) : nat :=
  count_occ Nat.eq_dec (clicks s) i.


(** Two keys whose rectangles share the square from (5,5) to (10,10), with
    the primary button held. *)
Definition overlap_world : World :=
  mkWorld
    [ mkKey "X" (Vec2 (F32.of_Z 0) (F32.of_Z 0)) (Vec2 (F32.of_Z 10) (F32.of_Z 10))
            f32_zero false false ALPHANUM;
      mkKey "Y" (Vec2 (F32.of_Z 5) (F32.of_Z 5)) (Vec2 (F32.of_Z 10) (F32.of_Z 10))
            f32_zero false false ALPHANUM ]
    ∅ true [].

(** Two keys side by side with a gap, X pressed by the pointer. *)
Definition drag_world : World :=
  mkWorld
    [ mkKey "X" (Vec2 (F32.of_Z 0) (F32.of_Z 0)) (Vec2 (F32.of_Z 10) (F32.of_Z 10))
            f32_zero true false ALPHANUM;
      mkKey "Y" (Vec2 (F32.of_Z 16) (F32.of_Z 0)) (Vec2 (F32.of_Z 10) (F32.of_Z 10))
            f32_zero false false ALPHANUM ]
    ∅ true [0%nat].
(** ** The switch view and the frame of the full board *)

(** [drawBeveledBox3D]: five faces of a box whose back lies [depth] behind
    the front and [depth * 0.5f] up and left of it.  The [0] of the front
    vertices is the [int] constant converted to [float]. *)
Definition drawBeveledBox3D (x y w h depth baseR baseG baseB : float)
    : list quad :=
  let bevel := (depth * f32_half)%f32 in
  let c07 := F32.lit 7 100 in
  let c05 := F32.lit 5 100 in
  let c02 := F32.lit 2 100 in
  let c03 := F32.lit 3 100 in
  (* FRONT face *)
  [ Quad (Rgb baseR baseG baseB)
      (Vertex x y f32_zero)
      (Vertex (x + w) y f32_zero)
      (Vertex (x + w) (y + h) f32_zero)
      (Vertex x (y + h) f32_zero);
    (* TOP face *)
    Quad (Rgb (baseR + c07) (baseG + c07) (baseB + c07))
      (Vertex x y f32_zero)
      (Vertex (x + w) y f32_zero)
      (Vertex (x + w - bevel) (y - bevel) (- depth))
      (Vertex (x - bevel) (y - bevel) (- depth));
    (* RIGHT face *)
    Quad (Rgb (baseR - c05) (baseG - c05) (baseB - c05))
      (Vertex (x + w) y f32_zero)
      (Vertex (x + w) (y + h) f32_zero)
      (Vertex (x + w - bevel) (y + h - bevel) (- depth))
      (Vertex (x + w - bevel) (y - bevel) (- depth));
    (* BOTTOM face *)
    Quad (Rgb (baseR - c02) (baseG - c02) (baseB - c02))
      (Vertex x (y + h) f32_zero)
      (Vertex (x + w) (y + h) f32_zero)
      (Vertex (x + w - bevel) (y + h - bevel) (- depth))
      (Vertex (x - bevel) (y + h - bevel) (- depth));
    (* LEFT face *)
    Quad (Rgb (baseR - c03) (baseG - c03) (baseB - c03))
      (Vertex x y f32_zero)
      (Vertex x (y + h) f32_zero)
      (Vertex (x - bevel) (y + h - bevel) (- depth))
      (Vertex (x - bevel) (y - bevel) (- depth))
  ]%f32.

(** [drawThreeFacedCube]: front, top and left. *)
Definition drawThreeFacedCube (x y w h depth baseR baseG baseB : float)
    : list quad :=
  let c07 := F32.lit 7 100 in
  let c03 := F32.lit 3 100 in
  (* FRONT face *)
  let front :=
    Quad (Rgb baseR baseG baseB)
      (Vertex x y f32_zero)
      (Vertex (x + w)%f32 y f32_zero)
      (Vertex (x + w)%f32 (y + h)%f32 f32_zero)
      (Vertex x (y + h)%f32 f32_zero) in
  let bevel := (depth * f32_half)%f32 in
  [ front;
    (* TOP face *)
    Quad (Rgb (baseR + c07) (baseG + c07) (baseB + c07))
      (Vertex x y f32_zero)
      (Vertex (x + w) y f32_zero)
      (Vertex (x + w - bevel) (y - bevel) (- depth))
      (Vertex (x - bevel) (y - bevel) (- depth));
    (* LEFT face *)
    Quad (Rgb (baseR - c03) (baseG - c03) (baseB - c03))
      (Vertex x y f32_zero)
      (Vertex x (y + h) f32_zero)
      (Vertex (x - bevel) (y + h - bevel) (- depth))
      (Vertex (x - bevel) (y - bevel) (- depth))
  ]%f32.

(** What a frame submits to OpenGL, in order: a face (as in [quad]), the
    calls on the matrix and attribute stacks that the switch view makes,
    and the call of [renderText] with its arguments. *)
Inductive gl_call :=
  | glQuad (q : quad)
  | glPushMatrix
  | glPopMatrix
  | glTranslatef (x y z : float)
  | glPushAttrib_DEPTH_BUFFER_BIT
  | glPopAttrib
  | glDepthFunc_ALWAYS
  | renderText (x y : float) (text : string).

(** The events that the window loop of the full board dispatches: the
    three GLFW callbacks, and the body of the loop with its [deltaTime]. *)
Inductive Event :=
  | KeyEvent (key action : Z)
  | MouseButtonEvent (xpos ypos : double) (button action : Z)
  | CursorPosEvent (xpos ypos : double)
  | FrameEvent (deltaTime : float).

Module FullBoardLoop.

Import FullBoard.

(** Show mechanical switch internals when [keycapRemoved == true]. *)
Definition drawMechanicalSwitch3D (key : Key) : list gl_call :=
  let pressAnim := pressAnim key in
  let shiftLeft := (F32.lit 10 1 * pressAnim)%f32 in
  let shiftUp := (F32.lit 10 1 * pressAnim)%f32 in
  let pressOffsetZ := (KEY_DEPTH * pressAnim)%f32 in
  (* Outer "switch housing" *)
  let bx := (vx (pos key) + vx (size key) * F32.lit 3 10)%f32 in
  let by_ := (vy (pos key) + vy (size key) * F32.lit 3 10)%f32 in
  let bw := (vx (size key) * F32.lit 4 10)%f32 in
  let bh := (vy (size key) * F32.lit 4 10)%f32 in
  let outerDepth := (F32.lit 16 1 * (KEY_DEPTH / F32.lit 15 1))%f32 in
  let housing :=
    drawBeveledBox3D bx by_ bw bh outerDepth f32_half f32_half f32_half in
  (* Inner "stem" *)
  let animDepth := (outerDepth - F32.lit 6 1)%f32 in
  let cloneScale := (F32.lit 7 10 * F32.lit 8 10)%f32 in
  let cloneW := (bw * cloneScale)%f32 in
  let cloneH := (bh * cloneScale)%f32 in
  let greenCubeDepth := (animDepth * cloneScale * F32.lit 7143 10000)%f32 in
  let normalizedPress := (pressAnim / f32_half)%f32 in
  let restingZ := (- (greenCubeDepth / F32.lit 2 1))%f32 in
  let pressedZ := (- (greenCubeDepth - f32_one))%f32 in
  let zTranslation :=
    (restingZ + normalizedPress * (pressedZ - restingZ))%f32 in
  let cloneX := (bx + (bw - cloneW) / F32.lit 2 1 + F32.lit 2 1)%f32 in
  let cloneY := (by_ + (bh - cloneH) / F32.lit 2 1 + F32.lit 2 1)%f32 in
  map glQuad housing
  ++ [ glPushMatrix;
       glTranslatef (- f32_half * shiftLeft)%f32 (- f32_half * shiftUp)%f32
                    (- pressOffsetZ)%f32;
       glTranslatef f32_zero f32_zero zTranslation;
       glPushAttrib_DEPTH_BUFFER_BIT;
       glDepthFunc_ALWAYS ]
  ++ map glQuad
       (drawThreeFacedCube cloneX cloneY cloneW cloneH greenCubeDepth
                           (F32.lit 1 10) (F32.lit 4 10) (F32.lit 1 10))
  ++ [ glPopAttrib; glPopMatrix ].

Definition drawKeyMerged (key : Key) : list gl_call :=
  if keycapRemoved key then drawMechanicalSwitch3D key
  else map glQuad (drawKeycap3D KEY_DEPTH key).

(** The rest of the loop body of [main] for one key: the label, drawn
    while the keycap is on. *)
Definition drawLabel (k : Key) : list gl_call :=
  if negb (keycapRemoved k) then
    let shiftLeft := (F32.lit 10 1 * pressAnim k)%f32 in
    let shiftUp := (F32.lit 10 1 * pressAnim k)%f32 in
    let labelX :=
      (vx (pos k) + (vx (size k) * f32_half) - F32.lit 8 1 - shiftLeft)%f32 in
    let labelX :=
      if String.eqb (label k) "Backspace" then (labelX - F32.lit 10 1)%f32
      else labelX in
    let labelY :=
      (vy (pos k) + (vy (size k) * f32_half) - F32.lit 8 1 - shiftUp)%f32 in
    [ renderText labelX labelY (label k) ]
  else [].

(** [for (auto& k : keyboardKeys) { updateKeyAnimation(k, deltaTime);
     drawKeyMerged(k); if (!k.keycapRemoved) { ... renderText(...); } }]:
    the keys after the loop and what it drew. *)
Fixpoint updateAndDraw (deltaTime : float) (ks : list Key)
    : list Key * list gl_call :=
  match ks with
  | [] => ([], [])
  | k :: rest =>
      let k := updateKeyAnimation k deltaTime in
      let drawn := drawKeyMerged k ++ drawLabel k in
      let '(rest', drawn') := updateAndDraw deltaTime rest in
      (k :: rest', drawn ++ drawn')
  end.

(** One turn of the loop of [main] on the globals. *)
Definition frame (deltaTime : float) (s : World) : World :=
  set_keyboardKeys (fst (updateAndDraw deltaTime (keyboardKeys s))) s.

(** One event of the window loop; [None] is the undefined indexing of
    [keyCallback]. *)
Definition handle (e : Event) (s : World) : option World :=
  match e with
  | KeyEvent key action => keyCallback key action s
  | MouseButtonEvent xpos ypos button action =>
      Some (mouse_button_callback xpos ypos button action s)
  | CursorPosEvent xpos ypos => Some (cursor_position_callback xpos ypos s)
  | FrameEvent deltaTime => Some (frame deltaTime s)
  end.

(** A run of events, oldest first. *)
Fixpoint run (es : list Event) (s : World) : option World :=
  match es with
  | [] => Some s
  | e :: es => s ← handle e s; run es s
  end.

End FullBoardLoop.

(** ** Vocabulary of the further properties *)

(** A press progress as the animation keeps it: a well-formed [float]
    between [0.0f] and [0.5f]. *)
Definition in_range (p : float) : Prop :=
  F32.valid p = true
  ∧ F32.leb f32_zero p = true ∧ F32.leb p f32_half = true.

(** The target of the animation of a key. *)
Definition target_of (k : Key) : float :=
  if isPressed k then f32_half else f32_zero.

(** What no callback and no frame writes: label, rectangle and type. *)
Definition fixed_part (k : Key) : string * vec2 * vec2 * KeyType :=
  (label k, pos k, size k, type k).

(** The [deltaTime] values of the frames of a run. *)
Definition frame_times (es : list Event) : list float :=
  omap (λ e, match e with FrameEvent dt => Some dt | _ => None end) es.

(** The number of times a run of hit-test results goes from "not over the
    key" to "over the key", for a key that starts pressed or not. *)
Fixpoint entries (pressed : bool) (hits : list bool) : nat :=
  match hits with
  | [] => 0
  | h :: rest => ((if h && negb pressed then 1 else 0) + entries h rest)%nat
  end.

(** A key as [addKey] makes it: at rest, not held, with its keycap. *)
Definition fresh_key (k : Key) : Prop :=
  pressAnim k = f32_zero ∧ isPressed k = false ∧ keycapRemoved k = false.

(** Every press value of the board is in range. *)
Definition keys_in_range (s : World) : Prop :=
  Forall in_range (pressAnim <$> keyboardKeys s).

(** Whether the cursor is over the key at the end of a run of hit-test
    results; [pressed] stands for the state before the run. *)
Fixpoint last_hit (pressed : bool) (hits : list bool) : bool :=
  match hits with
  | [] => pressed
  | h :: rest => last_hit h rest
  end.

(** The texts that a list of calls renders, in order. *)
Definition texts (calls : list gl_call) : list string :=
  omap (λ c, match c with renderText _ _ t => Some t | _ => None end) calls.

(** The part of the globals that the lookup is built from: the number of
    keys and the lookup itself; and what adding a key with identifier
    [glfwKey] does to it. *)
Definition index_part (s : World) : nat * gmap Z Z :=
  (length (keyboardKeys s), glfwKeyToIndex s).

Definition index_step (glfwKey : Z) (p : nat * gmap Z Z) : nat * gmap Z Z :=
  (S (fst p),
   if negb (glfwKey =? -1)
   then <[glfwKey := to_int (Z.of_nat (S (fst p))) - 1]> (snd p)
   else snd p).

(** Whether every slot below [n] is the value of some identifier. *)
Definition covers (m : gmap Z Z) (n : nat) : bool :=
  forallb (λ i, existsb (λ p : Z * Z, snd p =? Z.of_nat i) (map_to_list m))
          (seq 0 n).

(** ** Colors by key type, and the key of the compact board *)

(** [getBaseColor], with its reference parameters as the result. *)
Definition getBaseColor (type : KeyType) : rgb :=
  match type with
  | FUNCTION => Rgb (F32.lit 8 10) (F32.lit 8 10) (F32.lit 8 10)
  | MODIFIER => Rgb (F32.lit 85 100) (F32.lit 85 100) (F32.lit 80 100)
  | NUMPAD => Rgb (F32.lit 90 100) (F32.lit 90 100) (F32.lit 85 100)
  | _ => Rgb (F32.lit 93 100) (F32.lit 93 100) (F32.lit 88 100)
  end.

Definition set_type (t : KeyType) (k : Key) : Key :=
  mkKey (label k) (pos k) (size k) (pressAnim k) (isPressed k)
        (keycapRemoved k) t.

Definition quad_vertices (q : quad) : list vertex :=
  [q_a q; q_b q; q_c q; q_d q].

Module CompactView.

(** [drawKey3D]: a key that shifts left, sinks and compresses when
    pressed, in the dark or the light theme. *)
Definition drawKey3D (bx by_ bw bh depth pressAnim : float) (darkTheme : bool)
    : list quad :=
  let shiftLeft := (F32.lit 10 1 * pressAnim)%f32 in
  let pressOffsetZ := (depth * pressAnim)%f32 in
  let newDepth := (depth * (f32_one - f32_half * pressAnim))%f32 in
  let x := (bx - shiftLeft)%f32 in
  let y := by_ in
  let gray (c : float) := Rgb c c c in
  if darkTheme then
    let frontColor :=
      (F32.lit 3 10 - F32.lit 1 10 * (pressAnim * F32.lit 2 1))%f32 in
    [ Quad (gray frontColor)
        (Vertex x y (- pressOffsetZ))
        (Vertex (x + bw) y (- pressOffsetZ))
        (Vertex (x + bw) (y + bh) (- pressOffsetZ))
        (Vertex x (y + bh) (- pressOffsetZ));
      (* TOP FACE *)
      Quad (gray (F32.lit 4 10))
        (Vertex x y (- pressOffsetZ))
        (Vertex (x + bw) y (- pressOffsetZ))
        (Vertex (x + bw - newDepth) (y - newDepth) (- (pressOffsetZ + newDepth)))
        (Vertex (x - newDepth) (y - newDepth) (- (pressOffsetZ + newDepth)));
      (* RIGHT FACE *)
      Quad (gray (F32.lit 25 100))
        (Vertex (x + bw) y (- pressOffsetZ))
        (Vertex (x + bw) (y + bh) (- pressOffsetZ))
        (Vertex (x + bw - newDepth) (y + bh - newDepth)
                (- (pressOffsetZ + newDepth)))
        (Vertex (x + bw - newDepth) (y - newDepth) (- (pressOffsetZ + newDepth)));
      (* BOTTOM FACE *)
      Quad (gray (F32.lit 35 100))
        (Vertex x (y + bh) (- pressOffsetZ))
        (Vertex (x + bw) (y + bh) (- pressOffsetZ))
        (Vertex (x + bw - newDepth) (y + bh - newDepth)
                (- (pressOffsetZ + newDepth)))
        (Vertex (x - newDepth) (y + bh - newDepth) (- (pressOffsetZ + newDepth)));
      (* LEFT FACE *)
      Quad (gray (F32.lit 28 100))
        (Vertex x y (- pressOffsetZ))
        (Vertex x (y + bh) (- pressOffsetZ))
        (Vertex (x - newDepth) (y + bh - newDepth) (- (pressOffsetZ + newDepth)))
        (Vertex (x - newDepth) (y - newDepth) (- (pressOffsetZ + newDepth)))
    ]%f32
  else
    let frontColor :=
      (F32.lit 8 10 - F32.lit 2 10 * (pressAnim * F32.lit 2 1))%f32 in
    [ Quad (gray frontColor)
        (Vertex x y (- pressOffsetZ))
        (Vertex (x + bw) y (- pressOffsetZ))
        (Vertex (x + bw) (y + bh) (- pressOffsetZ))
        (Vertex x (y + bh) (- pressOffsetZ));
      (* TOP FACE *)
      Quad (gray (F32.lit 9 10))
        (Vertex x y (- pressOffsetZ))
        (Vertex (x + bw) y (- pressOffsetZ))
        (Vertex (x + bw - newDepth) (y - newDepth) (- (pressOffsetZ + newDepth)))
        (Vertex (x - newDepth) (y - newDepth) (- (pressOffsetZ + newDepth)));
      (* RIGHT FACE *)
      Quad (gray (F32.lit 6 10))
        (Vertex (x + bw) y (- pressOffsetZ))
        (Vertex (x + bw) (y + bh) (- pressOffsetZ))
        (Vertex (x + bw - newDepth) (y + bh - newDepth)
                (- (pressOffsetZ + newDepth)))
        (Vertex (x + bw - newDepth) (y - newDepth) (- (pressOffsetZ + newDepth)));
      (* BOTTOM FACE *)
      Quad (gray (F32.lit 7 10))
        (Vertex x (y + bh) (- pressOffsetZ))
        (Vertex (x + bw) (y + bh) (- pressOffsetZ))
        (Vertex (x + bw - newDepth) (y + bh - newDepth)
                (- (pressOffsetZ + newDepth)))
        (Vertex (x - newDepth) (y + bh - newDepth) (- (pressOffsetZ + newDepth)));
      (* LEFT FACE *)
      Quad (gray (F32.lit 65 100))
        (Vertex x y (- pressOffsetZ))
        (Vertex x (y + bh) (- pressOffsetZ))
        (Vertex (x - newDepth) (y + bh - newDepth) (- (pressOffsetZ + newDepth)))
        (Vertex (x - newDepth) (y - newDepth) (- (pressOffsetZ + newDepth)))
    ]%f32.

End CompactView.

(** Whether no key of the list is held. *)
Definition all_released (ks : list Key) : bool :=
  forallb (λ k, negb (isPressed k)) ks.

(** The number of keys whose rectangle holds the cursor. *)
Definition hits (xpos ypos : double) (ks : list Key) : nat :=
  length (filter (λ k, under_cursor xpos ypos k = true) ks).

(** The most sound threads one event can spawn on a board of [n] keys:
    one for a key press and for a press of the left button, one for each
    key for a cursor event, none otherwise. *)
Definition sound_budget (n : nat) (e : Event) : nat :=
  match e with
  | KeyEvent _ action => if action =? GLFW_PRESS then 1 else 0
  | MouseButtonEvent _ _ button action =>
      if (button =? GLFW_MOUSE_BUTTON_LEFT) && (action =? GLFW_PRESS)
      then 1 else 0
  | CursorPosEvent _ _ => n
  | FrameEvent _ => 0
  end.

(** ** The frame of the compact board *)

Module CompactLoop.

Import Compact.

(** [for (auto& key : keyboardKeys) { updateKeyAnimation(key, deltaTime);
     drawKey3D(..., KEY_DEPTH, key.pressAnim, false);
     renderText(key.pos.x + 10, key.pos.y + key.size.y / 2 - 8, ...); }]. *)
Fixpoint updateAndDraw (deltaTime : float) (ks : list Key)
    : list Key * list gl_call :=
  match ks with
  | [] => ([], [])
  | key :: rest =>
      let key := updateKeyAnimation key deltaTime in
      let drawn :=
        map glQuad
            (CompactView.drawKey3D (vx (pos key)) (vy (pos key))
               (vx (size key)) (vy (size key)) KEY_DEPTH (pressAnim key) false)
        ++ [ renderText (vx (pos key) + F32.of_Z 10)%f32
                        (vy (pos key) + vy (size key) / F32.of_Z 2
                         - F32.of_Z 8)%f32
                        (label key) ] in
      let '(rest', drawn') := updateAndDraw deltaTime rest in
      (key :: rest', drawn ++ drawn')
  end.

Definition frame (deltaTime : float) (s : World) : World :=
  set_keyboardKeys (fst (updateAndDraw deltaTime (keyboardKeys s))) s.

(** One event of the window loop; the compact board registers the key
    callback only, so the pointer events reach no code of it. *)
Definition handle (e : Event) (s : World) : World :=
  match e with
  | KeyEvent key action => keyCallback key action s
  | FrameEvent deltaTime => frame deltaTime s
  | _ => s
  end.

Definition run (es : list Event) (s : World) : World :=
  foldl (λ s e, handle e s) s es.

End CompactLoop.

(** ** Halves *)

(** The [float] of [n/2], for an integer [n]. *)
Definition hf (n : Z) : float :=
  binary_normalize F32.prec F32.emax n (-1) false.

(** A rectangle in halves: left edge and width, top edge and height, the
    edges counted from the start of the block. *)
Definition cell : Type := Z * Z * Z * Z.

(** The key has the rectangle [c], the block starting at [(n/2, m/2)]. *)
Definition cell_of (n m : Z) (c : cell) (k : Key) : Prop :=
  pos k = Vec2 (hf (n + c.1.1.1)) (hf (m + c.1.2))
  ∧ size k = Vec2 (hf c.1.1.2) (hf c.2).

(** The rectangles of the keys that [addRow] adds. *)
Fixpoint row_cells (row : list (string * Z)) (cx cy : Z) : list cell :=
  match row with
  | [] => []
  | _ :: rest => (cx, 120, cy, 120) :: row_cells rest (cx + 132) cy
  end.

(** The number of halves of a [float] that is a whole number of them. *)
Definition to_half (x : float) : Z :=
  match x with
  | S754_finite false m e => Z.shiftl (Z.pos m) (e + 1)
  | _ => 0
  end.

(** The rectangles of the full board, read off the layout that starts at
    the origin. *)
Definition layout_cells : list cell :=
  Eval vm_compute in
    map (λ k, (to_half (vx (pos k)), to_half (vx (size k)),
               to_half (vy (pos k)), to_half (vy (size k))))
        (keyboardKeys
           (FullBoard.initKeyboardLayout f32_zero f32_zero start_world)).

(** Two rectangles with a gap between them, along [x] or along [y]. *)
Definition cells_apart (c c' : cell) : bool :=
  (c.1.1.1 + c.1.1.2 <? c'.1.1.1) || (c'.1.1.1 + c'.1.1.2 <? c.1.1.1)
  || (c.1.2 + c.2 <? c'.1.2) || (c'.1.2 + c'.2 <? c.1.2).

Fixpoint all_apart (cells : list cell) : bool :=
  match cells with
  | [] => true
  | c :: rest => forallb (cells_apart c) rest && all_apart rest
  end.

(** Where [main] puts the block:
    [g_mainStartX = (windowWidth - mainBlockWidth) / 2.0f] and
    [g_mainStartY = (windowHeight - mainBlockHeight) / 2.0f], with
    [mainBlockWidth = 948.0f] and
    [mainBlockHeight = 6 * KEY_HEIGHT + 5 * KEY_SPACING_Y]; the sizes of
    the window are [int]s. *)
Definition centered_start (windowWidth windowHeight : Z) : float * float :=
  let mainBlockWidth := F32.lit 948 1 in
  let mainBlockHeight :=
    (F32.of_Z 6 * FullBoard.KEY_HEIGHT
     + F32.of_Z 5 * FullBoard.KEY_SPACING_Y)%f32 in
  ((F32.of_Z windowWidth - mainBlockWidth) / F32.lit 2 1,
   (F32.of_Z windowHeight - mainBlockHeight) / F32.lit 2 1)%f32.

(** A rectangle within the first 4096 halves on each axis. *)
Definition cell_small (c : cell) : bool :=
  (0 <=? c.1.1.1) && (0 <=? c.1.1.2) && (c.1.1.1 + c.1.1.2 <=? 4096)
  && (0 <=? c.1.2) && (0 <=? c.2) && (c.1.2 + c.2 <=? 4096).

(** ** The loop of the single key *)

Module MxGreenLoop.

Import MxGreen.

Definition SCREEN_WIDTH : Z := 800.
Definition SCREEN_HEIGHT : Z := 600.
Definition KEY_WIDTH : float := Eval vm_compute in F32.lit 100 1.
Definition KEY_HEIGHT : float := Eval vm_compute in F32.lit 100 1.
Definition KEY_DEPTH : float := Eval vm_compute in F32.lit 20 1.

(** The globals when the loop of [main] begins: [g_key] with its member
    initializers and the three assignments of [main], and no sound
    played. *)
Definition initial : State :=
  mkState
    (mkKey "A"
       (Vec2 ((F32.of_Z SCREEN_WIDTH - KEY_WIDTH) * f32_half)%f32
             ((F32.of_Z SCREEN_HEIGHT - KEY_HEIGHT) * f32_half)%f32)
       (Vec2 KEY_WIDTH KEY_HEIGHT) f32_zero false false ALPHANUM)
    0.

(** The switch of the single key: the outer box, and the clone whose
    depth follows the press. *)
Definition drawMechanicalSwitch3D (key : Key) : list gl_call :=
  let pressAnim := pressAnim key in
  let shiftLeft := (F32.lit 10 1 * pressAnim)%f32 in
  let shiftUp := (F32.lit 10 1 * pressAnim)%f32 in
  let pressOffsetZ := (KEY_DEPTH * pressAnim)%f32 in
  (* Outer box (static) *)
  let bx := (vx (pos key) + vx (size key) * F32.lit 3 10)%f32 in
  let by_ := (vy (pos key) + vy (size key) * F32.lit 3 10)%f32 in
  let bw := (vx (size key) * F32.lit 4 10)%f32 in
  let bh := (vy (size key) * F32.lit 4 10)%f32 in
  let outerDepth := F32.lit 16 1 in
  let outerR := f32_half in
  let outerG := f32_half in
  let outerB := f32_half in
  let housing := drawBeveledBox3D bx by_ bw bh outerDepth outerR outerG outerB in
  (* Use the outer box as the anchor. *)
  let ix := bx in
  let iy := by_ in
  let iw := bw in
  let ih := bh in
  let animDepth := (outerDepth - F32.lit 6 1)%f32 in
  let cloneScale := (F32.lit 7 10 * F32.lit 8 10)%f32 in
  let cloneW := (iw * cloneScale)%f32 in
  let cloneH := (ih * cloneScale)%f32 in
  let cloneDepth :=
    ((animDepth * cloneScale * F32.lit 15 10)
     * (f32_one - f32_half * pressAnim))%f32 in
  let cloneX := (ix + (iw - cloneW) / F32.lit 2 1 + F32.lit 2 1)%f32 in
  let cloneY := (iy + (ih - cloneH) / F32.lit 2 1 + F32.lit 2 1)%f32 in
  map glQuad housing
  ++ [ glPushMatrix;
       glTranslatef (- f32_half * shiftLeft)%f32 (- f32_half * shiftUp)%f32
                    (- pressOffsetZ)%f32;
       glTranslatef f32_zero f32_zero (cloneDepth - animDepth)%f32;
       glPushAttrib_DEPTH_BUFFER_BIT;
       glDepthFunc_ALWAYS ]
  ++ map glQuad
       (drawThreeFacedCube cloneX cloneY cloneW cloneH cloneDepth
                           (F32.lit 1 10) (F32.lit 4 10) (F32.lit 1 10))
  ++ [ glPopAttrib; glPopMatrix ].

(** What the body of the loop draws after [updateKeyAnimation]. *)
Definition draw (key : Key) : list gl_call :=
  if keycapRemoved key then drawMechanicalSwitch3D key
  else
    let shiftLeft := (F32.lit 10 1 * pressAnim key)%f32 in
    let shiftUp := (F32.lit 10 1 * pressAnim key)%f32 in
    let labelX := (vx (pos key) + F32.lit 30 1 - shiftLeft)%f32 in
    let labelY :=
      (vy (pos key) + vy (size key) * f32_half - F32.lit 8 1 - shiftUp)%f32 in
    map glQuad (drawKeycap3D KEY_DEPTH key)
    ++ [ renderText labelX labelY (label key) ].

(** One turn of the loop of [main]: the globals after it and what it
    drew. *)
Definition frame (deltaTime : float) (s : State) : State * list gl_call :=
  let key := updateKeyAnimation (g_key s) deltaTime in
  (mkState key (played s), draw key).

(** The events of the window loop: the key callback, with its modifier
    bits, and the body of the loop. *)
Inductive Event :=
  | KeyEvent (key action mods : Z)
  | FrameEvent (deltaTime : float).

Definition handle (e : Event) (s : State) : State :=
  match e with
  | KeyEvent key action mods => keyCallback key action mods s
  | FrameEvent deltaTime => fst (frame deltaTime s)
  end.

Definition run (es : list Event) (s : State) : State :=
  foldl (λ s e, handle e s) s es.

(** A press of A without the shift modifier, and one with it. *)
Definition plain_press (e : Event) : bool :=
  match e with
  | KeyEvent key action mods =>
      (key =? GLFW_KEY_A) && (action =? GLFW_PRESS)
      && (Z.land mods GLFW_MOD_SHIFT =? 0)
  | FrameEvent _ => false
  end.

Definition shift_press (e : Event) : bool :=
  match e with
  | KeyEvent key action mods =>
      (key =? GLFW_KEY_A) && (action =? GLFW_PRESS)
      && negb (Z.land mods GLFW_MOD_SHIFT =? 0)
  | FrameEvent _ => false
  end.

Definition frame_times (es : list Event) : list float :=
  omap (λ e, match e with FrameEvent dt => Some dt | _ => None end) es.

End MxGreenLoop.

(** The calls of [renderText] among a list of calls, with their
    arguments. *)
Definition text_calls (calls : list gl_call) : list (float * float * string) :=
  omap (λ c, match c with renderText x y t => Some (x, y, t) | _ => None end)
       calls.

(** ** The board of [main] *)

(** The full board as [main] lays it out for a window of [windowWidth] by
    [windowHeight] pixels: the block centred, the layout built over the
    globals [s0]. *)
Definition main_board (windowWidth windowHeight : Z) (s0 : World) : World :=
  let start := centered_start windowWidth windowHeight in
  FullBoard.initKeyboardLayout (fst start) (snd start) s0.

(** No cursor position is within the rectangles of two keys. *)
Definition keys_disjoint (ks : list Key) : Prop :=
  ∀ (xpos ypos : double) (i j : nat) (ki kj : Key),
    i ≠ j → ks !! i = Some ki → ks !! j = Some kj →
    under_cursor xpos ypos ki = true → under_cursor xpos ypos kj = false.

(** The board of a 1920 by 1080 window after the primary button went down
    at (500, 360), on Esc. *)
Definition pressed_on_Esc : World :=
  FullBoard.mouse_button_callback (F64.of_Z 500) (F64.of_Z 360)
    GLFW_MOUSE_BUTTON_LEFT GLFW_PRESS (main_board 1920 1080 start_world).

(** A drag from Esc onto F1, back into the gap between the two keys and
    onto F1 again. *)
Definition drag_with_reentry : list (double * double) :=
  [ (F64.of_Z 500, F64.of_Z 360); (F64.of_Z 560, F64.of_Z 360);
    (F64.of_Z 549, F64.of_Z 360); (F64.of_Z 561, F64.of_Z 360) ].
(** ** Facts about binary32 rounding *)

Section RoundingFacts.

(** *** Number of bits of a mantissa *)

Lemma digits2_pos_log2 (p : positive) :
  Z.pos (digits2_pos p) = Z.log2 (Z.pos p) + 1.
Proof.
  induction p as [p IH|p IH|]; simpl; [| |reflexivity];
    rewrite Pos2Z.inj_succ, IH; clear IH;
    destruct p; simpl; rewrite ?Pos2Z.inj_succ; lia.
Qed.

Lemma digits2_pos_spec (p : positive) :
  2 ^ (Z.pos (digits2_pos p) - 1) ≤ Z.pos p < 2 ^ Z.pos (digits2_pos p).
Proof.
  rewrite digits2_pos_log2.
  pose proof (Z.log2_spec (Z.pos p) ltac:(lia)) as H.
  replace (Z.log2 (Z.pos p) + 1 - 1) with (Z.log2 (Z.pos p)) by lia.
  replace (Z.log2 (Z.pos p) + 1) with (Z.succ (Z.log2 (Z.pos p))) by lia.
  exact H.
Qed.

Lemma Zdigits2_nonneg (m : Z) : 0 ≤ Zdigits2 m.
Proof. destruct m; simpl; lia. Qed.

Lemma Zdigits2_upper (m : Z) : 0 ≤ m → m < 2 ^ Zdigits2 m.
Proof.
  intros Hm. destruct m as [|p|p]; simpl; [lia| |lia].
  apply digits2_pos_spec.
Qed.

Lemma Zdigits2_lower (m : Z) : 0 < m → 2 ^ (Zdigits2 m - 1) ≤ m.
Proof.
  intros Hm. destruct m as [|p|p]; simpl; [lia| |lia].
  apply digits2_pos_spec.
Qed.

Lemma Zdigits2_lt (m k : Z) : 0 ≤ k → 0 ≤ m < 2 ^ k → Zdigits2 m ≤ k.
Proof.
  intros Hk [Hm0 Hm]. destruct (Z.eq_dec m 0) as [->|Hne]; [simpl; lia|].
  pose proof (Zdigits2_lower m ltac:(lia)) as Hd.
  destruct (Z_lt_le_dec k (Zdigits2 m)) as [Hlt|]; [|assumption].
  assert (2 ^ k ≤ 2 ^ (Zdigits2 m - 1)) by (apply Z.pow_le_mono_r; lia).
  lia.
Qed.

Lemma Zdigits2_ge (m k : Z) : 2 ^ k ≤ m → k + 1 ≤ Zdigits2 m.
Proof.
  intros Hm. destruct (Z_lt_le_dec k 0) as [Hk|Hk].
  - pose proof (Zdigits2_nonneg m). lia.
  - assert (0 < 2 ^ k) by (apply Z.pow_pos_nonneg; lia).
    pose proof (Zdigits2_upper m ltac:(lia)) as Hu.
    pose proof (Zdigits2_nonneg m) as Hd.
    destruct (Z_lt_le_dec (Zdigits2 m) (k + 1)) as [Hlt|]; [|assumption].
    assert (2 ^ Zdigits2 m ≤ 2 ^ k) by (apply Z.pow_le_mono_r; lia).
    lia.
Qed.

Lemma Zdigits2_mono (a b : Z) : 0 ≤ a ≤ b → Zdigits2 a ≤ Zdigits2 b.
Proof.
  intros [Ha Hab]. destruct (Z.eq_dec a 0) as [->|Hne].
  - apply Zdigits2_nonneg.
  - pose proof (Zdigits2_lower a ltac:(lia)) as Hl.
    pose proof (Zdigits2_ge b (Zdigits2 a - 1) ltac:(lia)). lia.
Qed.

Lemma Zdigits2_mul_pow2 (m : positive) (k : Z) :
  0 ≤ k → Zdigits2 (Z.pos m * 2 ^ k) = Z.pos (digits2_pos m) + k.
Proof.
  intros Hk. assert (0 < 2 ^ k) by (apply Z.pow_pos_nonneg; lia).
  destruct (Z.pos m * 2 ^ k) as [|q|q] eqn:Hq; [lia| |lia].
  simpl. rewrite !digits2_pos_log2, <- Hq.
  rewrite Z.log2_mul_pow2 by lia. lia.
Qed.

(** *** The shifts of the rounding algorithm *)

Lemma shr_1_nonneg (mrs : shr_record) :
  0 ≤ shr_m mrs → shr_m (shr_1 mrs) = Z.div2 (shr_m mrs).
Proof.
  destruct mrs as [m r s]; simpl. intros Hm.
  destruct m as [|[p|p|]|p]; simpl; try reflexivity; lia.
Qed.

Lemma iter_pos_iter {A : Type} (f : A → A) (n : positive) (x : A) :
  SpecFloat.iter_pos f n x = Pos.iter f x n.
Proof.
  revert x. induction n as [n IH|n IH|]; intros x; simpl.
  - rewrite !IH. rewrite <- !Pos.iter_swap. reflexivity.
  - rewrite !IH. reflexivity.
  - reflexivity.
Qed.

Lemma shr_m_iter (n : positive) (mrs : shr_record) :
  0 ≤ shr_m mrs →
  shr_m (SpecFloat.iter_pos shr_1 n mrs) = shr_m mrs / 2 ^ Z.pos n.
Proof.
  intros Hm. rewrite iter_pos_iter.
  assert (0 ≤ shr_m (Pos.iter shr_1 mrs n)
          ∧ shr_m (Pos.iter shr_1 mrs n) = shr_m mrs / 2 ^ Z.pos n) as [_ H];
    [|exact H].
  induction n as [|n [IH0 IH]] using Pos.peano_ind.
  - simpl. rewrite shr_1_nonneg by assumption.
    rewrite Z.div2_div. split; [apply Z.div_pos; lia|reflexivity].
  - assert (0 < 2 ^ Z.pos n) as Hp by (apply Z.pow_pos_nonneg; lia).
    rewrite Pos.iter_succ, shr_1_nonneg by assumption.
    rewrite Z.div2_div, IH, Pos2Z.inj_succ, Z.pow_succ_r by lia.
    rewrite Z.div_div by lia. split; [|f_equal; lia].
    apply Z.div_pos; lia.
Qed.

Lemma shr_record_of_loc_m (m : Z) (l : location) :
  shr_m (shr_record_of_loc m l) = m.
Proof. destruct l as [|[]]; reflexivity. Qed.

Lemma round_nearest_even_bounds (m : Z) (l : location) :
  m ≤ round_nearest_even m l ≤ m + 1.
Proof. destruct l as [|[]]; simpl; try destruct (Z.even m); lia. Qed.

Lemma pos_iter_xO (m d : positive) :
  Z.pos (Pos.iter xO m d) = Z.pos m * 2 ^ Z.pos d.
Proof.
  induction d as [|d IH] using Pos.peano_ind.
  - simpl. lia.
  - rewrite Pos.iter_succ, Pos2Z.inj_xO, IH, Pos2Z.inj_succ, Z.pow_succ_r by lia.
    lia.
Qed.

(** [shl_align] keeps the value: it scales the mantissa by the power of
    two it takes from the exponent. *)
Lemma shl_align_spec (mx : positive) (ex ex' : Z) :
  let '(mz, ez) := shl_align mx ex ex' in
  ez = Z.min ex ex' ∧ Z.pos mz = Z.pos mx * 2 ^ (ex - ez).
Proof.
  unfold shl_align. destruct (ex' - ex) as [|d|d] eqn:Hd.
  - split; [lia|]. rewrite Z.sub_diag. simpl. lia.
  - split; [lia|]. rewrite Z.sub_diag. simpl. lia.
  - split; [lia|]. rewrite pos_iter_xO. f_equal. f_equal. lia.
Qed.

(** [shr_fexp] divides a nonnegative mantissa by the power of two it adds
    to the exponent. *)
Lemma shr_fexp_spec (m e : Z) (l : location) :
  0 ≤ m →
  let '(mrs, e') := shr_fexp F32.prec F32.emax m e l in
  e' = Z.max e (fexp F32.prec F32.emax (Zdigits2 m + e))
  ∧ shr_m mrs = m / 2 ^ (e' - e).
Proof.
  intros Hm. unfold shr_fexp, shr.
  destruct (fexp F32.prec F32.emax (Zdigits2 m + e) - e) as [|p|p] eqn:Hn.
  - split; [lia|]. rewrite Z.sub_diag, shr_record_of_loc_m. simpl.
    symmetry. apply Z.div_1_r.
  - split; [lia|]. rewrite shr_m_iter by (rewrite shr_record_of_loc_m; exact Hm).
    rewrite shr_record_of_loc_m. f_equal. f_equal. lia.
  - split; [lia|]. rewrite Z.sub_diag, shr_record_of_loc_m. simpl.
    symmetry. apply Z.div_1_r.
Qed.

(** *** Canonical mantissas *)

(** A positive mantissa is canonical at exponent [e] exactly when it has
    at most 24 bits, and all 24 of them above the least exponent. *)
Lemma canonical_mantissa_iff (m : positive) (e : Z) :
  canonical_mantissa F32.prec F32.emax m e = true
  ↔ -149 ≤ e ∧ Z.pos m < 2 ^ 24 ∧ (-149 < e → 2 ^ 23 ≤ Z.pos m).
Proof.
  unfold canonical_mantissa, fexp, emin, F32.prec, F32.emax.
  rewrite Z.eqb_eq.
  pose proof (digits2_pos_spec m) as [Hlo Hhi].
  set (d := Z.pos (digits2_pos m)) in *.
  assert (0 < d) as Hd by (unfold d; lia).
  split.
  - intros H. split; [lia|]. split.
    + assert (2 ^ d ≤ 2 ^ 24) by (apply Z.pow_le_mono_r; lia). lia.
    + intros He. assert (2 ^ 23 ≤ 2 ^ (d - 1)) by (apply Z.pow_le_mono_r; lia).
      lia.
  - intros (He & Hm & Hn).
    assert (d ≤ 24) as Hd24.
    { destruct (Z_lt_le_dec 24 d) as [Hlt|]; [|assumption].
      assert (2 ^ 24 ≤ 2 ^ (d - 1)) by (apply Z.pow_le_mono_r; lia). lia. }
    destruct (Z.eq_dec e (-149)) as [->|Hne]; [lia|].
    assert (24 ≤ d); [|lia].
    destruct (Z_lt_le_dec d 24) as [Hlt|]; [|assumption].
    assert (2 ^ d ≤ 2 ^ 23) by (apply Z.pow_le_mono_r; lia).
    specialize (Hn ltac:(lia)). lia.
Qed.

Lemma canonical_fexp (m : positive) (e : Z) :
  canonical_mantissa F32.prec F32.emax m e = true →
  fexp F32.prec F32.emax (Z.pos (digits2_pos m) + e) = e.
Proof. unfold canonical_mantissa. apply Z.eqb_eq. Qed.

Lemma fexp_mono (a b : Z) :
  a ≤ b → fexp F32.prec F32.emax a ≤ fexp F32.prec F32.emax b.
Proof. unfold fexp. lia. Qed.

(** *** The shape of a rounded result *)

(** [binary_round_aux] on a mantissa that is not wider than its exponent
    allows: the mantissa is cut down to the exponent [E] the format gives
    to its magnitude, then rounded up by at most one unit. *)
Lemma binary_round_aux_shape (s : bool) (m e : Z) (l : location) :
  0 ≤ m → e ≤ fexp F32.prec F32.emax (Zdigits2 m + e) →
  let E := fexp F32.prec F32.emax (Zdigits2 m + e) in
  ∃ m1, m / 2 ^ (E - e) ≤ m1 ≤ m / 2 ^ (E - e) + 1
        ∧ -149 ≤ E
        ∧ 0 ≤ m / 2 ^ (E - e) < 16777216
        ∧ (-149 < E → 8388608 ≤ m / 2 ^ (E - e))
        ∧ binary_round_aux F32.prec F32.emax s m e l = pack s m1 E.
Proof.
  intros Hm He E. unfold binary_round_aux.
  pose proof (shr_fexp_spec m e l Hm) as H1.
  destruct (shr_fexp F32.prec F32.emax m e l) as [mrs1 e1].
  destruct H1 as [He1 H1].
  assert (e1 = E) as -> by (unfold E; lia). clear He1.
  pose proof (Zdigits2_nonneg m) as Hd0.
  pose proof (Zdigits2_upper m Hm) as Hdu.
  assert (E = Z.max (Zdigits2 m + e - 24) (-149)) as HE by reflexivity.
  assert (0 < 2 ^ (E - e)) as Hpow by (apply Z.pow_pos_nonneg; lia).
  rewrite <- H1.
  assert (0 ≤ shr_m mrs1 < 16777216 ∧ (-149 < E → 8388608 ≤ shr_m mrs1))
    as (Hlo & Hhi).
  { rewrite H1. split; [split|].
    - apply Z.div_pos; lia.
    - apply Z.div_lt_upper_bound; [lia|].
      change 16777216 with (2 ^ 24). rewrite <- Z.pow_add_r by lia.
      assert (2 ^ Zdigits2 m ≤ 2 ^ (E - e + 24))
        by (apply Z.pow_le_mono_r; lia).
      lia.
    - intros Hsub. assert (0 < m) as Hpos.
      { destruct m; simpl in *; lia. }
      pose proof (Zdigits2_lower m Hpos) as Hdl.
      apply Z.div_le_lower_bound; [lia|].
      change 8388608 with (2 ^ 23). rewrite <- Z.pow_add_r by lia.
      replace (E - e + 23) with (Zdigits2 m - 1) by lia. exact Hdl. }
  pose proof (round_nearest_even_bounds (shr_m mrs1) (loc_of_shr_record mrs1))
    as Hr.
  set (m1 := round_nearest_even (shr_m mrs1) (loc_of_shr_record mrs1)) in *.
  exists m1. split; [exact Hr|]. split; [lia|]. split; [exact Hlo|].
  split; [exact Hhi|].
  pose proof (shr_fexp_spec m1 E loc_Exact ltac:(lia)) as H2.
  destruct (shr_fexp F32.prec F32.emax m1 E loc_Exact) as [mrs2 e2].
  destruct H2 as [He2 H2].
  unfold fexp, emin, F32.prec, F32.emax in He2.
  unfold pack. destruct (Z.eqb_spec m1 16777216) as [Heq|Hne].
  - rewrite Heq in He2, H2. simpl in He2.
    assert (e2 = E + 1) as -> by lia.
    rewrite H2. replace (E + 1 - E) with 1 by lia. reflexivity.
  - pose proof (Zdigits2_lt m1 24 ltac:(lia) ltac:(change (2 ^ 24) with 16777216; lia)).
    assert (e2 = E) as -> by lia.
    rewrite H2, Z.sub_diag. simpl. rewrite Z.div_1_r.
    destruct m1 as [|q|q]; [reflexivity|reflexivity|lia].
Qed.

(** [binary_round] first widens the mantissa to what its exponent
    allows, which is the alignment [binary_round_aux_shape] asks for. *)
Lemma binary_round_aligned (s : bool) (m : positive) (e : Z) :
  ∃ (mz : positive) (ez : Z),
    ez ≤ e
    ∧ Z.pos mz = Z.pos m * 2 ^ (e - ez)
    ∧ ez ≤ fexp F32.prec F32.emax (Zdigits2 (Z.pos mz) + ez)
    ∧ binary_round F32.prec F32.emax s m e
      = binary_round_aux F32.prec F32.emax s (Z.pos mz) ez loc_Exact.
Proof.
  unfold binary_round.
  pose proof (shl_align_spec m e
                (fexp F32.prec F32.emax (Z.pos (digits2_pos m) + e))) as Ha.
  destruct (shl_align m e _) as [mz ez]. destruct Ha as [Hez Hmz].
  exists mz, ez. split; [lia|]. split; [exact Hmz|]. split; [|reflexivity].
  rewrite Hmz, Zdigits2_mul_pow2 by lia.
  replace (Z.pos (digits2_pos m) + (e - ez) + ez)
    with (Z.pos (digits2_pos m) + e) by lia.
  lia.
Qed.

(** *** Rounded results are well-formed and keep their sign *)

Lemma finite_or_inf_valid (s : bool) (q : positive) (e : Z) :
  -149 ≤ e → Z.pos q < 16777216 → (-149 < e → 8388608 ≤ Z.pos q) →
  F32.valid (finite_or_inf s q e) = true.
Proof.
  intros He Hq Hn. unfold finite_or_inf.
  destruct (e <=? F32.emax - F32.prec) eqn:Hle; [|reflexivity].
  unfold F32.valid, valid_binary, bounded.
  apply andb_true_intro. split; [|exact Hle].
  apply canonical_mantissa_iff. change (2 ^ 24) with 16777216.
  change (2 ^ 23) with 8388608. lia.
Qed.

Lemma pack_valid (s : bool) (m1 E : Z) :
  -149 ≤ E → 0 ≤ m1 ≤ 16777216 → (-149 < E → 8388608 ≤ m1) →
  F32.valid (pack s m1 E) = true.
Proof.
  intros HE Hm Hn. unfold pack. destruct (Z.eqb_spec m1 16777216) as [Heq|Hne].
  - apply finite_or_inf_valid; lia.
  - destruct m1 as [|q|q]; [reflexivity| |reflexivity].
    apply finite_or_inf_valid; lia.
Qed.

Lemma binary_round_aux_valid (s : bool) (m e : Z) (l : location) :
  0 ≤ m → e ≤ fexp F32.prec F32.emax (Zdigits2 m + e) →
  F32.valid (binary_round_aux F32.prec F32.emax s m e l) = true.
Proof.
  intros Hm He.
  destruct (binary_round_aux_shape s m e l Hm He)
    as (m1 & Hr & HE & Hlo & Hhi & ->).
  apply pack_valid; [exact HE|lia|]. intros H. specialize (Hhi H). lia.
Qed.

Lemma binary_round_valid (s : bool) (m : positive) (e : Z) :
  F32.valid (binary_round F32.prec F32.emax s m e) = true.
Proof.
  destruct (binary_round_aligned s m e) as (mz & ez & _ & _ & Ha & ->).
  apply binary_round_aux_valid; [lia|exact Ha].
Qed.

Lemma binary_normalize_valid (m e : Z) (szero : bool) :
  F32.valid (binary_normalize F32.prec F32.emax m e szero) = true.
Proof. destruct m; simpl; [reflexivity|apply binary_round_valid..]. Qed.

Lemma pack_sign (s : bool) (m1 E : Z) : has_sign s (pack s m1 E).
Proof.
  unfold pack, finite_or_inf.
  destruct (m1 =? 16777216); [destruct (E + 1 <=? _); reflexivity|].
  destruct m1; try reflexivity. destruct (E <=? _); reflexivity.
Qed.

Lemma binary_round_sign (s : bool) (m : positive) (e : Z) :
  has_sign s (binary_round F32.prec F32.emax s m e).
Proof.
  destruct (binary_round_aligned s m e) as (mz & ez & _ & _ & Ha & ->).
  destruct (binary_round_aux_shape s (Z.pos mz) ez loc_Exact ltac:(lia) Ha)
    as (m1 & _ & _ & _ & _ & ->).
  apply pack_sign.
Qed.

(** *** Comparison *)

Lemma SFcompare_antisym (x y : float) :
  SFcompare y x = CompOpp <$> SFcompare x y.
Proof.
  destruct x as [sx|sx| |sx mx ex], y as [sy|sy| |sy my ey];
    try destruct sx; try destruct sy; try reflexivity; simpl;
    rewrite (Z.compare_antisym ex ey); destruct (ex ?= ey); simpl;
    try reflexivity; rewrite (Pos.compare_cont_antisym mx my Eq);
    rewrite ?CompOpp_involutive; reflexivity.
Qed.

Lemma ltb_false_leb (x y : float) :
  is_nan x = false → is_nan y = false →
  F32.ltb x y = false → F32.leb y x = true.
Proof.
  unfold F32.ltb, F32.leb, SFltb, SFleb. rewrite (SFcompare_antisym x y).
  intros Hx Hy. destruct (SFcompare x y) as [[]|] eqn:Hc; simpl;
    try reflexivity; try discriminate.
  destruct x as [sx|sx| |sx mx ex], y as [sy|sy| |sy my ey];
    try discriminate; try destruct sx; try destruct sy; discriminate.
Qed.

Lemma ltb_leb (x y : float) : F32.ltb x y = true → F32.leb x y = true.
Proof.
  unfold F32.ltb, F32.leb, SFltb, SFleb.
  destruct (SFcompare x y) as [[]|]; congruence.
Qed.

Lemma leb_not_gtb (x y : float) : F32.leb x y = true → F32.ltb y x = false.
Proof.
  unfold F32.ltb, F32.leb, SFltb, SFleb. rewrite (SFcompare_antisym x y).
  destruct (SFcompare x y) as [[]|]; simpl; congruence.
Qed.

Lemma leb_refl (x : float) : is_nan x = false → F32.leb x x = true.
Proof.
  unfold F32.leb, SFleb. destruct x as [s|s| |s m e]; try destruct s;
    try reflexivity; try discriminate; intros _; simpl;
    rewrite Z.compare_refl, Pos.compare_cont_refl; reflexivity.
Qed.

(** [leb] between positive finite floats, on mantissas and exponents. *)
Lemma leb_finite_iff (m1 m2 : positive) (e1 e2 : Z) :
  F32.leb (S754_finite false m1 e1) (S754_finite false m2 e2) = true
  ↔ e1 < e2 ∨ (e1 = e2 ∧ Z.pos m1 ≤ Z.pos m2).
Proof.
  unfold F32.leb, SFleb. simpl.
  destruct (Z.compare_spec e1 e2) as [->|Hlt|Hgt].
  - change (Pos.compare_cont Eq m1 m2) with (Pos.compare m1 m2).
    destruct (Pos.compare_spec m1 m2) as [->|H|H]; split; intros; try lia;
      try reflexivity; try discriminate.
  - split; intros; [lia|reflexivity].
  - split; intros; [discriminate|lia].
Qed.

Lemma leb_le_at (mp mq : positive) (ep eq : Z) :
  canonical_mantissa F32.prec F32.emax mp ep = true →
  canonical_mantissa F32.prec F32.emax mq eq = true →
  F32.leb (S754_finite false mp ep) (S754_finite false mq eq) = true →
  le_at (Z.pos mp) ep mq eq.
Proof.
  intros Hp Hq Hle. apply canonical_mantissa_iff in Hp, Hq.
  apply leb_finite_iff in Hle. unfold le_at.
  change (2 ^ 24) with 16777216 in *. change (2 ^ 23) with 8388608 in *.
  destruct Hle as [Hlt|[-> Hm]].
  - split; [lia|].
    assert (2 ^ 1 ≤ 2 ^ (eq - ep)) by (apply Z.pow_le_mono_r; lia).
    change (2 ^ 1) with 2 in *. nia.
  - split; [lia|]. rewrite Z.sub_diag. simpl. lia.
Qed.

Lemma le_at_trans (m e : Z) (mp mq : positive) (ep eq : Z) :
  le_at m e mp ep → le_at (Z.pos mp) ep mq eq → le_at m e mq eq.
Proof.
  unfold le_at. intros [He Hm] [Hep Hmp]. split; [lia|].
  replace (eq - e) with ((eq - ep) + (ep - e)) by lia.
  rewrite Z.pow_add_r by lia.
  assert (0 < 2 ^ (ep - e)) by (apply Z.pow_pos_nonneg; lia).
  nia.
Qed.

(** *** Rounding is monotone against a well-formed float *)

Lemma pack_le (m1 E : Z) (mq : positive) (eq : Z) :
  canonical_mantissa F32.prec F32.emax mq eq = true →
  eq ≤ F32.emax - F32.prec →
  0 ≤ m1 → le_at m1 E mq eq →
  F32.leb (pack false m1 E) (S754_finite false mq eq) = true.
Proof.
  intros Hq Hb Hm0 [HE Hm]. apply canonical_mantissa_iff in Hq.
  change (2 ^ 24) with 16777216 in *. change (2 ^ 23) with 8388608 in *.
  assert (0 < 2 ^ (eq - E)) as Hpow by (apply Z.pow_pos_nonneg; lia).
  unfold pack, finite_or_inf.
  destruct (Z.eqb_spec m1 16777216) as [Heq|Hne].
  - assert (E < eq) as Hlt.
    { destruct (Z.eq_dec E eq) as [->|]; [|lia].
      rewrite Z.sub_diag in Hm. simpl in Hm. lia. }
    replace (E + 1 <=? F32.emax - F32.prec) with true
      by (symmetry; apply Z.leb_le; lia).
    apply leb_finite_iff.
    destruct (Z.eq_dec (E + 1) eq) as [He1|]; [right|left; lia].
    split; [exact He1|]. replace (eq - E) with 1 in Hm by lia.
    change (2 ^ 1) with 2 in Hm. lia.
  - destruct m1 as [|q|q]; [reflexivity| |lia].
    replace (E <=? F32.emax - F32.prec) with true
      by (symmetry; apply Z.leb_le; lia).
    apply leb_finite_iff.
    destruct (Z.eq_dec E eq) as [->|]; [right|left; lia].
    split; [reflexivity|]. rewrite Z.sub_diag in Hm. simpl in Hm. lia.
Qed.

Lemma pack_ge (m1 E : Z) (mp : positive) (ep : Z) :
  m1 ≤ 16777216 →
  (ep < E ∧ 0 < m1) ∨ (E = ep ∧ Z.pos mp ≤ m1) →
  F32.leb (S754_finite false mp ep) (pack false m1 E) = true.
Proof.
  intros Hm1 H. unfold pack, finite_or_inf.
  destruct (Z.eqb_spec m1 16777216) as [Heq|Hne].
  - destruct (E + 1 <=? F32.emax - F32.prec); [|reflexivity].
    apply leb_finite_iff. lia.
  - destruct m1 as [|q|q]; [lia| |lia].
    destruct (E <=? F32.emax - F32.prec); [|reflexivity].
    apply leb_finite_iff. lia.
Qed.

(** A value strictly below a well-formed float rounds to at most that
    float. *)
Lemma binary_round_le (m : positive) (e : Z) (mq : positive) (eq : Z) :
  canonical_mantissa F32.prec F32.emax mq eq = true →
  eq ≤ F32.emax - F32.prec →
  e ≤ eq → Z.pos m < Z.pos mq * 2 ^ (eq - e) →
  F32.leb (binary_round F32.prec F32.emax false m e)
          (S754_finite false mq eq) = true.
Proof.
  intros Hq Hb He Hm.
  destruct (binary_round_aligned false m e) as (mz & ez & Hez & Hmz & Ha & ->).
  destruct (binary_round_aux_shape false (Z.pos mz) ez loc_Exact ltac:(lia) Ha)
    as (m1 & Hr & HE & Hlo & Hhi & ->).
  set (E := fexp F32.prec F32.emax (Zdigits2 (Z.pos mz) + ez)) in *.
  assert (0 < 2 ^ (e - ez)) by (apply Z.pow_pos_nonneg; lia).
  assert (Z.pos mz < Z.pos mq * 2 ^ (eq - ez)) as Hmz'.
  { rewrite Hmz. replace (eq - ez) with ((eq - e) + (e - ez)) by lia.
    rewrite Z.pow_add_r by lia. nia. }
  assert (E ≤ eq) as HEq.
  { rewrite <- (canonical_fexp mq eq Hq). apply fexp_mono.
    pose proof (Zdigits2_mono (Z.pos mz) (Z.pos mq * 2 ^ (eq - ez)) ltac:(lia)) as Hd.
    rewrite Zdigits2_mul_pow2 in Hd by lia. lia. }
  apply pack_le; [exact Hq|exact Hb|lia|]. split; [exact HEq|].
  assert (0 < 2 ^ (E - ez)) by (apply Z.pow_pos_nonneg; lia).
  assert (Z.pos mz / 2 ^ (E - ez) < Z.pos mq * 2 ^ (eq - E)); [|lia].
  apply Z.div_lt_upper_bound; [lia|].
  replace (eq - ez) with ((E - ez) + (eq - E)) in Hmz' by lia.
  rewrite Z.pow_add_r in Hmz' by lia. lia.
Qed.

(** A value at least a well-formed float rounds to at least that float. *)
Lemma binary_round_ge (m : positive) (e : Z) (mp : positive) (ep : Z) :
  canonical_mantissa F32.prec F32.emax mp ep = true →
  e ≤ ep → Z.pos mp * 2 ^ (ep - e) ≤ Z.pos m →
  F32.leb (S754_finite false mp ep)
          (binary_round F32.prec F32.emax false m e) = true.
Proof.
  intros Hp He Hm.
  destruct (binary_round_aligned false m e) as (mz & ez & Hez & Hmz & Ha & ->).
  destruct (binary_round_aux_shape false (Z.pos mz) ez loc_Exact ltac:(lia) Ha)
    as (m1 & Hr & HE & Hlo & Hhi & ->).
  set (E := fexp F32.prec F32.emax (Zdigits2 (Z.pos mz) + ez)) in *.
  assert (0 < 2 ^ (e - ez)) by (apply Z.pow_pos_nonneg; lia).
  assert (0 < 2 ^ (ep - e)) by (apply Z.pow_pos_nonneg; lia).
  assert (Z.pos mp * 2 ^ (ep - ez) ≤ Z.pos mz) as Hmz'.
  { rewrite Hmz. replace (ep - ez) with ((ep - e) + (e - ez)) by lia.
    rewrite Z.pow_add_r by lia. nia. }
  assert (0 < 2 ^ (ep - ez)) by (apply Z.pow_pos_nonneg; lia).
  assert (ep ≤ E) as HEp.
  { rewrite <- (canonical_fexp mp ep Hp). apply fexp_mono.
    pose proof (Zdigits2_mono (Z.pos mp * 2 ^ (ep - ez)) (Z.pos mz) ltac:(lia)) as Hd.
    rewrite Zdigits2_mul_pow2 in Hd by lia. lia. }
  apply canonical_mantissa_iff in Hp.
  apply pack_ge; [lia|].
  destruct (Z.eq_dec E ep) as [HEeq|HEne]; [right|left].
  - split; [exact HEeq|].
    assert (Z.pos mp ≤ Z.pos mz / 2 ^ (E - ez)); [|lia].
    rewrite HEeq. apply Z.div_le_lower_bound; lia.
  - split; [lia|]. specialize (Hhi ltac:(lia)). lia.
Qed.

End RoundingFacts.

(** ** Facts about the float operations of the animation *)

Section AnimationArithmetic.

Lemma f32_zero_eq : f32_zero = S754_zero false.
Proof. vm_compute. reflexivity. Qed.

Lemma f32_half_eq : f32_half = S754_finite false 8388608 (-24).
Proof. vm_compute. reflexivity. Qed.

Lemma animSpeed_eq : animSpeed = S754_finite false 13981013 (-22).
Proof. vm_compute. reflexivity. Qed.

Lemma nonneg_iff (x : float) : F32.leb f32_zero x = true ↔ nonneg x.
Proof.
  rewrite f32_zero_eq.
  destruct x as [s|s| |s m e]; try destruct s; simpl; unfold F32.leb, SFleb;
    simpl; split; intros; try reflexivity; try discriminate; try tauto.
Qed.

Lemma nonneg_not_nan (x : float) : nonneg x → is_nan x = false.
Proof. destruct x; simpl; tauto. Qed.

Lemma has_sign_false_nonneg (x : float) : has_sign false x → nonneg x.
Proof. destruct x; simpl; tauto. Qed.

Lemma add_finite (mp ms : positive) (ep es : Z) :
  ∃ m : positive,
    Z.pos m = Z.pos mp * 2 ^ (ep - Z.min ep es) + Z.pos ms * 2 ^ (es - Z.min ep es)
    ∧ F32.add (S754_finite false mp ep) (S754_finite false ms es)
      = binary_round F32.prec F32.emax false m (Z.min ep es).
Proof.
  unfold F32.add, SFadd.
  pose proof (shl_align_spec mp ep (Z.min ep es)) as Ha.
  pose proof (shl_align_spec ms es (Z.min ep es)) as Hb.
  destruct (shl_align mp ep (Z.min ep es)) as [a ea].
  destruct (shl_align ms es (Z.min ep es)) as [b eb].
  destruct Ha as [Hea Ha], Hb as [Heb Hb].
  exists (a + b)%positive. split; [|reflexivity].
  rewrite Pos2Z.inj_add, Ha, Hb. f_equal; f_equal; f_equal; lia.
Qed.

Lemma sub_finite (mp ms : positive) (ep es : Z) :
  F32.sub (S754_finite false mp ep) (S754_finite false ms es)
  = binary_normalize F32.prec F32.emax
      (Z.pos mp * 2 ^ (ep - Z.min ep es) - Z.pos ms * 2 ^ (es - Z.min ep es))
      (Z.min ep es) false.
Proof.
  unfold F32.sub, SFsub.
  pose proof (shl_align_spec mp ep (Z.min ep es)) as Ha.
  pose proof (shl_align_spec ms es (Z.min ep es)) as Hb.
  destruct (shl_align mp ep (Z.min ep es)) as [a ea].
  destruct (shl_align ms es (Z.min ep es)) as [b eb].
  destruct Ha as [Hea Ha], Hb as [Heb Hb].
  cbn [fst cond_Zopp]. rewrite Ha, Hb. f_equal. f_equal; f_equal; f_equal; lia.
Qed.

(** The step [animSpeed * deltaTime] of a frame that lasted
    [deltaTime ≥ 0]. *)
Lemma step_nonneg (deltaTime : float) :
  nonneg deltaTime →
  nonneg (animSpeed * deltaTime)%f32
  ∧ F32.valid (animSpeed * deltaTime)%f32 = true.
Proof.
  rewrite animSpeed_eq. unfold F32.mul.
  destruct deltaTime as [s|s| |s m e]; simpl.
  - intros _. split; reflexivity.
  - intros ->. split; reflexivity.
  - intros [].
  - intros ->. simpl.
    assert (8388608 ≤ Z.pos (13981013 * m)) as Hm by lia.
    pose proof (Zdigits2_ge (Z.pos (13981013 * m)) 23 Hm) as Hd.
    assert (-22 + e ≤ fexp F32.prec F32.emax
                         (Zdigits2 (Z.pos (13981013 * m)) + (-22 + e))) as Ha.
    { unfold fexp, F32.prec. lia. }
    split.
    + apply has_sign_false_nonneg.
      destruct (binary_round_aux_shape false (Z.pos (13981013 * m)) (-22 + e)
                  loc_Exact ltac:(lia) Ha) as (m1 & _ & _ & _ & _ & ->).
      apply pack_sign.
    + apply binary_round_aux_valid; [lia|exact Ha].
Qed.

(** Adding a step [≥ 0] to a press value [≥ 0] gives a well-formed float
    that is not below the press value. *)
Lemma add_step (p step : float) :
  F32.valid p = true → nonneg p →
  F32.valid step = true → nonneg step →
  F32.valid (p + step)%f32 = true
  ∧ nonneg (p + step)%f32
  ∧ F32.leb p (p + step)%f32 = true.
Proof.
  intros Hvp Hp Hvs Hs.
  destruct p as [sp|sp| |sp mp ep], step as [ss|ss| |ss ms es];
    simpl in Hp, Hs; try contradiction; subst;
    try (destruct sp, ss; simpl; repeat split; solve [reflexivity|assumption]);
    try (try destruct sp; try destruct ss; simpl; repeat split;
         solve [reflexivity|assumption|apply leb_refl; reflexivity]).
  destruct (add_finite mp ms ep es) as (m & Hm & ->).
  split; [apply binary_round_valid|].
  split; [apply has_sign_false_nonneg, binary_round_sign|].
  apply andb_prop in Hvp. destruct Hvp as [Hcp _].
  assert (0 < 2 ^ (es - Z.min ep es)) by (apply Z.pow_pos_nonneg; lia).
  apply binary_round_ge; [exact Hcp|lia|lia].
Qed.

(** Taking a step [≥ 0] from a positive press value that is at most the
    well-formed float [q] gives a well-formed float, either negative or
    in between zero and [q]. *)
Lemma sub_step (mp : positive) (ep : Z) (step : float) (mq : positive) (eq : Z) :
  F32.valid (S754_finite false mp ep) = true →
  F32.valid (S754_finite false mq eq) = true →
  F32.leb (S754_finite false mp ep) (S754_finite false mq eq) = true →
  nonneg step →
  let r := (S754_finite false mp ep - step)%f32 in
  F32.valid r = true
  ∧ (has_sign true r
     ∨ (nonneg r ∧ F32.leb r (S754_finite false mq eq) = true)).
Proof.
  intros Hvp Hvq Hle Hs r. subst r.
  destruct step as [ss|ss| |ss ms es]; simpl in Hs; try contradiction.
  - split; [exact Hvp|right]. split; [reflexivity|exact Hle].
  - subst. split; [reflexivity|left; reflexivity].
  - subst. rewrite sub_finite. split; [apply binary_normalize_valid|].
    apply andb_prop in Hvp, Hvq. destruct Hvp as [Hcp _], Hvq as [Hcq Hbq].
    apply Z.leb_le in Hbq.
    pose proof (leb_le_at mp mq ep eq Hcp Hcq Hle) as [Hepq Hmpq].
    set (ez := Z.min ep es).
    assert (0 < 2 ^ (es - ez)) by (apply Z.pow_pos_nonneg; lia).
    assert (0 < 2 ^ (ep - ez)) by (apply Z.pow_pos_nonneg; lia).
    destruct (Z.pos mp * 2 ^ (ep - ez) - Z.pos ms * 2 ^ (es - ez))
      as [|d|d] eqn:Hd; simpl.
    + right. split; [exact I|reflexivity].
    + right. split; [apply has_sign_false_nonneg, binary_round_sign|].
      apply binary_round_le; [exact Hcq|exact Hbq|lia|].
      replace (eq - ez) with ((eq - ep) + (ep - ez)) by lia.
      rewrite Z.pow_add_r by lia. nia.
    + left. apply binary_round_sign.
Qed.

End AnimationArithmetic.

(** ** The press animation stays in range *)

Section AnimationRange.

Lemma valid_zero : F32.valid f32_zero = true.
Proof. vm_compute. reflexivity. Qed.

Lemma valid_half : F32.valid f32_half = true.
Proof. vm_compute. reflexivity. Qed.

Lemma pressAnim_set (v : float) (k : Key) : pressAnim (set_pressAnim v k) = v.
Proof. reflexivity. Qed.

(** A float in [[0, 0.5]] that is above zero is a positive finite one. *)
Lemma positive_le_half_finite (p : float) :
  F32.ltb (S754_zero false) p = true →
  F32.leb p (S754_finite false 8388608 (-24)) = true →
  ∃ m e, p = S754_finite false m e.
Proof.
  destruct p as [s|s| |s m e]; try destruct s; try discriminate.
  intros _ _. eauto.
Qed.

(** The value left by the release branch: a difference that went below
    zero is put back on zero. *)
Lemma clamp_at_zero (r : float) (mq : positive) (eq : Z) :
  F32.valid r = true →
  has_sign true r
  ∨ (nonneg r ∧ F32.leb r (S754_finite false mq eq) = true) →
  let r' := if F32.ltb r (S754_zero false) then S754_zero false else r in
  F32.valid r' = true ∧ nonneg r'
  ∧ F32.leb r' (S754_finite false mq eq) = true.
Proof.
  intros Hv [Hneg|[Hnn Hle]].
  - destruct r as [s|s| |s m e]; simpl in Hneg; try contradiction; subst;
      simpl; repeat split; reflexivity.
  - destruct r as [s|s| |s m e]; simpl in Hnn; try contradiction; subst;
      simpl.
    + destruct s; repeat split; reflexivity.
    + discriminate.
    + repeat split; assumption.
Qed.

End AnimationRange.

(** C1.  One call of [updateKeyAnimation] with a frame time
  [deltaTime ≥ 0] keeps the press value of a key in [[0, 0.5]]: a key
  whose [pressAnim] is a well-formed binary32 value with
  [0 ≤ pressAnim ≤ 0.5] before the call has a well-formed [pressAnim]
  with [0 ≤ pressAnim ≤ 0.5] after it, so the value is never negative
  and never above the cap. *)
Theorem updateKeyAnimation_keeps_range (key : Key) (deltaTime : float) :
F32.valid (pressAnim key) = true →
F32.leb f32_zero (pressAnim key) = true →
F32.leb (pressAnim key) f32_half = true →
F32.leb f32_zero deltaTime = true →
let key' := updateKeyAnimation key deltaTime in
F32.valid (pressAnim key') = true
∧ F32.leb f32_zero (pressAnim key') = true
∧ F32.leb (pressAnim key') f32_half = true.
Proof.
intros Hv H0 Hh Hdt key'. subst key'.
pose proof (proj1 (nonneg_iff _) H0) as Hp.
pose proof (proj1 (nonneg_iff _) Hdt) as Hd.
destruct (step_nonneg deltaTime Hd) as [Hs Hvs].
unfold updateKeyAnimation. cbv zeta.
destruct (isPressed key).
- (* pressed: the target is 0.5 *)
  destruct (F32.ltb (pressAnim key) f32_half) eqn:Hlt.
  + rewrite pressAnim_set.
    destruct (add_step _ _ Hv Hp Hvs Hs) as (Hvr & Hnr & _).
    destruct (F32.ltb f32_half (pressAnim key + animSpeed * deltaTime)%f32)
      eqn:Hover; rewrite pressAnim_set.
    * split; [apply valid_half|]. split; vm_compute; reflexivity.
    * split; [exact Hvr|]. split; [apply nonneg_iff; exact Hnr|].
      apply ltb_false_leb; [reflexivity|apply nonneg_not_nan; exact Hnr|].
      exact Hover.
  + rewrite (leb_not_gtb _ _ Hh). auto.
- (* released: the target is 0 *)
  rewrite (leb_not_gtb _ _ H0).
  destruct (F32.ltb f32_zero (pressAnim key)) eqn:Hgt; [|auto].
  rewrite pressAnim_set.
  rewrite f32_zero_eq, f32_half_eq in *.
  destruct (positive_le_half_finite _ Hgt Hh) as (mp & ep & Hpe).
  rewrite Hpe in *.
  destruct (sub_step mp ep (animSpeed * deltaTime)%f32 8388608 (-24)
              Hv ltac:(reflexivity) Hh Hs) as [Hvr Hr].
  pose proof (clamp_at_zero _ 8388608 (-24) Hvr Hr) as Hc. cbv zeta in Hc.
  destruct (F32.ltb (S754_finite false mp ep - animSpeed * deltaTime)%f32
              (S754_zero false)) eqn:Hunder; rewrite pressAnim_set.
  + destruct Hc as (Hc1 & Hc2 & Hc3). auto.
  + destruct Hc as (Hc1 & Hc2 & Hc3). split; [exact Hc1|].
    split; [|exact Hc3]. rewrite <- f32_zero_eq. apply nonneg_iff. exact Hc2.
Qed.

Lemma updateKeyAnimation_keeps_range_witness :
let key' := updateKeyAnimation (sample_key (F32.lit 48 100) true) (F32.lit 16 1000) in
F32.valid (pressAnim key') = true
∧ F32.leb f32_zero (pressAnim key') = true
∧ F32.leb (pressAnim key') f32_half = true.
Proof.
apply (updateKeyAnimation_keeps_range (sample_key (F32.lit 48 100) true)
         (F32.lit 16 1000)); vm_compute; reflexivity.
Defined.

(** ** One step of the animation *)

Section AnimationStep.

Lemma ltb_asym (x y : float) : F32.ltb x y = true → F32.ltb y x = false.
Proof. intros H. apply leb_not_gtb, ltb_leb, H. Qed.

Lemma eqb_not_ltb (x y : float) :
  F32.eqb x y = true → F32.ltb x y = false ∧ F32.ltb y x = false.
Proof.
  unfold F32.eqb, F32.ltb, SFeqb, SFltb. rewrite (SFcompare_antisym x y).
  destruct (SFcompare x y) as [[]|]; simpl; intros; try discriminate; auto.
Qed.

Lemma set_pressAnim_same (k : Key) : set_pressAnim (pressAnim k) k = k.
Proof. destruct k; reflexivity. Qed.

Lemma set_pressAnim_twice (u v : float) (k : Key) :
  set_pressAnim u (set_pressAnim v k) = set_pressAnim u k.
Proof. reflexivity. Qed.

(** Only the press value of the key is written. *)
Lemma updateKeyAnimation_frame (key : Key) (deltaTime : float) :
  updateKeyAnimation key deltaTime
  = set_pressAnim (pressAnim (updateKeyAnimation key deltaTime)) key.
Proof.
  unfold updateKeyAnimation. cbv zeta.
  repeat match goal with
         | |- context [if ?b then _ else _] => destruct b
         end;
    rewrite ?pressAnim_set, ?set_pressAnim_twice, ?set_pressAnim_same;
    reflexivity.
Qed.

Lemma updateKeyAnimation_up (key : Key) (deltaTime : float) :
  let target := if isPressed key then f32_half else f32_zero in
  let p := pressAnim key in
  F32.ltb p target = true →
  pressAnim (updateKeyAnimation key deltaTime)
  = if F32.ltb target (p + animSpeed * deltaTime)%f32 then target
    else (p + animSpeed * deltaTime)%f32.
Proof.
  intros target p Hlt. unfold updateKeyAnimation. cbv zeta.
  fold target. fold p. rewrite Hlt, pressAnim_set.
  destruct (F32.ltb target (p + animSpeed * deltaTime)%f32); reflexivity.
Qed.

Lemma updateKeyAnimation_down (key : Key) (deltaTime : float) :
  let target := if isPressed key then f32_half else f32_zero in
  let p := pressAnim key in
  F32.ltb target p = true →
  pressAnim (updateKeyAnimation key deltaTime)
  = if F32.ltb (p - animSpeed * deltaTime)%f32 target then target
    else (p - animSpeed * deltaTime)%f32.
Proof.
  intros target p Hgt. unfold updateKeyAnimation. cbv zeta.
  fold target. fold p. rewrite (ltb_asym _ _ Hgt), Hgt, pressAnim_set.
  destruct (F32.ltb (p - animSpeed * deltaTime)%f32 target); reflexivity.
Qed.

Lemma updateKeyAnimation_at_target (key : Key) (deltaTime : float) :
  F32.eqb (pressAnim key) (if isPressed key then f32_half else f32_zero) = true →
  updateKeyAnimation key deltaTime = key.
Proof.
  intros Heq. apply eqb_not_ltb in Heq. destruct Heq as [H1 H2].
  unfold updateKeyAnimation. cbv zeta. rewrite H1, H2. reflexivity.
Qed.

(** Moving up never passes the target and never goes back. *)
Lemma up_between (p target deltaTime : float) :
  F32.valid p = true → nonneg p → nonneg deltaTime →
  F32.ltb p target = true →
  let r := (p + animSpeed * deltaTime)%f32 in
  let p' := if F32.ltb target r then target else r in
  F32.leb p p' = true ∧ F32.leb p' target = true.
Proof.
  intros Hv Hp Hd Hlt r p'. subst p' r.
  destruct (step_nonneg deltaTime Hd) as [Hs Hvs].
  destruct (add_step _ _ Hv Hp Hvs Hs) as (_ & Hnr & Hge).
  assert (is_nan target = false) as Hnt.
  { destruct target; try reflexivity. destruct p; discriminate Hlt. }
  destruct (F32.ltb target (p + animSpeed * deltaTime)%f32) eqn:Hover.
  - split; [apply ltb_leb; exact Hlt|apply leb_refl; exact Hnt].
  - split; [exact Hge|].
    apply ltb_false_leb; [exact Hnt|apply nonneg_not_nan; exact Hnr|exact Hover].
Qed.

(** Moving down never passes zero and never goes back. *)
Lemma down_between (p deltaTime : float) :
  F32.valid p = true → F32.leb p f32_half = true → nonneg deltaTime →
  F32.ltb f32_zero p = true →
  let r := (p - animSpeed * deltaTime)%f32 in
  let p' := if F32.ltb r f32_zero then f32_zero else r in
  F32.leb f32_zero p' = true ∧ F32.leb p' p = true.
Proof.
  intros Hv Hh Hd Hgt r p'. subst p' r.
  destruct (step_nonneg deltaTime Hd) as [Hs _].
  rewrite f32_zero_eq, f32_half_eq in *.
  destruct (positive_le_half_finite _ Hgt Hh) as (mp & ep & ->).
  destruct (sub_step mp ep (animSpeed * deltaTime)%f32 mp ep Hv Hv
              (leb_refl (S754_finite false mp ep) eq_refl) Hs) as [Hvr Hr].
  pose proof (clamp_at_zero _ mp ep Hvr Hr) as Hc. cbv zeta in Hc.
  destruct Hc as (_ & Hc2 & Hc3). split; [|exact Hc3].
  rewrite <- f32_zero_eq. apply nonneg_iff. exact Hc2.
Qed.

Lemma eqb_cases (x y : float) :
  F32.eqb x y = true → x = y ∨ ∃ s s', x = S754_zero s ∧ y = S754_zero s'.
Proof.
  unfold F32.eqb, SFeqb.
  destruct x as [sx|sx| |sx mx ex], y as [sy|sy| |sy my ey];
    try destruct sx; try destruct sy; try discriminate; eauto;
    unfold SFcompare; destruct (Z.compare_spec ex ey) as [->| |];
    try discriminate;
    change (Pos.compare_cont Eq mx my) with (Pos.compare mx my);
    destruct (Pos.compare_spec mx my) as [->| |]; try discriminate; auto.
Qed.

Lemma eqb_refl (x : float) : is_nan x = false → F32.eqb x x = true.
Proof.
  unfold F32.eqb, SFeqb. destruct x as [s|s| |s m e]; try destruct s;
    try reflexivity; try discriminate; intros _; simpl;
    rewrite Z.compare_refl, Pos.compare_cont_refl; reflexivity.
Qed.

Lemma ltb_zero_sign (t : float) (s s' : bool) :
  F32.ltb t (S754_zero s) = F32.ltb t (S754_zero s').
Proof. destruct t as [st|st| |st mt et]; reflexivity. Qed.

Lemma add_zero_r (p : float) (s : bool) :
  is_nan p = false →
  F32.eqb (p + S754_zero s)%f32 p = true
  ∧ (p ≠ S754_zero true → (p + S754_zero s)%f32 = p).
Proof.
  intros Hn. destruct p as [sp|sp| |sp mp ep]; try discriminate Hn.
  - destruct sp, s; split; try reflexivity; congruence.
  - destruct sp; split; reflexivity.
  - split; [|reflexivity].
    apply (eqb_refl (S754_finite sp mp ep)). reflexivity.
Qed.

Lemma sub_zero_r (p : float) (s : bool) :
  (∀ sp, p ≠ S754_zero sp) → (p - S754_zero s)%f32 = p.
Proof.
  intros Hp. destruct p as [sp|sp| |sp mp ep]; try reflexivity.
  destruct (Hp sp eq_refl).
Qed.

(** A frame that lasted no time moves nothing. *)
Lemma updateKeyAnimation_zero_time (key : Key) (deltaTime : float) :
  is_nan (pressAnim key) = false →
  F32.eqb deltaTime f32_zero = true →
  F32.eqb (pressAnim (updateKeyAnimation key deltaTime)) (pressAnim key) = true
  ∧ (pressAnim key ≠ S754_zero true → updateKeyAnimation key deltaTime = key).
Proof.
  intros Hn Hz. rewrite f32_zero_eq in Hz.
  assert (∃ s, deltaTime = S754_zero s) as [s ->].
  { destruct deltaTime as [s|s| |s m e]; try destruct s; try discriminate;
      eauto. }
  assert ((animSpeed * S754_zero s)%f32 = S754_zero s) as Hstep.
  { rewrite animSpeed_eq. reflexivity. }
  pose proof (eqb_refl _ Hn) as Hrefl.
  unfold updateKeyAnimation. cbv zeta. rewrite Hstep.
  set (target := if isPressed key then f32_half else f32_zero).
  destruct (F32.ltb (pressAnim key) target) eqn:Hlt.
  - rewrite pressAnim_set.
    destruct (add_zero_r _ s Hn) as [He Hsame].
    assert (F32.ltb target (pressAnim key + S754_zero s)%f32 = false) as Hno.
    { destruct (eqb_cases _ _ He) as [->|(s1 & s2 & -> & Hp)].
      - apply ltb_asym, Hlt.
      - rewrite (ltb_zero_sign target s1 s2), <- Hp. apply ltb_asym, Hlt. }
    rewrite Hno. split; [exact He|].
    intros Hp. rewrite (Hsame Hp). apply set_pressAnim_same.
  - destruct (F32.ltb target (pressAnim key)) eqn:Hgt;
      [|split; [exact Hrefl|reflexivity]].
    rewrite pressAnim_set.
    assert (∀ sp, pressAnim key ≠ S754_zero sp) as Hnz.
    { intros sp Hp. rewrite Hp in Hgt. unfold target in Hgt.
      destruct (isPressed key), sp; discriminate Hgt. }
    rewrite (sub_zero_r _ s Hnz), Hlt, set_pressAnim_same.
    split; [exact Hrefl|reflexivity].
Qed.

End AnimationStep.

Lemma animSpeed_def :
(f32_half / F32.of_double PRESS_FEEDBACK_DURATION)%f32 = animSpeed.
Proof. vm_compute. reflexivity. Qed.

(** C2.  For a key whose [pressAnim] is a well-formed value in [[0, 0.5]]
  and a frame time [deltaTime ≥ 0], [updateKeyAnimation] writes nothing
  but [pressAnim] and, with [target = isPressed ? 0.5 : 0.0] and
  [step = (0.5 / PRESS_FEEDBACK_DURATION) * deltaTime] (the binary32
  quotient and product of the source):
  - below the target the new value is [pressAnim + step], replaced by the
    target when that sum is above the target; it lies between the old
    value and the target;
  - above the target the new value is [pressAnim - step], replaced by the
    target when that difference is below the target; it lies between the
    target and the old value;
  - at the target the key is unchanged;
  - with [deltaTime] zero the new value equals the old one, and the key
    is unchanged (but for a negative zero, which becomes the equal
    positive zero). *)
Theorem updateKeyAnimation_moves_toward_target (key : Key) (deltaTime : float) :
F32.valid (pressAnim key) = true →
F32.leb f32_zero (pressAnim key) = true →
F32.leb (pressAnim key) f32_half = true →
F32.leb f32_zero deltaTime = true →
let target := if isPressed key then f32_half else f32_zero in
let step :=
  ((f32_half / F32.of_double PRESS_FEEDBACK_DURATION) * deltaTime)%f32 in
let p := pressAnim key in
let key' := updateKeyAnimation key deltaTime in
let p' := pressAnim key' in
key' = set_pressAnim p' key
∧ (F32.ltb p target = true →
   p' = (if F32.ltb target (p + step)%f32 then target else (p + step)%f32)
   ∧ F32.leb p p' = true ∧ F32.leb p' target = true)
∧ (F32.ltb target p = true →
   p' = (if F32.ltb (p - step)%f32 target then target else (p - step)%f32)
   ∧ F32.leb target p' = true ∧ F32.leb p' p = true)
∧ (F32.eqb p target = true → key' = key)
∧ (F32.eqb deltaTime f32_zero = true →
   F32.eqb p' p = true ∧ (p ≠ S754_zero true → key' = key)).
Proof.
intros Hv H0 Hh Hdt target step p key' p'.
pose proof (proj1 (nonneg_iff _) H0) as Hp.
pose proof (proj1 (nonneg_iff _) Hdt) as Hd.
subst step p' key' p target. rewrite animSpeed_def.
split; [apply updateKeyAnimation_frame|].
split; [|split; [|split]].
- intros Hlt.
  rewrite (updateKeyAnimation_up key deltaTime Hlt).
  split; [reflexivity|].
  apply (up_between _ _ deltaTime Hv Hp Hd Hlt).
- intros Hgt.
  rewrite (updateKeyAnimation_down key deltaTime Hgt).
  split; [reflexivity|].
  destruct (isPressed key).
  + rewrite (leb_not_gtb _ _ Hh) in Hgt. discriminate Hgt.
  + apply (down_between _ deltaTime Hv Hh Hd Hgt).
- intros Heq. apply updateKeyAnimation_at_target. exact Heq.
- intros Hz. apply updateKeyAnimation_zero_time; [|exact Hz].
  apply nonneg_not_nan. exact Hp.
Qed.

Lemma updateKeyAnimation_moves_toward_target_witness :
let key := sample_key (F32.lit 48 100) true in
let deltaTime := F32.lit 16 1000 in
pressAnim (updateKeyAnimation key deltaTime) = f32_half
∧ F32.ltb f32_half (pressAnim key + animSpeed * deltaTime)%f32 = true.
Proof.
intros key deltaTime.
destruct (updateKeyAnimation_moves_toward_target key deltaTime)
  as (_ & Hup & _); [vm_compute; reflexivity..|].
destruct Hup as (Heq & _); [vm_compute; reflexivity|].
split; [rewrite Heq|]; vm_compute; reflexivity.
Defined.

(** ** The keycap geometry *)

(** C3.  For every key rectangle [(x, y, w, h)], depth [KEY_DEPTH] and
    press progress [p] (so for every [p] in [[0, 0.5]]), [drawKeycap3D]
    submits five quads, front, top, right, bottom and left, such that:
    the front face is the rectangle shifted by [10 * p] on both [x] and [y]
    and recessed by [pressOffsetZ = depth * p]; each side face joins an
    edge of the front face to the two corners behind it, which lie
    [compressedDepth = depth * (1 - 0.5 * p)] further into the scene. *)
Theorem drawKeycap3D_geometry (KEY_DEPTH : float) (key : Key) :
  let p := pressAnim key in
  let x := vx (pos key) in
  let y := vy (pos key) in
  let w := vx (size key) in
  let h := vy (size key) in
  let shift := (F32.lit 10 1 * p)%f32 in
  let pressOffsetZ := (KEY_DEPTH * p)%f32 in
  let compressedDepth := (KEY_DEPTH * (f32_one - f32_half * p))%f32 in
  let front := Vertex (x - shift)%f32 (y - shift)%f32 (- pressOffsetZ)%f32 in
  let behind (v : vertex) :=
    Vertex (gx v - compressedDepth)%f32 (gy v - compressedDepth)%f32
           (- (pressOffsetZ + compressedDepth))%f32 in
  ∃ f1 f2 f3 f4 : vertex,
    (f1, f2, f3, f4) = spec_front KEY_DEPTH x y w h p
    ∧ f1 = front
    ∧ f2 = Vertex (gx front + w)%f32 (gy front) (gz front)
    ∧ f3 = Vertex (gx front + w)%f32 (gy front + h)%f32 (gz front)
    ∧ f4 = Vertex (gx front) (gy front + h)%f32 (gz front)
    ∧ (∀ v, spec_behind KEY_DEPTH p v = behind v)
    ∧ map (λ q, (q_a q, q_b q, q_c q, q_d q)) (drawKeycap3D KEY_DEPTH key)
      = [ (f1, f2, f3, f4);
          (f1, f2, behind f2, behind f1);
          (f2, f3, behind f3, behind f2);
          (f4, f3, behind f3, behind f4);
          (f1, f4, behind f4, behind f1) ].
Proof.
  intros p x y w h shift pressOffsetZ compressedDepth front behind.
  eexists _, _, _, _. split; [reflexivity|].
  repeat split; reflexivity.
Qed.

(** ** The identifier lookup of the layouts *)

Lemma to_int_small (z : Z) : 0 ≤ z < 2 ^ 31 → to_int z = z.
Proof.
  intros H. unfold to_int. rewrite Z.mod_small; [lia|].
  change (2 ^ 31) with 2147483648 in *. change (2 ^ 32) with 4294967296. lia.
Qed.

Lemma layout_inv_empty (s : World) :
  layout_inv 0 (set_glfwKeyToIndex ∅ (set_keyboardKeys [] s)).
Proof.
  split; [reflexivity|]. split.
  - intros k i H. simpl in H. rewrite lookup_empty in H. discriminate H.
  - intros k1 k2 i H. simpl in H. rewrite lookup_empty in H. discriminate H.
Qed.

(** Pushing a key and mapping an identifier to the new last slot keeps the
    invariant: the new slot is above every slot mapped before. *)
Lemma layout_inv_push (n : nat) (s : World) (k : Key) (glfwKey : Z) :
  layout_inv n s →
  layout_inv (S n)
    (set_glfwKeyToIndex (<[glfwKey := Z.of_nat n]> (glfwKeyToIndex s))
       (set_keyboardKeys (keyboardKeys s ++ [k]) s)).
Proof.
  intros (Hlen & Hb & Hinj). split; [|split].
  - simpl. rewrite length_app, Hlen. simpl. lia.
  - intros c i. simpl. rewrite length_app, Hlen. simpl.
    destruct (decide (glfwKey = c)) as [->|Hne].
    + rewrite lookup_insert_eq. intros [= <-]. lia.
    + rewrite lookup_insert_ne by exact Hne. intros H.
      specialize (Hb c i H). rewrite Hlen in Hb. lia.
  - intros c1 c2 i. simpl.
    destruct (decide (c1 = glfwKey)) as [->|Hne1];
      destruct (decide (c2 = glfwKey)) as [->|Hne2];
      rewrite ?lookup_insert_eq, ?lookup_insert_ne by congruence.
    + reflexivity.
    + intros [= <-] H. specialize (Hb c2 _ H). rewrite Hlen in Hb. lia.
    + intros H [= <-]. specialize (Hb c1 _ H). rewrite Hlen in Hb. lia.
    + apply Hinj.
Qed.

Lemma layout_inv_push_unmapped (n : nat) (s : World) (k : Key) :
  layout_inv n s →
  layout_inv (S n) (set_keyboardKeys (keyboardKeys s ++ [k]) s).
Proof.
  intros (Hlen & Hb & Hinj). split; [|split].
  - simpl. rewrite length_app, Hlen. simpl. lia.
  - intros c i H. simpl in *. specialize (Hb c i H).
    rewrite length_app. simpl. lia.
  - exact Hinj.
Qed.

Lemma addKey_inv (n : nat) (s : World) (label : string) (x y w h : float)
    (kt : KeyType) (glfwKey : Z) :
  Z.of_nat n < 2 ^ 31 - 1 →
  layout_inv n s →
  layout_inv (S n) (FullBoard.addKey label x y w h kt glfwKey s).
Proof.
  intros Hn Hinv. unfold FullBoard.addKey.
  destruct (negb (glfwKey =? -1)).
  - cbv zeta. simpl keyboardKeys. rewrite length_app.
    destruct Hinv as (Hlen & Hrest). rewrite Hlen. simpl length.
    rewrite to_int_small by lia.
    replace (Z.of_nat (n + 1) - 1) with (Z.of_nat n) by lia.
    apply (layout_inv_push n s _ glfwKey). split; assumption.
  - apply layout_inv_push_unmapped. exact Hinv.
Qed.

Lemma addRow_inv (row : list (string * Z)) (kt : KeyType) :
  ∀ (n : nat) (currentX currentY : float) (s : World),
    Z.of_nat (n + length row) < 2 ^ 31 →
    layout_inv n s →
    layout_inv (n + length row)
      (snd (FullBoard.addRow row kt currentX currentY s)).
Proof.
  induction row as [|[lbl code] rest IH]; intros n cx cy s Hn Hinv.
  - simpl. replace (n + 0)%nat with n by lia. exact Hinv.
  - simpl. simpl in Hn.
    replace (n + S (length rest))%nat with (S n + length rest)%nat by lia.
    apply IH; [lia|]. apply addKey_inv; [lia|exact Hinv].
Qed.

Lemma pushKey_inv (n : nat) (s : World) (label : string) (x y : float)
    (glfwKey : Z) :
  Z.of_nat n < 2 ^ 31 →
  layout_inv n s →
  layout_inv (S n) (Compact.pushKey label x y glfwKey s).
Proof.
  intros Hn Hinv. unfold Compact.pushKey. cbv zeta.
  simpl keyboardKeys. rewrite length_app.
  pose proof Hinv as (Hlen & _). rewrite Hlen. simpl length.
  replace (Z.of_nat (n + 1) - 1) with (Z.of_nat n) by lia.
  rewrite to_int_small by lia.
  apply (layout_inv_push n s _ glfwKey). exact Hinv.
Qed.

Lemma layRow_inv (row : list (string * Z)) :
  ∀ (n : nat) (startX startY : float) (s : World),
    Z.of_nat (n + length row) < 2 ^ 31 →
    layout_inv n s →
    layout_inv (n + length row) (Compact.layRow row startX startY s).
Proof.
  induction row as [|[lbl code] rest IH]; intros n cx cy s Hn Hinv.
  - simpl. replace (n + 0)%nat with n by lia. exact Hinv.
  - simpl. simpl in Hn.
    replace (n + S (length rest))%nat with (S n + length rest)%nat by lia.
    apply IH; [lia|]. apply pushKey_inv; [lia|exact Hinv].
Qed.

Ltac layout_step :=
  match goal with
  | H : layout_inv ?n ?s
    |- context [FullBoard.addKey ?l ?x ?y ?w ?h ?kt ?c ?s] =>
      let s' := fresh "s" in
      let H' := fresh "Hinv" in
      pose proof (addKey_inv n s l x y w h kt c
                    ltac:(vm_compute; reflexivity) H) as H';
      set (s' := FullBoard.addKey l x y w h kt c s) in *;
      clearbody s'; clear H
  | H : layout_inv ?n ?s
    |- context [FullBoard.addRow ?row ?kt ?x ?y ?s] =>
      let s' := fresh "s" in
      let H' := fresh "Hinv" in
      pose proof (addRow_inv row kt n x y s
                    ltac:(vm_compute; reflexivity) H) as H';
      destruct (FullBoard.addRow row kt x y s) as [? s'];
      simpl in H'; clear H
  | H : layout_inv ?n ?s
    |- context [Compact.layRow ?row ?x ?y ?s] =>
      let s' := fresh "s" in
      let H' := fresh "Hinv" in
      pose proof (layRow_inv row n x y s
                    ltac:(vm_compute; reflexivity) H) as H';
      set (s' := Compact.layRow row x y s) in *;
      clearbody s'; simpl in H'; clear H
  end.

Lemma initKeyboardLayout_inv (g_mainStartX g_mainStartY : float) (s : World) :
  layout_inv 74 (FullBoard.initKeyboardLayout g_mainStartX g_mainStartY s).
Proof.
  unfold FullBoard.initKeyboardLayout. cbv zeta.
  pose proof (layout_inv_empty s) as Hinv.
  set (s0 := set_glfwKeyToIndex ∅ (set_keyboardKeys [] s)) in *.
  clearbody s0.
  repeat layout_step. assumption.
Qed.

Lemma initKeyboard_inv (s : World) : layout_inv 48 (Compact.initKeyboard s).
Proof.
  unfold Compact.initKeyboard. cbv zeta.
  pose proof (layout_inv_empty s) as Hinv.
  set (s0 := set_glfwKeyToIndex ∅ (set_keyboardKeys [] s)) in *.
  clearbody s0.
  repeat layout_step. assumption.
Qed.

(** C4.  After either layout initialisation, the lookup from physical-key
    identifiers to slot indices is injective: two identifiers that map to
    the same slot index are the same identifier.  Moreover an identifier
    maps to at most one slot, and that slot holds a key. *)
Theorem lookup_injective_after_layout :
  (∀ (g_mainStartX g_mainStartY : float) (s : World),
      let s' := FullBoard.initKeyboardLayout g_mainStartX g_mainStartY s in
      lookup_injective (glfwKeyToIndex s')
      ∧ (∀ k i j, glfwKeyToIndex s' !! k = Some i →
                  glfwKeyToIndex s' !! k = Some j → i = j)
      ∧ lookup_in_bounds s')
  ∧ (∀ s : World,
      let s' := Compact.initKeyboard s in
      lookup_injective (glfwKeyToIndex s')
      ∧ (∀ k i j, glfwKeyToIndex s' !! k = Some i →
                  glfwKeyToIndex s' !! k = Some j → i = j)
      ∧ lookup_in_bounds s').
Proof.
  split.
  - intros x y s s'.
    destruct (initKeyboardLayout_inv x y s) as (_ & Hb & Hinj).
    split; [exact Hinj|]. split; [|exact Hb]. congruence.
  - intros s s'.
    destruct (initKeyboard_inv s) as (_ & Hb & Hinj).
    split; [exact Hinj|]. split; [|exact Hb]. congruence.
Qed.

(** ** The rows of the compact board *)

Lemma compact_keys_fixed (s : World) :
  keyboardKeys (Compact.initKeyboard s)
  = keyboardKeys (Compact.initKeyboard start_world).
Proof. reflexivity. Qed.

(** C7, as the claim states it, fails: in the compact board the home row
    starts 35 to the right of the row above it (QWERTYUIOP), and half a key
    width is 30. *)
Lemma home_row_offset_counterexample :
  let ks := keyboardKeys (Compact.initKeyboard start_world) in
  ∃ kq ka : Key,
    ks !! 22%nat = Some kq ∧ label kq = "Q"%string
    ∧ ks !! 32%nat = Some ka ∧ label ka = "A"%string
    ∧ (vx (pos ka) - vx (pos kq))%f32 = F32.of_Z 35
    ∧ (Compact.KEY_WIDTH / F32.lit 2 1)%f32 = F32.of_Z 30
    ∧ F32.eqb (vx (pos ka) - vx (pos kq))%f32
              (Compact.KEY_WIDTH / F32.lit 2 1)%f32 = false.
Proof.
  intros ks.
  destruct (ks !! 22%nat) as [kq|] eqn:Hq; [|vm_compute in Hq; discriminate Hq].
  destruct (ks !! 32%nat) as [ka|] eqn:Ha; [|vm_compute in Ha; discriminate Ha].
  exists kq, ka.
  vm_compute in Hq, Ha.
  injection Hq as <-. injection Ha as <-.
  repeat split; vm_compute; reflexivity.
Qed.

(** C7, amended.  In the compact board every row above the home row starts
    at [KEY_SPACING], the home row (ASDFGHJKL) starts at
    [KEY_SPACING + (KEY_WIDTH + KEY_SPACING) / 2], that is exactly half a
    key pitch (key width plus spacing: 35) further right, and inside a row
    each key sits one pitch [KEY_WIDTH + KEY_SPACING] to the right of the
    key before it, at the same height. *)
Theorem compact_rows_layout (s : World) :
  let ks := keyboardKeys (Compact.initKeyboard s) in
  let pitch := (Compact.KEY_WIDTH + Compact.KEY_SPACING)%f32 in
  (∀ i k, i ∈ [0; 12; 22]%nat → ks !! i = Some k →
          vx (pos k) = Compact.KEY_SPACING)
  ∧ (∃ ka, ks !! 32%nat = Some ka ∧ label ka = "A"%string
           ∧ vx (pos ka) = (Compact.KEY_SPACING + pitch / F32.lit 2 1)%f32
           ∧ (vx (pos ka) - Compact.KEY_SPACING)%f32 = (pitch / F32.lit 2 1)%f32
           ∧ (pitch / F32.lit 2 1)%f32 = F32.of_Z 35)
  ∧ (∀ i k k', S i ∉ compact_row_starts →
               ks !! i = Some k → ks !! S i = Some k' →
               vx (pos k') = (vx (pos k) + pitch)%f32
               ∧ F32.ltb (vx (pos k)) (vx (pos k')) = true
               ∧ vy (pos k') = vy (pos k)).
Proof.
  intros ks pitch. subst ks pitch. rewrite compact_keys_fixed.
  split; [|split].
  - intros i k Hi Hk. rewrite !elem_of_cons in Hi.
    destruct Hi as [->|[->|[->|Hi]]]; [| | |inversion Hi];
      vm_compute in Hk; injection Hk as <-; reflexivity.
  - destruct (keyboardKeys (Compact.initKeyboard start_world) !! 32%nat)
      as [ka|] eqn:Ha; [|vm_compute in Ha; discriminate Ha].
    exists ka. vm_compute in Ha. injection Ha as <-.
    repeat split; vm_compute; reflexivity.
  - intros i k k' Hrow Hk Hk'.
    do 48 (destruct i as [|i];
           [first [ solve [ vm_compute in Hk, Hk'; injection Hk as <-;
                            injection Hk' as <-; repeat split; vm_compute;
                            reflexivity ]
                  | exfalso; apply Hrow; unfold compact_row_starts;
                    rewrite !elem_of_cons; lia
                  | vm_compute in Hk'; discriminate Hk' ]
           |]).
    vm_compute in Hk'. discriminate Hk'.
Qed.

(** ** The key callbacks *)

(** C8.  A key event whose identifier is not in the lookup is ignored by
    the key callbacks of the full board and of the compact board: the whole
    state is returned as it was, so no key changes its [isPressed],
    [pressAnim] or [keycapRemoved] and no sound thread is spawned; the
    callback of the full board is defined on it (no error). *)
Theorem unmapped_key_event_ignored (s : World) (key action : Z) :
  glfwKeyToIndex s !! key = None →
  FullBoard.keyCallback key action s = Some s
  ∧ Compact.keyCallback key action s = s.
Proof.
  intros Hnone. unfold FullBoard.keyCallback, Compact.keyCallback.
  rewrite Hnone. split; reflexivity.
Qed.

Lemma unmapped_key_event_ignored_witness :
  let s := Compact.initKeyboard start_world in
  FullBoard.keyCallback GLFW_KEY_ESCAPE GLFW_PRESS s = Some s
  ∧ Compact.keyCallback GLFW_KEY_ESCAPE GLFW_PRESS s = s.
Proof.
  apply (unmapped_key_event_ignored (Compact.initKeyboard start_world)
           GLFW_KEY_ESCAPE GLFW_PRESS).
  vm_compute. reflexivity.
Defined.

(** C10.  A key event whose action is neither [GLFW_PRESS] nor
    [GLFW_RELEASE] (the repeat action of GLFW, for one) leaves the whole
    state as it was in the three programs: no key changes and no sound
    thread is spawned. *)
Theorem other_action_ignored (s : World) (key action : Z) :
  action ≠ GLFW_PRESS → action ≠ GLFW_RELEASE →
  FullBoard.keyCallback key action s = Some s
  ∧ Compact.keyCallback key action s = s
  ∧ ∀ (mods : Z) (st : MxGreen.State),
      MxGreen.keyCallback key action mods st = st.
Proof.
  intros Hp Hr.
  apply Z.eqb_neq in Hp, Hr.
  unfold FullBoard.keyCallback, Compact.keyCallback, MxGreen.keyCallback.
  rewrite Hp, Hr. split; [|split].
  - destruct (glfwKeyToIndex s !! key); reflexivity.
  - destruct (glfwKeyToIndex s !! key) as [index|]; [|reflexivity].
    destruct (to_size_t index <? _); reflexivity.
  - intros mods st. destruct (key =? GLFW_KEY_A); reflexivity.
Qed.

Lemma other_action_ignored_witness :
  let s := Compact.initKeyboard start_world in
  FullBoard.keyCallback GLFW_KEY_A 2 s = Some s
  ∧ Compact.keyCallback GLFW_KEY_A 2 s = s
  ∧ ∀ (mods : Z) (st : MxGreen.State),
      MxGreen.keyCallback GLFW_KEY_A 2 mods st = st.
Proof.
  apply (other_action_ignored (Compact.initKeyboard start_world) GLFW_KEY_A 2);
    vm_compute; discriminate.
Defined.

(** ** The pointer callbacks *)

Lemma under_cursor_set_keycapRemoved (x y : double) (b : bool) (k : Key) :
  under_cursor x y (set_keycapRemoved b k) = under_cursor x y k.
Proof. reflexivity. Qed.

Lemma under_cursor_set_isPressed (x y : double) (b : bool) (k : Key) :
  under_cursor x y (set_isPressed b k) = under_cursor x y k.
Proof. reflexivity. Qed.

Lemma toggle_twice (k : Key) :
  set_keycapRemoved
    (negb (keycapRemoved (set_keycapRemoved (negb (keycapRemoved k)) k)))
    (set_keycapRemoved (negb (keycapRemoved k)) k) = k.
Proof. destruct k as [l p sz a pr rm ty]. simpl. rewrite negb_involutive. reflexivity. Qed.

Lemma toggle_first_twice (x y : double) (ks : list Key) :
  FullBoard.toggle_first x y (FullBoard.toggle_first x y ks) = ks.
Proof.
  induction ks as [|k rest IH]; [reflexivity|]. simpl.
  destruct (under_cursor x y k) eqn:Hk; simpl.
  - rewrite under_cursor_set_keycapRemoved, Hk. f_equal. apply toggle_twice.
  - rewrite Hk, IH. reflexivity.
Qed.

Lemma toggle_first_isPressed (x y : double) (ks : list Key) :
  map isPressed (FullBoard.toggle_first x y ks) = map isPressed ks.
Proof.
  induction ks as [|k rest IH]; [reflexivity|]. simpl.
  destruct (under_cursor x y k); simpl; [reflexivity|]. rewrite IH. reflexivity.
Qed.

(** The loop with [break] that toggles: only the first key under the
    cursor is written. *)
Lemma toggle_first_spec (x y : double) (ks : list Key) :
  FullBoard.toggle_first x y ks
  = match first_hit x y ks with
    | Some (i, k) => <[i := set_keycapRemoved (negb (keycapRemoved k)) k]> ks
    | None => ks
    end.
Proof.
  unfold first_hit. induction ks as [|k rest IH]; [reflexivity|].
  simpl. rewrite IH. clear IH.
  destruct (under_cursor x y k) eqn:Hk.
  - rewrite decide_True by reflexivity. reflexivity.
  - rewrite decide_False by discriminate.
    destruct (list_find _ rest) as [[i ki]|]; reflexivity.
Qed.


Lemma right_click_keys (x y : double) (s : World) :
  keyboardKeys (FullBoard.mouse_button_callback x y GLFW_MOUSE_BUTTON_RIGHT
                                                GLFW_PRESS s)
  = FullBoard.toggle_first x y (keyboardKeys s).
Proof. reflexivity. Qed.

Lemma right_click_eq (x y : double) (s : World) :
  FullBoard.mouse_button_callback x y GLFW_MOUSE_BUTTON_RIGHT GLFW_PRESS s
  = set_keyboardKeys (FullBoard.toggle_first x y (keyboardKeys s)) s.
Proof. reflexivity. Qed.

(** C9.  The secondary pointer action (a right click) at a cursor position
    toggles [keycapRemoved] of the first key under the cursor; done twice
    at the same position it gives back the state it started from, so every
    key has its original [keycapRemoved]; and one such click leaves the
    [isPressed] of every key as it was. *)
Theorem right_click_twice_restores (xpos ypos : double) (s : World) :
  let click :=
    FullBoard.mouse_button_callback xpos ypos GLFW_MOUSE_BUTTON_RIGHT
                                    GLFW_PRESS in
  click (click s) = s
  ∧ map isPressed (keyboardKeys (click s)) = map isPressed (keyboardKeys s)
  ∧ keyboardKeys (click s)
    = match first_hit xpos ypos (keyboardKeys s) with
      | Some (i, k) =>
          <[i := set_keycapRemoved (negb (keycapRemoved k)) k]> (keyboardKeys s)
      | None => keyboardKeys s
      end.
Proof.
  intros click. subst click. split; [|split].
  - rewrite !right_click_eq. destruct s as [ks m down cl].
    unfold set_keyboardKeys. simpl. rewrite toggle_first_twice. reflexivity.
  - rewrite right_click_keys. apply toggle_first_isPressed.
  - rewrite right_click_keys. apply toggle_first_spec.
Qed.


Lemma strictly_inside_under_cursor (xpos ypos : double) (k : Key) :
  strictly_inside xpos ypos k = true → under_cursor xpos ypos k = true.
Proof.
  unfold strictly_inside, under_cursor. rewrite !andb_true_iff.
  intros (((H1 & H2) & H3) & H4). repeat split; apply ltb_leb; assumption.
Qed.

Lemma set_isPressed_same (k : Key) : set_isPressed (isPressed k) k = k.
Proof. destruct k; reflexivity. Qed.

(** The loop of the cursor callback visits every key: it presses each key
    under the cursor and releases each other key. *)
Lemma drag_keys_keys (x y : double) (ks : list Key) :
  ∀ n : nat, fst (FullBoard.drag_keys x y n ks) = map (drag_key x y) ks.
Proof.
  induction ks as [|k rest IH]; intros n; [reflexivity|]. simpl.
  specialize (IH (S n)). destruct (FullBoard.drag_keys x y (S n) rest) as [r sp].
  simpl in IH. subst r.
  change (drag_key x y k) with (set_isPressed (under_cursor x y k) k).
  destruct (under_cursor x y k); [|reflexivity].
  destruct (isPressed k) eqn:Hp; simpl; [|reflexivity].
  f_equal. rewrite <- Hp. symmetry. apply set_isPressed_same.
Qed.

Lemma drag_keys_cons (x y : double) (n : nat) (k : Key) (rest : list Key) :
  FullBoard.drag_keys x y n (k :: rest)
  = let '(rest', spawned) := FullBoard.drag_keys x y (S n) rest in
    if under_cursor x y k then
      if negb (isPressed k)
      then (set_isPressed true k :: rest', n :: spawned)
      else (k :: rest', spawned)
    else (set_isPressed false k :: rest', spawned).
Proof. reflexivity. Qed.

(** The loop from slot [n] on spawns nothing for a slot before [n]. *)
Lemma drag_keys_spawned_low (x y : double) (ks : list Key) :
  ∀ (n i : nat),
    (i < n)%nat →
    count_occ Nat.eq_dec (snd (FullBoard.drag_keys x y n ks)) i = 0%nat.
Proof.
  induction ks as [|k rest IH]; intros n i Hi; [reflexivity|].
  rewrite drag_keys_cons. specialize (IH (S n) i ltac:(lia)).
  destruct (FullBoard.drag_keys x y (S n) rest) as [r sp]. cbn [snd] in IH.
  destruct (under_cursor x y k); [|exact IH].
  destruct (isPressed k); cbn [negb snd]; [exact IH|].
  rewrite count_occ_cons_neq by lia. exact IH.
Qed.

(** It spawns a thread for slot [j] exactly when the key of that slot is
    under the cursor and was not pressed. *)
Lemma drag_keys_spawned (x y : double) (ks : list Key) :
  ∀ (n j : nat),
    count_occ Nat.eq_dec (snd (FullBoard.drag_keys x y n ks)) (n + j)%nat
    = match ks !! j with
      | Some k => if under_cursor x y k && negb (isPressed k) then 1%nat else 0%nat
      | None => 0%nat
      end.
Proof.
  induction ks as [|k rest IH]; intros n j; [reflexivity|].
  rewrite drag_keys_cons.
  pose proof (IH (S n)) as IH'.
  pose proof (drag_keys_spawned_low x y rest (S n)) as Hlow.
  destruct (FullBoard.drag_keys x y (S n) rest) as [r sp].
  cbn [snd] in IH', Hlow.
  destruct j as [|j].
  - replace (n + 0)%nat with n by lia. cbn [lookup list_lookup].
    destruct (under_cursor x y k); cbn [andb snd]; [|apply Hlow; lia].
    destruct (isPressed k); cbn [negb snd]; [apply Hlow; lia|].
    rewrite count_occ_cons_eq by reflexivity.
    rewrite (Hlow n) by lia. reflexivity.
  - replace (n + S j)%nat with (S n + j)%nat by lia.
    change ((k :: rest) !! S j) with (rest !! j).
    rewrite <- (IH' j).
    destruct (under_cursor x y k); cbn [snd]; [|reflexivity].
    destruct (isPressed k); cbn [negb snd]; [reflexivity|].
    rewrite count_occ_cons_neq by lia. reflexivity.
Qed.

Lemma cursor_position_callback_spec (x y : double) (s : World) :
  g_leftMouseDown s = true →
  keyboardKeys (FullBoard.cursor_position_callback x y s)
  = map (drag_key x y) (keyboardKeys s)
  ∧ g_leftMouseDown (FullBoard.cursor_position_callback x y s) = true
  ∧ ∀ j, activations j (FullBoard.cursor_position_callback x y s)
         = (activations j s
            + match keyboardKeys s !! j with
              | Some k =>
                  if under_cursor x y k && negb (isPressed k) then 1 else 0
              | None => 0
              end)%nat.
Proof.
  intros Hdown. unfold FullBoard.cursor_position_callback. rewrite Hdown.
  pose proof (drag_keys_keys x y (keyboardKeys s) 0) as Hk.
  pose proof (drag_keys_spawned x y (keyboardKeys s) 0) as Hs.
  destruct (FullBoard.drag_keys x y 0 (keyboardKeys s)) as [ks sp].
  simpl in Hk, Hs. subst ks. split; [reflexivity|]. split; [exact Hdown|].
  intros j. unfold activations. simpl. rewrite count_occ_app, Hs. reflexivity.
Qed.

Lemma cursor_step_lookup (x y : double) (s : World) (j : nat) (k : Key) :
  g_leftMouseDown s = true → keyboardKeys s !! j = Some k →
  keyboardKeys (FullBoard.cursor_position_callback x y s) !! j
  = Some (drag_key x y k)
  ∧ g_leftMouseDown (FullBoard.cursor_position_callback x y s) = true
  ∧ activations j (FullBoard.cursor_position_callback x y s)
    = (activations j s
       + if under_cursor x y k && negb (isPressed k) then 1 else 0)%nat.
Proof.
  intros Hdown Hj.
  destruct (cursor_position_callback_spec x y s Hdown) as (Hk & Hd & Ha).
  split; [|split; [exact Hd|]].
  - rewrite Hk, list_lookup_fmap, Hj. reflexivity.
  - rewrite Ha, Hj. reflexivity.
Qed.

(** Moves that all miss a key spawn nothing for it and leave it released. *)
Lemma cursor_moves_outside (j : nat) (moves : list (double * double)) :
  ∀ (s : World) (k : Key),
    g_leftMouseDown s = true → keyboardKeys s !! j = Some k →
    Forall (λ c, under_cursor (fst c) (snd c) k = false) moves →
    g_leftMouseDown (FullBoard.cursor_moves moves s) = true
    ∧ activations j (FullBoard.cursor_moves moves s) = activations j s
    ∧ keyboardKeys (FullBoard.cursor_moves moves s) !! j
      = Some (match moves with [] => k | _ => set_isPressed false k end).
Proof.
  induction moves as [|c rest IH]; intros s k Hdown Hj Hall.
  - simpl. auto.
  - inversion Hall as [|? ? Hc Hrest]; subst.
    destruct (cursor_step_lookup (fst c) (snd c) s j k Hdown Hj)
      as (Hj1 & Hd1 & Ha1).
    unfold drag_key in Hj1. rewrite Hc in Hj1, Ha1. simpl in Ha1.
    destruct (IH _ _ Hd1 Hj1 Hrest) as (Hd2 & Ha2 & Hj2).
    change (FullBoard.cursor_moves (c :: rest) s)
      with (FullBoard.cursor_moves rest
              (FullBoard.cursor_position_callback (fst c) (snd c) s)).
    split; [exact Hd2|]. split; [rewrite Ha2, Ha1; lia|].
    rewrite Hj2. destruct rest; reflexivity.
Qed.

(** Moves that all hit a key leave it pressed and spawn one thread for it
    if it was released, none if it was pressed. *)
Lemma cursor_moves_inside (j : nat) (moves : list (double * double)) :
  ∀ (s : World) (k : Key),
    g_leftMouseDown s = true → keyboardKeys s !! j = Some k →
    Forall (λ c, under_cursor (fst c) (snd c) k = true) moves →
    moves ≠ [] →
    g_leftMouseDown (FullBoard.cursor_moves moves s) = true
    ∧ activations j (FullBoard.cursor_moves moves s)
      = (activations j s + if isPressed k then 0 else 1)%nat
    ∧ keyboardKeys (FullBoard.cursor_moves moves s) !! j
      = Some (set_isPressed true k).
Proof.
  induction moves as [|c rest IH]; intros s k Hdown Hj Hall Hne;
    [congruence|].
  inversion Hall as [|? ? Hc Hrest]; subst.
  destruct (cursor_step_lookup (fst c) (snd c) s j k Hdown Hj)
    as (Hj1 & Hd1 & Ha1).
  unfold drag_key in Hj1. rewrite Hc in Hj1, Ha1. simpl in Ha1.
  change (FullBoard.cursor_moves (c :: rest) s)
    with (FullBoard.cursor_moves rest
            (FullBoard.cursor_position_callback (fst c) (snd c) s)).
  destruct rest as [|c' rest'].
  - simpl. split; [exact Hd1|]. split; [|exact Hj1].
    rewrite Ha1. destruct (isPressed k); reflexivity.
  - destruct (IH _ _ Hd1 Hj1 Hrest ltac:(discriminate)) as (Hd2 & Ha2 & Hj2).
    split; [exact Hd2|]. split; [|exact Hj2].
    rewrite Ha2, Ha1. simpl. destruct (isPressed k); simpl; lia.
Qed.

(** Whatever the moves, a key keeps its slot and its rectangle. *)
Lemma cursor_moves_rect (j : nat) (moves : list (double * double)) :
  ∀ (s : World) (k : Key),
    g_leftMouseDown s = true → keyboardKeys s !! j = Some k →
    g_leftMouseDown (FullBoard.cursor_moves moves s) = true
    ∧ ∃ k', keyboardKeys (FullBoard.cursor_moves moves s) !! j = Some k'
            ∧ pos k' = pos k ∧ size k' = size k.
Proof.
  induction moves as [|c rest IH]; intros s k Hdown Hj.
  - simpl. eauto.
  - destruct (cursor_step_lookup (fst c) (snd c) s j k Hdown Hj)
      as (Hj1 & Hd1 & _).
    destruct (IH _ _ Hd1 Hj1) as (Hd2 & k' & Hj2 & Hp & Hs).
    split; [exact Hd2|]. exists k'. split; [exact Hj2|]. split; assumption.
Qed.

Lemma under_cursor_rect (x y : double) (k k' : Key) :
  pos k' = pos k → size k' = size k →
  under_cursor x y k' = under_cursor x y k.
Proof. intros Hp Hs. unfold under_cursor. rewrite Hp, Hs. reflexivity. Qed.

Lemma cursor_moves_app (l1 l2 : list (double * double)) (s : World) :
  FullBoard.cursor_moves (l1 ++ l2) s
  = FullBoard.cursor_moves l2 (FullBoard.cursor_moves l1 s).
Proof. unfold FullBoard.cursor_moves. apply foldl_app. Qed.


Lemma cursor_moves_one (c : double * double) (s : World) :
  FullBoard.cursor_moves [c] s
  = FullBoard.cursor_position_callback (fst c) (snd c) s.
Proof. reflexivity. Qed.
(** * Further properties of the code *)

(** ** The animation over whole frames *)

Section AnimationFrames.

Lemma in_range_zero : in_range f32_zero.
Proof. repeat split; vm_compute; reflexivity. Qed.

Lemma in_range_half : in_range f32_half.
Proof. repeat split; vm_compute; reflexivity. Qed.

(** One call keeps a press value in range; the frame time may be any
    float that is not below zero. *)
Lemma updateKeyAnimation_in_range (key : Key) (deltaTime : float) :
  in_range (pressAnim key) → nonneg deltaTime →
  in_range (pressAnim (updateKeyAnimation key deltaTime)).
Proof.
  intros (Hv & H0 & Hh) Hd.
  pose proof (proj1 (nonneg_iff _) H0) as Hp.
  destruct (step_nonneg deltaTime Hd) as [Hs Hvs].
  destruct (F32.ltb (pressAnim key) (if isPressed key then f32_half else f32_zero))
    eqn:Hlt.
  - pose proof (updateKeyAnimation_up key deltaTime) as Hup. cbv zeta in Hup.
    rewrite (Hup Hlt). clear Hup.
    destruct (add_step _ _ Hv Hp Hvs Hs) as (Hvr & Hnr & _).
    destruct (isPressed key).
    + destruct (F32.ltb f32_half (pressAnim key + animSpeed * deltaTime)%f32)
        eqn:Hover; [apply in_range_half|].
      split; [exact Hvr|]. split; [apply nonneg_iff; exact Hnr|].
      apply ltb_false_leb; [reflexivity|apply nonneg_not_nan; exact Hnr|].
      exact Hover.
    + rewrite (leb_not_gtb _ _ H0) in Hlt. discriminate Hlt.
  - destruct (F32.ltb (if isPressed key then f32_half else f32_zero)
                      (pressAnim key)) eqn:Hgt.
    + pose proof (updateKeyAnimation_down key deltaTime) as Hdown.
      cbv zeta in Hdown. rewrite (Hdown Hgt). clear Hdown.
      destruct (isPressed key).
      * rewrite (leb_not_gtb _ _ Hh) in Hgt. discriminate Hgt.
      * pose proof (down_between (pressAnim key) deltaTime Hv Hh Hd Hgt) as Hb.
        cbv zeta in Hb. destruct Hb as [Hb0 Hbp].
        rewrite f32_zero_eq, f32_half_eq in *.
        destruct (positive_le_half_finite _ Hgt Hh) as (mp & ep & Hpe).
        rewrite Hpe in *.
        destruct (sub_step mp ep (animSpeed * deltaTime)%f32 8388608 (-24)
                    Hv ltac:(reflexivity) Hh Hs) as [Hvr Hr].
        pose proof (clamp_at_zero _ 8388608 (-24) Hvr Hr) as Hc.
        cbv zeta in Hc. destruct Hc as (Hc1 & _ & Hc3).
        split; [exact Hc1|]. split; [exact Hb0|exact Hc3].
    + unfold updateKeyAnimation. cbv zeta. rewrite Hlt, Hgt.
      split; [exact Hv|]. split; [exact H0|exact Hh].
Qed.

Lemma updateAndDraw_keys (deltaTime : float) (ks : list Key) :
  fst (FullBoardLoop.updateAndDraw deltaTime ks)
  = map (λ k, updateKeyAnimation k deltaTime) ks.
Proof.
  induction ks as [|k rest IH]; [reflexivity|].
  cbn [FullBoardLoop.updateAndDraw map].
  destruct (FullBoardLoop.updateAndDraw deltaTime rest) as [rest' drawn'].
  cbn [fst] in *. rewrite IH. reflexivity.
Qed.

Lemma frame_keys (deltaTime : float) (s : World) :
  keyboardKeys (FullBoardLoop.frame deltaTime s)
  = map (λ k, updateKeyAnimation k deltaTime) (keyboardKeys s).
Proof. unfold FullBoardLoop.frame. cbn [keyboardKeys set_keyboardKeys]. apply updateAndDraw_keys. Qed.

End AnimationFrames.

(** ** A frame long enough finishes the animation *)

Section AnimationCompletes.

Lemma leb_not_ltb_eqb (x y : float) :
  F32.leb x y = true → F32.ltb x y = false → F32.eqb x y = true.
Proof.
  unfold F32.leb, F32.ltb, F32.eqb, SFleb, SFltb, SFeqb.
  destruct (SFcompare x y) as [[]|]; intros; try reflexivity; discriminate.
Qed.

Lemma eqb_sym (x y : float) : F32.eqb x y = true → F32.eqb y x = true.
Proof.
  unfold F32.eqb, SFeqb. rewrite (SFcompare_antisym x y).
  destruct (SFcompare x y) as [[]|]; simpl; intros; try reflexivity;
    discriminate.
Qed.

(** Rounding a nonzero value whose exponent is in the range of the
    format does not reach zero. *)
Lemma binary_round_pos_mantissa (s : bool) (m : positive) (e : Z) :
  -149 ≤ e →
  ∃ m1 E, 0 < m1
          ∧ binary_round F32.prec F32.emax s m e = pack s m1 E.
Proof.
  intros He.
  destruct (binary_round_aligned s m e) as (mz & ez & Hez & Hmz & Hfe & ->).
  destruct (binary_round_aux_shape s (Z.pos mz) ez loc_Exact ltac:(lia) Hfe)
    as (m1 & Hr & HE & Hlo & Hhi & ->).
  set (E := fexp F32.prec F32.emax (Zdigits2 (Z.pos mz) + ez)) in *.
  exists m1, E. split; [|reflexivity].
  destruct (Z.eq_dec E (-149)) as [HE'|HE']; [|lia].
  assert (0 < 2 ^ (E - ez)) as Hpow by (apply Z.pow_pos_nonneg; lia).
  assert (2 ^ (E - ez) ≤ Z.pos mz) as Hle.
  { rewrite Hmz.
    assert (2 ^ (E - ez) ≤ 2 ^ (e - ez)) by (apply Z.pow_le_mono_r; lia).
    nia. }
  assert (1 ≤ Z.pos mz / 2 ^ (E - ez)).
  { apply Z.div_le_lower_bound; lia. }
  lia.
Qed.

Lemma pack_negative_below_zero (m1 E : Z) :
  0 < m1 → F32.ltb (pack true m1 E) (S754_zero false) = true.
Proof.
  intros Hm. unfold pack, finite_or_inf.
  destruct (m1 =? 16777216).
  - destruct (E + 1 <=? F32.emax - F32.prec); reflexivity.
  - destruct m1 as [|q|q]; try lia.
    destruct (E <=? F32.emax - F32.prec); reflexivity.
Qed.

Lemma negative_not_above_half (x : float) :
  has_sign true x → F32.leb f32_half x = false.
Proof.
  rewrite f32_half_eq.
  destruct x as [s|s| |s m e]; simpl; try contradiction; intros ->;
    reflexivity.
Qed.

(** A step that reaches the whole travel belongs to a frame time that is
    not below zero. *)
Lemma long_step_nonneg (deltaTime : float) :
  F32.leb f32_half (animSpeed * deltaTime)%f32 = true → nonneg deltaTime.
Proof.
  rewrite animSpeed_eq. unfold F32.mul.
  destruct deltaTime as [s|s| |s m e]; simpl.
  - intros _. exact I.
  - destruct s; [|reflexivity]. rewrite f32_half_eq. discriminate.
  - rewrite f32_half_eq. discriminate.
  - destruct s; [|reflexivity]. simpl. intros H.
    assert (8388608 ≤ Z.pos (13981013 * m)) as Hm by lia.
    pose proof (Zdigits2_ge (Z.pos (13981013 * m)) 23 Hm) as Hd.
    assert (-22 + e ≤ fexp F32.prec F32.emax
                         (Zdigits2 (Z.pos (13981013 * m)) + (-22 + e))) as Ha.
    { unfold fexp, F32.prec. lia. }
    destruct (binary_round_aux_shape true (Z.pos (13981013 * m)) (-22 + e)
                loc_Exact ltac:(lia) Ha) as (m1 & _ & _ & _ & _ & Hpk).
    rewrite Hpk in H.
    rewrite (negative_not_above_half _ (pack_sign true m1 _)) in H.
    discriminate H.
Qed.

(** Adding a step of at least the whole travel to a press value in range
    reaches the cap. *)
Lemma add_long_step (p step : float) :
  F32.valid p = true → nonneg p → F32.leb p f32_half = true →
  F32.valid step = true → F32.leb f32_half step = true →
  F32.leb f32_half (p + step)%f32 = true.
Proof.
  rewrite f32_half_eq. intros Hvp Hp Hph Hvs Hs.
  destruct p as [sp|sp| |sp mp ep]; simpl in Hp; try contradiction.
  - (* zero plus the step is the step *)
    destruct step as [ss|ss| |ss ms es]; try destruct ss; try discriminate;
      exact Hs.
  - subst. discriminate.
  - subst.
    destruct step as [ss|ss| |ss ms es]; try destruct ss; try discriminate.
    + reflexivity.
    + destruct (add_finite mp ms ep es) as (m & Hm & ->).
      apply andb_prop in Hvp, Hvs.
      destruct Hvp as [Hcp _], Hvs as [Hcs _].
      assert (canonical_mantissa F32.prec F32.emax 8388608 (-24) = true)
        as Hch by reflexivity.
      destruct (leb_le_at mp 8388608 ep (-24) Hcp Hch Hph) as [He1 Hm1].
      destruct (leb_le_at 8388608 ms (-24) es Hch Hcs Hs) as [He2 Hm2].
      apply binary_round_ge; [exact Hch|lia|].
      replace (Z.min ep es) with ep in * by lia.
      rewrite Z.sub_diag in Hm. change (2 ^ 0) with 1 in Hm.
      replace (es - ep) with ((es - -24) + (-24 - ep)) in Hm by lia.
      rewrite Z.pow_add_r in Hm by lia.
      assert (0 < 2 ^ (-24 - ep)) by (apply Z.pow_pos_nonneg; lia).
      nia.
Qed.

(** Taking a step of at least the whole travel from a positive press value
    in range gives zero or less, and zero comes out as [+0]. *)
Lemma sub_long_step (mp : positive) (ep : Z) (step : float) :
  F32.valid (S754_finite false mp ep) = true →
  F32.leb (S754_finite false mp ep) f32_half = true →
  F32.valid step = true → F32.leb f32_half step = true →
  let r := (S754_finite false mp ep - step)%f32 in
  (if F32.ltb r f32_zero then f32_zero else r) = f32_zero.
Proof.
  rewrite f32_half_eq, f32_zero_eq. intros Hvp Hph Hvs Hs r. subst r.
  destruct step as [ss|ss| |ss ms es]; try destruct ss; try discriminate.
  - reflexivity.
  - rewrite sub_finite.
    apply andb_prop in Hvp, Hvs.
    destruct Hvp as [Hcp _], Hvs as [Hcs _].
    assert (canonical_mantissa F32.prec F32.emax 8388608 (-24) = true)
      as Hch by reflexivity.
    destruct (leb_le_at mp 8388608 ep (-24) Hcp Hch Hph) as [He1 Hm1].
    destruct (leb_le_at 8388608 ms (-24) es Hch Hcs Hs) as [He2 Hm2].
    replace (Z.min ep es) with ep in * by lia.
    rewrite Z.sub_diag. change (2 ^ 0) with 1.
    assert (0 < 2 ^ (-24 - ep)) by (apply Z.pow_pos_nonneg; lia).
    assert (Z.pos mp * 1 - Z.pos ms * 2 ^ (es - ep) ≤ 0) as Hd.
    { replace (es - ep) with ((es - -24) + (-24 - ep)) by lia.
      rewrite Z.pow_add_r by lia. nia. }
    destruct (Z.pos mp * 1 - Z.pos ms * 2 ^ (es - ep)) as [|d|d]; [| lia |].
    + reflexivity.
    + cbn [binary_normalize].
      apply canonical_mantissa_iff in Hcp.
      destruct (binary_round_pos_mantissa true d ep ltac:(lia))
        as (m1 & E & Hm1pos & ->).
      rewrite (pack_negative_below_zero m1 E Hm1pos). reflexivity.
Qed.

End AnimationCompletes.

(** X1.  A frame whose step [animSpeed * deltaTime] covers the whole
    travel [0.5] finishes the animation in one call: after it the press
    value of a key in range equals its target (the cap when the key is
    held, zero when it is not), and further calls, with any frame time,
    leave the key as it is. *)
Theorem updateKeyAnimation_completes (key : Key) (deltaTime : float) :
  in_range (pressAnim key) →
  F32.leb f32_half (animSpeed * deltaTime)%f32 = true →
  let key' := updateKeyAnimation key deltaTime in
  F32.eqb (pressAnim key') (target_of key) = true
  ∧ ∀ deltaTime', updateKeyAnimation key' deltaTime' = key'.
Proof.
  intros (Hv & H0 & Hh) Hstep key'.
  pose proof (long_step_nonneg _ Hstep) as Hd.
  destruct (step_nonneg deltaTime Hd) as [Hs Hvs].
  pose proof (proj1 (nonneg_iff _) H0) as Hp.
  assert (F32.eqb (pressAnim key') (target_of key) = true) as Heq.
  { subst key'. unfold target_of.
    destruct (F32.ltb (pressAnim key)
                (if isPressed key then f32_half else f32_zero)) eqn:Hlt.
    - pose proof (updateKeyAnimation_up key deltaTime) as Hup.
      cbv zeta in Hup. rewrite (Hup Hlt). clear Hup.
      destruct (isPressed key).
      + pose proof (add_long_step _ _ Hv Hp Hh Hvs Hstep) as Hge.
        destruct (F32.ltb f32_half (pressAnim key + animSpeed * deltaTime)%f32)
          eqn:Hover.
        * apply eqb_refl. reflexivity.
        * apply eqb_sym, leb_not_ltb_eqb; [exact Hge|exact Hover].
      + rewrite (leb_not_gtb _ _ H0) in Hlt. discriminate Hlt.
    - destruct (F32.ltb (if isPressed key then f32_half else f32_zero)
                        (pressAnim key)) eqn:Hgt.
      + pose proof (updateKeyAnimation_down key deltaTime) as Hdown.
        cbv zeta in Hdown. rewrite (Hdown Hgt). clear Hdown.
        destruct (isPressed key).
        * rewrite (leb_not_gtb _ _ Hh) in Hgt. discriminate Hgt.
        * assert (∃ mp ep, pressAnim key = S754_finite false mp ep)
            as (mp & ep & Hpe).
          { apply positive_le_half_finite;
              rewrite <- ?f32_zero_eq, <- ?f32_half_eq; assumption. }
          rewrite Hpe in *.
          pose proof (sub_long_step mp ep _ Hv Hh Hvs Hstep) as Hz.
          cbv zeta in Hz. rewrite Hz. apply eqb_refl. reflexivity.
      + unfold updateKeyAnimation. cbv zeta. rewrite Hlt, Hgt.
        destruct (isPressed key).
        * apply leb_not_ltb_eqb; [exact Hh|exact Hlt].
        * apply eqb_sym, leb_not_ltb_eqb; [exact H0|exact Hgt]. }
  split; [exact Heq|].
  intros deltaTime'. apply updateKeyAnimation_at_target.
  subst key'. rewrite updateKeyAnimation_frame in Heq |- *.
  exact Heq.
Qed.

Lemma updateKeyAnimation_completes_witness :
  let key := sample_key (F32.lit 2 10) true in
  let key' := updateKeyAnimation key (F32.of_double PRESS_FEEDBACK_DURATION) in
  F32.eqb (pressAnim key') (target_of key) = true
  ∧ ∀ deltaTime', updateKeyAnimation key' deltaTime' = key'.
Proof.
  apply (updateKeyAnimation_completes (sample_key (F32.lit 2 10) true)
           (F32.of_double PRESS_FEEDBACK_DURATION));
    [repeat split|]; vm_compute; reflexivity.
Defined.

(** ** What the callbacks and the frame leave alone *)

Section Untouched.

Context {B : Type} (g : Key → B).

(** An observation of a key that does not read the two flags the
    callbacks write. *)
Hypothesis g_isPressed : ∀ b k, g (set_isPressed b k) = g k.
Hypothesis g_keycapRemoved : ∀ b k, g (set_keycapRemoved b k) = g k.

Lemma alter_isPressed_untouched (b : bool) (i : nat) (ks : list Key) :
  g <$> alter (set_isPressed b) i ks = g <$> ks.
Proof.
  revert i. induction ks as [|k rest IH]; intros [|i]; try reflexivity.
  - cbn. rewrite g_isPressed. reflexivity.
  - cbn. f_equal. apply IH.
Qed.

Lemma press_first_untouched (x y : double) (ks : list Key) :
  ∀ n, g <$> fst (FullBoard.press_first x y n ks) = g <$> ks.
Proof.
  induction ks as [|k rest IH]; intros n; [reflexivity|].
  cbn [FullBoard.press_first]. destruct (under_cursor x y k).
  - cbn [fst fmap list_fmap]. rewrite g_isPressed. reflexivity.
  - specialize (IH (S n)).
    destruct (FullBoard.press_first x y (S n) rest) as [rest' sp].
    cbn [fst fmap list_fmap] in *. rewrite IH. reflexivity.
Qed.

Lemma toggle_first_untouched (x y : double) (ks : list Key) :
  g <$> FullBoard.toggle_first x y ks = g <$> ks.
Proof.
  induction ks as [|k rest IH]; [reflexivity|].
  cbn [FullBoard.toggle_first]. destruct (under_cursor x y k);
    cbn [fmap list_fmap]; rewrite ?g_keycapRemoved, ?IH; reflexivity.
Qed.

Lemma drag_keys_untouched (x y : double) (ks : list Key) (n : nat) :
  g <$> fst (FullBoard.drag_keys x y n ks) = g <$> ks.
Proof.
  rewrite drag_keys_keys. induction ks as [|k rest IH]; [reflexivity|].
  cbn [map fmap list_fmap] in *. unfold drag_key at 1.
  rewrite g_isPressed, IH. reflexivity.
Qed.

Lemma release_all_untouched (ks : list Key) :
  g <$> map (set_isPressed false) ks = g <$> ks.
Proof.
  induction ks as [|k rest IH]; [reflexivity|].
  cbn [map fmap list_fmap] in *. rewrite g_isPressed, IH. reflexivity.
Qed.

Lemma keyCallback_untouched (key action : Z) (s s' : World) :
  FullBoard.keyCallback key action s = Some s' →
  g <$> keyboardKeys s' = g <$> keyboardKeys s
  ∧ glfwKeyToIndex s' = glfwKeyToIndex s
  ∧ g_leftMouseDown s' = g_leftMouseDown s.
Proof.
  unfold FullBoard.keyCallback, assign_isPressed.
  destruct (glfwKeyToIndex s !! key) as [index|]; [|intros [= <-]; auto].
  destruct (action =? GLFW_PRESS).
  - destruct (to_size_t index <? Z.of_nat (length (keyboardKeys s)));
      [|discriminate].
    cbn [mbind option_bind]. intros [= <-].
    cbn [keyboardKeys glfwKeyToIndex g_leftMouseDown spawn_click
         set_keyboardKeys].
    rewrite alter_isPressed_untouched. auto.
  - destruct (action =? GLFW_RELEASE); [|intros [= <-]; auto].
    destruct (to_size_t index <? Z.of_nat (length (keyboardKeys s)));
      [|discriminate].
    intros [= <-].
    cbn [keyboardKeys glfwKeyToIndex g_leftMouseDown set_keyboardKeys].
    rewrite alter_isPressed_untouched. auto.
Qed.

Lemma mouse_button_callback_untouched (x y : double) (button action : Z)
    (s : World) :
  let s' := FullBoard.mouse_button_callback x y button action s in
  g <$> keyboardKeys s' = g <$> keyboardKeys s
  ∧ glfwKeyToIndex s' = glfwKeyToIndex s.
Proof.
  unfold FullBoard.mouse_button_callback.
  destruct (button =? GLFW_MOUSE_BUTTON_LEFT).
  - destruct (action =? GLFW_PRESS).
    + cbn [keyboardKeys set_g_leftMouseDown].
      pose proof (press_first_untouched x y (keyboardKeys s) 0) as H.
      destruct (FullBoard.press_first x y 0 (keyboardKeys s)) as [ks sp].
      cbn [fst] in H. split; [exact H|reflexivity].
    + destruct (action =? GLFW_RELEASE); [|split; reflexivity].
      cbn [keyboardKeys set_g_leftMouseDown set_keyboardKeys glfwKeyToIndex].
      rewrite release_all_untouched. split; reflexivity.
  - destruct (button =? GLFW_MOUSE_BUTTON_RIGHT); [|split; reflexivity].
    destruct (action =? GLFW_PRESS); [|split; reflexivity].
    cbn [keyboardKeys set_keyboardKeys glfwKeyToIndex].
    rewrite toggle_first_untouched. split; reflexivity.
Qed.

Lemma cursor_position_callback_untouched (x y : double) (s : World) :
  let s' := FullBoard.cursor_position_callback x y s in
  g <$> keyboardKeys s' = g <$> keyboardKeys s
  ∧ glfwKeyToIndex s' = glfwKeyToIndex s.
Proof.
  unfold FullBoard.cursor_position_callback.
  destruct (g_leftMouseDown s); [|split; reflexivity].
  pose proof (drag_keys_untouched x y (keyboardKeys s) 0) as H.
  destruct (FullBoard.drag_keys x y 0 (keyboardKeys s)) as [ks sp].
  cbn [fst] in H. split; [exact H|reflexivity].
Qed.

End Untouched.

Section FrameUntouched.

Context {B : Type} (g : Key → B).

(** An observation of a key that does not read its press value. *)
Hypothesis g_pressAnim : ∀ v k, g (set_pressAnim v k) = g k.

Lemma frame_untouched (deltaTime : float) (s : World) :
  g <$> keyboardKeys (FullBoardLoop.frame deltaTime s) = g <$> keyboardKeys s.
Proof.
  rewrite frame_keys. induction (keyboardKeys s) as [|k rest IH];
    [reflexivity|].
  cbn [map fmap list_fmap] in *.
  rewrite updateKeyAnimation_frame, g_pressAnim, IH. reflexivity.
Qed.

End FrameUntouched.

Section Runs.

Lemma fixed_part_isPressed (b : bool) (k : Key) :
  fixed_part (set_isPressed b k) = fixed_part k.
Proof. reflexivity. Qed.

Lemma fixed_part_keycapRemoved (b : bool) (k : Key) :
  fixed_part (set_keycapRemoved b k) = fixed_part k.
Proof. reflexivity. Qed.

Lemma fixed_part_pressAnim (v : float) (k : Key) :
  fixed_part (set_pressAnim v k) = fixed_part k.
Proof. reflexivity. Qed.

(** An event that is handled leaves the lookup and the fixed part of
    every key as they were. *)
Lemma handle_fixed (e : Event) (s s' : World) :
  FullBoardLoop.handle e s = Some s' →
  glfwKeyToIndex s' = glfwKeyToIndex s
  ∧ fixed_part <$> keyboardKeys s' = fixed_part <$> keyboardKeys s.
Proof.
  destruct e as [key action|x y button action|x y|dt];
    cbn [FullBoardLoop.handle].
  - intros H.
    destruct (keyCallback_untouched fixed_part fixed_part_isPressed
                key action s s' H) as (H1 & H2 & _).
    split; assumption.
  - intros [= <-].
    destruct (mouse_button_callback_untouched fixed_part fixed_part_isPressed
                fixed_part_keycapRemoved x y button action s) as (H1 & H2).
    split; assumption.
  - intros [= <-].
    destruct (cursor_position_callback_untouched fixed_part
                fixed_part_isPressed x y s) as (H1 & H2).
    split; assumption.
  - intros [= <-]. split; [reflexivity|].
    apply (frame_untouched fixed_part fixed_part_pressAnim).
Qed.

Lemma lookup_in_bounds_same (s s' : World) :
  glfwKeyToIndex s' = glfwKeyToIndex s →
  fixed_part <$> keyboardKeys s' = fixed_part <$> keyboardKeys s →
  lookup_in_bounds s → lookup_in_bounds s'.
Proof.
  intros Hm Hk Hb k i. rewrite Hm. intros H. specialize (Hb k i H).
  apply (f_equal length) in Hk. rewrite !length_fmap in Hk. lia.
Qed.

(** With every mapped slot within the keys, every event is handled. *)
Lemma handle_defined (e : Event) (s : World) :
  lookup_in_bounds s → is_Some (FullBoardLoop.handle e s).
Proof.
  intros Hb. destruct e as [key action|x y button action|x y|dt];
    cbn [FullBoardLoop.handle]; try (eexists; reflexivity).
  unfold FullBoard.keyCallback, assign_isPressed.
  destruct (glfwKeyToIndex s !! key) as [index|] eqn:Hl;
    [|eexists; reflexivity].
  specialize (Hb key index Hl).
  assert ((to_size_t index <? Z.of_nat (length (keyboardKeys s))) = true)
    as ->.
  { apply Z.ltb_lt. unfold to_size_t.
    assert (0 < 2 ^ 64) by (apply Z.pow_pos_nonneg; lia).
    pose proof (Z.mod_le index (2 ^ 64) ltac:(lia) ltac:(lia)). lia. }
  destruct (action =? GLFW_PRESS); [eexists; reflexivity|].
  destruct (action =? GLFW_RELEASE); eexists; reflexivity.
Qed.

Lemma run_defined (es : list Event) :
  ∀ s, lookup_in_bounds s →
       ∃ s', FullBoardLoop.run es s = Some s'
             ∧ glfwKeyToIndex s' = glfwKeyToIndex s
             ∧ fixed_part <$> keyboardKeys s' = fixed_part <$> keyboardKeys s.
Proof.
  induction es as [|e es IH]; intros s Hb.
  - exists s. repeat split; reflexivity.
  - destruct (handle_defined e s Hb) as [s1 H1].
    destruct (handle_fixed e s s1 H1) as [Hm Hk].
    destruct (IH s1 (lookup_in_bounds_same s s1 Hm Hk Hb))
      as (s' & Hr & Hm' & Hk').
    exists s'. cbn [FullBoardLoop.run]. rewrite H1. cbn [mbind option_bind].
    split; [exact Hr|]. split; congruence.
Qed.

Lemma run_fixed (es : list Event) :
  ∀ s s', FullBoardLoop.run es s = Some s' →
          glfwKeyToIndex s' = glfwKeyToIndex s
          ∧ fixed_part <$> keyboardKeys s' = fixed_part <$> keyboardKeys s.
Proof.
  induction es as [|e es IH]; intros s s'.
  - intros [= <-]. split; reflexivity.
  - cbn [FullBoardLoop.run].
    destruct (FullBoardLoop.handle e s) as [s1|] eqn:H1; [|discriminate].
    cbn [mbind option_bind]. intros Hr.
    destruct (handle_fixed e s s1 H1) as [Hm Hk].
    destruct (IH s1 s' Hr) as [Hm' Hk']. split; congruence.
Qed.

End Runs.

(** X2.  From the layout that [initKeyboardLayout] builds, wherever the
    block is placed, every run of key events, mouse button events, cursor
    events and frames is handled: [keyCallback] never indexes the keys out
    of bounds. *)
Theorem run_never_out_of_bounds (es : list Event)
    (g_mainStartX g_mainStartY : float) (s0 : World) :
  is_Some (FullBoardLoop.run es
             (FullBoard.initKeyboardLayout g_mainStartX g_mainStartY s0)).
Proof.
  destruct (initKeyboardLayout_inv g_mainStartX g_mainStartY s0)
    as (_ & Hb & _).
  destruct (run_defined es _ Hb) as (s' & Hr & _). exists s'. exact Hr.
Qed.

(** X3.  No callback and no frame moves, resizes, relabels, retypes, adds
    or removes a key, and none writes the identifier lookup: after any run
    of events the lookup and the label, position, size and type of every
    slot are those before the run. *)
Theorem run_keeps_layout (es : list Event) (s s' : World) :
  FullBoardLoop.run es s = Some s' →
  glfwKeyToIndex s' = glfwKeyToIndex s
  ∧ fixed_part <$> keyboardKeys s' = fixed_part <$> keyboardKeys s
  ∧ length (keyboardKeys s') = length (keyboardKeys s).
Proof.
  intros Hr. destruct (run_fixed es s s' Hr) as [Hm Hk].
  split; [exact Hm|]. split; [exact Hk|].
  apply (f_equal length) in Hk. rewrite !length_fmap in Hk. exact Hk.
Qed.

Lemma run_keeps_layout_witness :
  let es := [ MouseButtonEvent (F64.of_Z 5) (F64.of_Z 5)
                               GLFW_MOUSE_BUTTON_RIGHT GLFW_PRESS;
              FrameEvent (F32.lit 16 1000) ] in
  let s' := FullBoardLoop.frame (F32.lit 16 1000)
              (FullBoard.mouse_button_callback (F64.of_Z 5) (F64.of_Z 5)
                 GLFW_MOUSE_BUTTON_RIGHT GLFW_PRESS drag_world) in
  glfwKeyToIndex s' = glfwKeyToIndex drag_world
  ∧ fixed_part <$> keyboardKeys s' = fixed_part <$> keyboardKeys drag_world
  ∧ length (keyboardKeys s') = length (keyboardKeys drag_world).
Proof.
  apply (run_keeps_layout
           [ MouseButtonEvent (F64.of_Z 5) (F64.of_Z 5)
                              GLFW_MOUSE_BUTTON_RIGHT GLFW_PRESS;
             FrameEvent (F32.lit 16 1000) ] drag_world).
  reflexivity.
Defined.

(** ** What holds of every key that the layout adds *)

Section LayoutInduction.

Variable P : World → Prop.

Hypothesis P_addKey :
  ∀ label x y w h kt glfwKey s,
    P s → P (FullBoard.addKey label x y w h kt glfwKey s).

Lemma addRow_ind (row : list (string * Z)) (kt : KeyType) :
  ∀ (currentX currentY : float) (s : World),
    P s → P (snd (FullBoard.addRow row kt currentX currentY s)).
Proof.
  induction row as [|[lbl code] rest IH]; intros cx cy s H; [exact H|].
  cbn [FullBoard.addRow]. apply IH, P_addKey, H.
Qed.

Ltac layout_ind_step :=
  match goal with
  | H : P ?s |- context [FullBoard.addKey ?l ?x ?y ?w ?h ?kt ?c ?s] =>
      let s' := fresh "s" in
      let H' := fresh "HP" in
      pose proof (P_addKey l x y w h kt c s H) as H';
      set (s' := FullBoard.addKey l x y w h kt c s) in *;
      clearbody s'; clear H
  | H : P ?s |- context [FullBoard.addRow ?row ?kt ?x ?y ?s] =>
      let s' := fresh "s" in
      let H' := fresh "HP" in
      pose proof (addRow_ind row kt x y s H) as H';
      destruct (FullBoard.addRow row kt x y s) as [? s'];
      cbn [snd] in H'; clear H
  end.

Lemma initKeyboardLayout_ind (g_mainStartX g_mainStartY : float) (s : World) :
  P (set_glfwKeyToIndex ∅ (set_keyboardKeys [] s)) →
  P (FullBoard.initKeyboardLayout g_mainStartX g_mainStartY s).
Proof.
  intros HP. unfold FullBoard.initKeyboardLayout. cbv zeta.
  set (s0 := set_glfwKeyToIndex ∅ (set_keyboardKeys [] s)) in *.
  clearbody s0.
  repeat layout_ind_step. assumption.
Qed.

End LayoutInduction.

Lemma addKey_keys (label : string) (x y w h : float) (kt : KeyType)
    (glfwKey : Z) (s : World) :
  keyboardKeys (FullBoard.addKey label x y w h kt glfwKey s)
  = keyboardKeys s
    ++ [mkKey label (Vec2 x y) (Vec2 w h) f32_zero false false kt].
Proof.
  unfold FullBoard.addKey. destruct (negb (glfwKey =? -1)); reflexivity.
Qed.

Lemma initKeyboardLayout_fresh (g_mainStartX g_mainStartY : float) (s : World) :
  Forall fresh_key
    (keyboardKeys (FullBoard.initKeyboardLayout g_mainStartX g_mainStartY s)).
Proof.
  apply (initKeyboardLayout_ind (λ s, Forall fresh_key (keyboardKeys s))).
  - intros l x y w h kt c s1 H. rewrite addKey_keys.
    apply Forall_app. split; [exact H|].
    apply Forall_singleton. repeat split.
  - apply Forall_nil_2.
Qed.

(** ** The press values over runs *)

Section RunRange.

Lemma pressAnim_isPressed (b : bool) (k : Key) :
  pressAnim (set_isPressed b k) = pressAnim k.
Proof. reflexivity. Qed.

Lemma pressAnim_keycapRemoved (b : bool) (k : Key) :
  pressAnim (set_keycapRemoved b k) = pressAnim k.
Proof. reflexivity. Qed.

Lemma frame_in_range (deltaTime : float) (s : World) :
  nonneg deltaTime → keys_in_range s →
  keys_in_range (FullBoardLoop.frame deltaTime s).
Proof.
  unfold keys_in_range. rewrite frame_keys. intros Hd.
  induction (keyboardKeys s) as [|k rest IH]; [intros _; apply Forall_nil_2|].
  cbn [map fmap list_fmap]. intros H.
  apply Forall_cons in H. destruct H as [Hk Hrest].
  apply Forall_cons. split; [|apply IH, Hrest].
  apply updateKeyAnimation_in_range; assumption.
Qed.

Lemma handle_in_range (e : Event) (s s' : World) :
  FullBoardLoop.handle e s = Some s' →
  forallb (F32.leb f32_zero) (frame_times [e]) = true →
  keys_in_range s → keys_in_range s'.
Proof.
  unfold keys_in_range.
  destruct e as [key action|x y button action|x y|dt];
    cbn [FullBoardLoop.handle].
  - intros H _.
    destruct (keyCallback_untouched pressAnim pressAnim_isPressed
                key action s s' H) as (-> & _). auto.
  - intros [= <-] _.
    destruct (mouse_button_callback_untouched pressAnim pressAnim_isPressed
                pressAnim_keycapRemoved x y button action s) as (-> & _).
    auto.
  - intros [= <-] _.
    destruct (cursor_position_callback_untouched pressAnim
                pressAnim_isPressed x y s) as (-> & _).
    auto.
  - intros [= <-] Hd. cbn in Hd. rewrite andb_true_r in Hd.
    apply frame_in_range, nonneg_iff, Hd.
Qed.

Lemma run_in_range (es : list Event) :
  ∀ s s', FullBoardLoop.run es s = Some s' →
          forallb (F32.leb f32_zero) (frame_times es) = true →
          keys_in_range s → keys_in_range s'.
Proof.
  induction es as [|e es IH]; intros s s'.
  - intros [= <-] _ H. exact H.
  - cbn [FullBoardLoop.run].
    destruct (FullBoardLoop.handle e s) as [s1|] eqn:H1; [|discriminate].
    cbn [mbind option_bind]. intros Hr Hd Hin.
    change (e :: es) with ([e] ++ es) in Hd.
    unfold frame_times in Hd. rewrite omap_app, forallb_app in Hd.
    apply andb_prop in Hd. destruct Hd as [Hd1 Hd2].
    apply (IH s1 s' Hr Hd2).
    apply (handle_in_range e s s1 H1 Hd1 Hin).
Qed.

End RunRange.

(** X4.  Along every run of events from the layout that
    [initKeyboardLayout] builds, with frames whose [deltaTime] is not
    below zero, the run is handled and the press value of every key
    stays a well-formed float between [0.0f] and [0.5f]. *)
Theorem run_keeps_range (es : list Event)
    (g_mainStartX g_mainStartY : float) (s0 : World) :
  forallb (F32.leb f32_zero) (frame_times es) = true →
  ∃ s', FullBoardLoop.run es
          (FullBoard.initKeyboardLayout g_mainStartX g_mainStartY s0) = Some s'
        ∧ Forall (λ k, in_range (pressAnim k)) (keyboardKeys s').
Proof.
  intros Hd.
  destruct (initKeyboardLayout_inv g_mainStartX g_mainStartY s0)
    as (_ & Hb & _).
  destruct (run_defined es _ Hb) as (s' & Hr & _).
  exists s'. split; [exact Hr|].
  change (Forall (in_range ∘ pressAnim) (keyboardKeys s')).
  apply Forall_fmap. apply (run_in_range es _ s' Hr Hd).
  unfold keys_in_range. apply Forall_fmap.
  eapply Forall_impl; [apply initKeyboardLayout_fresh|].
  intros k (Hk & _). cbn. rewrite Hk. apply in_range_zero.
Qed.

Lemma run_keeps_range_witness :
  ∃ s', FullBoardLoop.run
          [ KeyEvent GLFW_KEY_A GLFW_PRESS; FrameEvent (F32.lit 16 1000);
            FrameEvent (F32.lit 16 1000); KeyEvent GLFW_KEY_A GLFW_RELEASE;
            FrameEvent (F32.lit 2 1) ]
          (FullBoard.initKeyboardLayout (F32.of_Z 50) (F32.of_Z 50) start_world)
        = Some s'
        ∧ Forall (λ k, in_range (pressAnim k)) (keyboardKeys s').
Proof.
  apply (run_keeps_range
           [ KeyEvent GLFW_KEY_A GLFW_PRESS; FrameEvent (F32.lit 16 1000);
             FrameEvent (F32.lit 16 1000); KeyEvent GLFW_KEY_A GLFW_RELEASE;
             FrameEvent (F32.lit 2 1) ]
           (F32.of_Z 50) (F32.of_Z 50) start_world).
  vm_compute. reflexivity.
Defined.

(** ** A board at rest *)

Lemma set_keyboardKeys_same (s : World) : set_keyboardKeys (keyboardKeys s) s = s.
Proof. destruct s; reflexivity. Qed.

Lemma update_all_at_rest (deltaTime : float) (ks : list Key) :
  forallb (λ k, F32.eqb (pressAnim k) (target_of k)) ks = true →
  map (λ k, updateKeyAnimation k deltaTime) ks = ks.
Proof.
  induction ks as [|k rest IH]; [reflexivity|].
  cbn [forallb]. intros H. apply andb_prop in H. destruct H as [Hk Hrest].
  cbn [map]. rewrite (IH Hrest).
  rewrite (updateKeyAnimation_at_target k deltaTime Hk). reflexivity.
Qed.

(** X5.  A frame changes nothing on a board whose keys are all at their
    targets (at [0.0f] when not held, at [0.5f] when held), whatever its
    [deltaTime] is, a negative or a NaN one included. *)
Theorem frame_at_rest (deltaTime : float) (s : World) :
  forallb (λ k, F32.eqb (pressAnim k) (target_of k)) (keyboardKeys s) = true →
  FullBoardLoop.frame deltaTime s = s.
Proof.
  intros H. unfold FullBoardLoop.frame.
  rewrite updateAndDraw_keys, (update_all_at_rest deltaTime _ H).
  apply set_keyboardKeys_same.
Qed.

Lemma frame_at_rest_witness :
  FullBoardLoop.frame S754_nan overlap_world = overlap_world.
Proof.
  apply (frame_at_rest S754_nan overlap_world). vm_compute. reflexivity.
Defined.

(** ** Key events *)

Section KeyEvents.

Lemma to_size_t_small (z : Z) : 0 ≤ z < 2 ^ 31 → to_size_t z = z.
Proof.
  intros H. unfold to_size_t. apply Z.mod_small.
  assert (2 ^ 31 < 2 ^ 64) by (apply Z.pow_lt_mono_r; lia). lia.
Qed.

Lemma alter_as_insert (f : Key → Key) (ks : list Key) :
  ∀ (i : nat) (k : Key),
    ks !! i = Some k → alter f i ks = <[i := f k]> ks.
Proof.
  induction ks as [|k0 rest IH]; intros [|i] k Hk; try discriminate Hk.
  - injection Hk as ->. reflexivity.
  - cbn. f_equal. apply IH. exact Hk.
Qed.

Lemma assign_isPressed_slot (index : Z) (b : bool) (s : World) (k : Key) :
  0 ≤ index < 2 ^ 31 →
  keyboardKeys s !! Z.to_nat index = Some k →
  assign_isPressed index b s
  = Some (set_keyboardKeys
            (<[Z.to_nat index := set_isPressed b k]> (keyboardKeys s)) s).
Proof.
  intros Hi Hk. unfold assign_isPressed.
  rewrite (to_size_t_small index Hi).
  pose proof (lookup_lt_Some _ _ _ Hk) as Hlt.
  replace (index <? Z.of_nat (length (keyboardKeys s))) with true
    by (symmetry; apply Z.ltb_lt; lia).
  rewrite (alter_as_insert _ _ _ _ Hk). reflexivity.
Qed.

End KeyEvents.

(** X6.  A press event for a mapped identifier sets [isPressed] of its
    slot, leaves every other slot as it is and spawns exactly one sound
    thread, whether or not the key was already held; the release event
    clears the flag and spawns none.  For a key that was not held, press
    then release gives back the state before, with the one thread
    added. *)
Theorem key_press_then_release (s : World) (key index : Z) (k : Key) :
  glfwKeyToIndex s !! key = Some index →
  0 ≤ index < 2 ^ 31 →
  keyboardKeys s !! Z.to_nat index = Some k →
  let i := Z.to_nat index in
  ∃ s1 s2,
    FullBoard.keyCallback key GLFW_PRESS s = Some s1
    ∧ FullBoard.keyCallback key GLFW_RELEASE s1 = Some s2
    ∧ keyboardKeys s1 = <[i := set_isPressed true k]> (keyboardKeys s)
    ∧ clicks s1 = clicks s ++ [i]
    ∧ keyboardKeys s2 = <[i := set_isPressed false k]> (keyboardKeys s)
    ∧ clicks s2 = clicks s1
    ∧ (isPressed k = false → s2 = spawn_click i s).
Proof.
  intros Hl Hi Hk i. subst i.
  set (i := Z.to_nat index) in *.
  set (s1 := spawn_click i
               (set_keyboardKeys
                  (<[i := set_isPressed true k]> (keyboardKeys s)) s)).
  set (s2 := set_keyboardKeys
               (<[i := set_isPressed false k]> (keyboardKeys s)) s1).
  assert (keyboardKeys s1 !! i = Some (set_isPressed true k)) as Hk1.
  { subst s1. cbn [keyboardKeys spawn_click set_keyboardKeys].
    apply list_lookup_insert_eq. apply (lookup_lt_Some _ _ _ Hk). }
  exists s1, s2. split; [|split].
  - unfold FullBoard.keyCallback. rewrite Hl.
    change (GLFW_PRESS =? GLFW_PRESS) with true. cbv iota.
    rewrite (assign_isPressed_slot index true s k Hi Hk).
    cbn [mbind option_bind]. rewrite (to_size_t_small index Hi). reflexivity.
  - unfold FullBoard.keyCallback.
    change (glfwKeyToIndex s1) with (glfwKeyToIndex s). rewrite Hl.
    change (GLFW_RELEASE =? GLFW_PRESS) with false.
    change (GLFW_RELEASE =? GLFW_RELEASE) with true. cbv iota.
    rewrite (assign_isPressed_slot index false s1 _ Hi Hk1).
    f_equal. subst s2. f_equal.
    subst s1. cbn [keyboardKeys spawn_click set_keyboardKeys].
    rewrite list_insert_insert_eq. reflexivity.
  - repeat split.
    intros Hp. subst s2 s1.
    replace (set_isPressed false k) with k
      by (rewrite <- Hp; symmetry; apply set_isPressed_same).
    rewrite (list_insert_id _ _ _ Hk).
    destruct s; reflexivity.
Qed.

Lemma key_press_then_release_witness :
  let s := Compact.initKeyboard start_world in
  ∃ k s1 s2,
    keyboardKeys s !! 32%nat = Some k
    ∧ FullBoard.keyCallback GLFW_KEY_A GLFW_PRESS s = Some s1
    ∧ FullBoard.keyCallback GLFW_KEY_A GLFW_RELEASE s1 = Some s2
    ∧ keyboardKeys s1 = <[32%nat := set_isPressed true k]> (keyboardKeys s)
    ∧ clicks s1 = clicks s ++ [32%nat]
    ∧ keyboardKeys s2 = <[32%nat := set_isPressed false k]> (keyboardKeys s)
    ∧ clicks s2 = clicks s1
    ∧ (isPressed k = false → s2 = spawn_click 32 s).
Proof.
  intros s.
  destruct (keyboardKeys s !! 32%nat) as [k|] eqn:Hk;
    [|vm_compute in Hk; discriminate Hk].
  exists k.
  destruct (key_press_then_release s GLFW_KEY_A 32 k) as (s1 & s2 & H).
  - vm_compute. reflexivity.
  - lia.
  - exact Hk.
  - exists s1, s2. split; [reflexivity|exact H].
Defined.

(** X7.  The key callback of the compact board does what the one of the
    full board does wherever that one is defined; where the full board
    would index the keys out of bounds, the guard
    [index < keyboardKeys.size()] of the compact board makes it ignore
    the event. *)
Theorem compact_keyCallback_guarded (key action : Z) (s : World) :
  match FullBoard.keyCallback key action s with
  | Some s' => Compact.keyCallback key action s = s'
  | None =>
      Compact.keyCallback key action s = s
      ∧ ∃ index, glfwKeyToIndex s !! key = Some index
                 ∧ Z.of_nat (length (keyboardKeys s)) ≤ to_size_t index
  end.
Proof.
  unfold FullBoard.keyCallback, Compact.keyCallback, assign_isPressed.
  destruct (glfwKeyToIndex s !! key) as [index|]; [|reflexivity].
  destruct (to_size_t index <? Z.of_nat (length (keyboardKeys s))) eqn:Hb.
  - destruct (action =? GLFW_PRESS); [reflexivity|].
    destruct (action =? GLFW_RELEASE); reflexivity.
  - apply Z.ltb_ge in Hb.
    destruct (action =? GLFW_PRESS);
      [cbn [mbind option_bind]; split; [reflexivity|eauto]|].
    destruct (action =? GLFW_RELEASE);
      [split; [reflexivity|eauto]|reflexivity].
Qed.

(** ** Pointer events *)

Section PointerEvents.

Lemma cursor_moves_released (moves : list (double * double)) (s : World) :
  g_leftMouseDown s = false → FullBoard.cursor_moves moves s = s.
Proof.
  intros H. induction moves as [|c rest IH]; [reflexivity|].
  unfold FullBoard.cursor_moves in *. cbn [foldl].
  unfold FullBoard.cursor_position_callback at 2. rewrite H. exact IH.
Qed.

Lemma released_all (ks : list Key) :
  Forall (λ k, isPressed k = false) (map (set_isPressed false) ks).
Proof.
  induction ks as [|k rest IH]; [apply Forall_nil_2|].
  cbn [map]. apply Forall_cons. split; [reflexivity|exact IH].
Qed.

(** Dragging over keys that a drag to the same place has just left
    changes nothing and spawns nothing. *)
Lemma drag_keys_again (x y : double) (ks : list Key) :
  ∀ n, FullBoard.drag_keys x y n (map (drag_key x y) ks)
       = (map (drag_key x y) ks, []).
Proof.
  induction ks as [|k rest IH]; intros n; [reflexivity|].
  cbn [map]. rewrite drag_keys_cons, (IH (S n)).
  unfold drag_key at 1 2 3. rewrite under_cursor_set_isPressed.
  destruct (under_cursor x y k) eqn:Hu.
  - cbn [isPressed set_isPressed negb]. unfold drag_key. rewrite Hu.
    reflexivity.
  - unfold drag_key. rewrite Hu. reflexivity.
Qed.

Lemma spawn_clicks_nil (s : World) : spawn_clicks [] s = s.
Proof. destruct s. unfold spawn_clicks. cbn. rewrite app_nil_r. reflexivity. Qed.

End PointerEvents.

(** X8.  Releasing the left button releases every key, also the keys
    held from the keyboard, clears the drag flag and spawns no sound
    thread; cursor events that follow change nothing until the button is
    pressed again. *)
Theorem left_release_ends_drag (xpos ypos : double) (s : World)
    (moves : list (double * double)) :
  let s' := FullBoard.mouse_button_callback xpos ypos GLFW_MOUSE_BUTTON_LEFT
                                            GLFW_RELEASE s in
  Forall (λ k, isPressed k = false) (keyboardKeys s')
  ∧ keyboardKeys s' = map (set_isPressed false) (keyboardKeys s)
  ∧ g_leftMouseDown s' = false
  ∧ clicks s' = clicks s
  ∧ FullBoard.cursor_moves moves s' = s'.
Proof.
  intros s'. subst s'. unfold FullBoard.mouse_button_callback.
  change (GLFW_MOUSE_BUTTON_LEFT =? GLFW_MOUSE_BUTTON_LEFT) with true.
  change (GLFW_RELEASE =? GLFW_PRESS) with false.
  change (GLFW_RELEASE =? GLFW_RELEASE) with true. cbv iota zeta.
  cbn [keyboardKeys set_keyboardKeys set_g_leftMouseDown g_leftMouseDown
       clicks].
  split; [apply released_all|]. repeat split.
  apply cursor_moves_released. reflexivity.
Qed.

(** X9.  A mouse button event that is neither a press or release of the
    left button nor a press of the right button changes nothing. *)
Theorem pointer_event_ignored (xpos ypos : double) (button action : Z)
    (s : World) :
  button ≠ GLFW_MOUSE_BUTTON_LEFT
  ∨ (action ≠ GLFW_PRESS ∧ action ≠ GLFW_RELEASE) →
  button ≠ GLFW_MOUSE_BUTTON_RIGHT ∨ action ≠ GLFW_PRESS →
  FullBoard.mouse_button_callback xpos ypos button action s = s.
Proof.
  intros HL HR. unfold FullBoard.mouse_button_callback.
  destruct (Z.eqb_spec button GLFW_MOUSE_BUTTON_LEFT) as [Hb|Hb].
  - destruct HL as [HL|[HL1 HL2]]; [contradiction|].
    destruct (Z.eqb_spec action GLFW_PRESS); [contradiction|].
    destruct (Z.eqb_spec action GLFW_RELEASE); [contradiction|].
    reflexivity.
  - destruct (Z.eqb_spec button GLFW_MOUSE_BUTTON_RIGHT) as [Hr|Hr];
      [|reflexivity].
    destruct HR as [HR|HR]; [contradiction|].
    destruct (Z.eqb_spec action GLFW_PRESS); [contradiction|].
    reflexivity.
Qed.

Lemma pointer_event_ignored_witness :
  FullBoard.mouse_button_callback (F64.of_Z 5) (F64.of_Z 5)
    GLFW_MOUSE_BUTTON_RIGHT GLFW_RELEASE drag_world = drag_world
  ∧ FullBoard.mouse_button_callback (F64.of_Z 5) (F64.of_Z 5) 2 GLFW_PRESS
      drag_world = drag_world.
Proof.
  split.
  - apply (pointer_event_ignored (F64.of_Z 5) (F64.of_Z 5)
             GLFW_MOUSE_BUTTON_RIGHT GLFW_RELEASE drag_world).
    + left. vm_compute. discriminate.
    + right. vm_compute. discriminate.
  - apply (pointer_event_ignored (F64.of_Z 5) (F64.of_Z 5) 2 GLFW_PRESS
             drag_world).
    + left. vm_compute. discriminate.
    + left. vm_compute. discriminate.
Defined.

(** X10.  A cursor event at the place of the event before it changes
    nothing: the keys under the cursor are held already, so no key is
    pressed again and no sound thread is spawned. *)
Theorem cursor_event_repeated (xpos ypos : double) (s : World) :
  let move := FullBoard.cursor_position_callback xpos ypos in
  move (move s) = move s.
Proof.
  intros move. subst move.
  destruct (g_leftMouseDown s) eqn:Hd.
  - assert (FullBoard.cursor_position_callback xpos ypos s
            = spawn_clicks
                (snd (FullBoard.drag_keys xpos ypos 0 (keyboardKeys s)))
                (set_keyboardKeys (map (drag_key xpos ypos) (keyboardKeys s))
                                  s)) as ->.
    { unfold FullBoard.cursor_position_callback. rewrite Hd.
      rewrite <- (drag_keys_keys xpos ypos (keyboardKeys s) 0).
      destruct (FullBoard.drag_keys xpos ypos 0 (keyboardKeys s));
        reflexivity. }
    unfold FullBoard.cursor_position_callback.
    cbn [g_leftMouseDown spawn_clicks set_keyboardKeys keyboardKeys].
    rewrite Hd, drag_keys_again. apply spawn_clicks_nil.
  - assert (FullBoard.cursor_position_callback xpos ypos s = s) as Hs.
    { unfold FullBoard.cursor_position_callback. rewrite Hd. reflexivity. }
    rewrite !Hs. reflexivity.
Qed.

(** ** Counting the sounds of a drag *)

Section DragCount.

Lemma entries_ext (k : Key) (b : bool) (moves : list (double * double)) :
  map (λ c, under_cursor (fst c) (snd c) (set_isPressed b k)) moves
  = map (λ c, under_cursor (fst c) (snd c) k) moves.
Proof.
  induction moves as [|c rest IH]; [reflexivity|].
  cbn [map]. rewrite under_cursor_set_isPressed, IH. reflexivity.
Qed.

Lemma cursor_moves_cons (c : double * double) (rest : list (double * double))
    (s : World) :
  FullBoard.cursor_moves (c :: rest) s
  = FullBoard.cursor_moves rest
      (FullBoard.cursor_position_callback (fst c) (snd c) s).
Proof. reflexivity. Qed.

Lemma cursor_moves_entries (j : nat) (moves : list (double * double)) :
  ∀ (s : World) (k : Key),
    g_leftMouseDown s = true → keyboardKeys s !! j = Some k →
    let hits := map (λ c, under_cursor (fst c) (snd c) k) moves in
    activations j (FullBoard.cursor_moves moves s)
    = (activations j s + entries (isPressed k) hits)%nat
    ∧ keyboardKeys (FullBoard.cursor_moves moves s) !! j
      = Some (set_isPressed (last_hit (isPressed k) hits) k).
Proof.
  induction moves as [|c rest IH]; intros s k Hd Hk hits; subst hits.
  - cbn [map entries last_hit]. split; [cbn; lia|].
    rewrite set_isPressed_same. exact Hk.
  - rewrite cursor_moves_cons.
    destruct (cursor_step_lookup (fst c) (snd c) s j k Hd Hk)
      as (Hk1 & Hd1 & Ha1).
    specialize (IH _ _ Hd1 Hk1). cbv zeta in IH.
    destruct IH as [IHa IHk].
    unfold drag_key in IHa, IHk. rewrite entries_ext in IHa, IHk.
    cbn [isPressed set_isPressed] in IHa, IHk.
    cbn [map entries last_hit]. split.
    + rewrite IHa, Ha1. lia.
    + rewrite IHk. reflexivity.
Qed.

End DragCount.

(** X11.  While the left button is held, a run of cursor events spawns
    for a key one sound thread each time the cursor comes onto the key
    from outside it (or is over it at the first event, the key not being
    held), and none while the cursor stays on it; after the run the key
    is held if and only if the last event was over it. *)
Theorem drag_sounds_once_per_entry (s : World) (j : nat) (k : Key)
    (moves : list (double * double)) :
  g_leftMouseDown s = true →
  keyboardKeys s !! j = Some k →
  let hits := map (λ c, under_cursor (fst c) (snd c) k) moves in
  let s' := FullBoard.cursor_moves moves s in
  activations j s' = (activations j s + entries (isPressed k) hits)%nat
  ∧ isPressed <$> keyboardKeys s' !! j = Some (last_hit (isPressed k) hits).
Proof.
  intros Hd Hk hits s'.
  destruct (cursor_moves_entries j moves s k Hd Hk) as [Ha Hl].
  split; [exact Ha|]. subst s'. rewrite Hl. reflexivity.
Qed.

Lemma drag_sounds_once_per_entry_witness :
  let moves :=
    [ (F64.of_Z 20, F64.of_Z 5); (F64.of_Z 21, F64.of_Z 5);
      (F64.of_Z 12, F64.of_Z 5); (F64.of_Z 22, F64.of_Z 5);
      (F64.of_Z 23, F64.of_Z 5); (F64.of_Z 40, F64.of_Z 5) ] in
  let s' := FullBoard.cursor_moves moves drag_world in
  activations 1 s' = 2%nat
  ∧ isPressed <$> keyboardKeys s' !! 1%nat = Some false.
Proof.
  apply (drag_sounds_once_per_entry drag_world 1
           (mkKey "Y" (Vec2 (F32.of_Z 16) (F32.of_Z 0))
                  (Vec2 (F32.of_Z 10) (F32.of_Z 10))
                  f32_zero false false ALPHANUM)
           [ (F64.of_Z 20, F64.of_Z 5); (F64.of_Z 21, F64.of_Z 5);
             (F64.of_Z 12, F64.of_Z 5); (F64.of_Z 22, F64.of_Z 5);
             (F64.of_Z 23, F64.of_Z 5); (F64.of_Z 40, F64.of_Z 5) ]);
    reflexivity.
Defined.

(** ** The single key *)

Lemma shift_A_eq (mods : Z) (st : MxGreen.State) :
  Z.land mods GLFW_MOD_SHIFT ≠ 0 →
  MxGreen.keyCallback GLFW_KEY_A GLFW_PRESS mods st
  = MxGreen.mkState
      (set_keycapRemoved (negb (keycapRemoved (MxGreen.g_key st)))
                         (MxGreen.g_key st))
      (MxGreen.played st).
Proof.
  intros Hm. unfold MxGreen.keyCallback.
  change (GLFW_KEY_A =? GLFW_KEY_A) with true.
  change (GLFW_PRESS =? GLFW_PRESS) with true. cbv iota.
  destruct (Z.eqb_spec (Z.land mods GLFW_MOD_SHIFT) 0) as [H|_];
    [contradiction|reflexivity].
Qed.

(** X12.  In the single-key program, a press of A with the shift
    modifier among the modifiers toggles the keycap and nothing else: the
    key is not pressed and no sound thread is spawned; a second such
    press gives back the state before the first. *)
Theorem shift_A_toggles_keycap (mods : Z) (st : MxGreen.State) :
  Z.land mods GLFW_MOD_SHIFT ≠ 0 →
  let toggle := MxGreen.keyCallback GLFW_KEY_A GLFW_PRESS mods in
  keycapRemoved (MxGreen.g_key (toggle st))
  = negb (keycapRemoved (MxGreen.g_key st))
  ∧ isPressed (MxGreen.g_key (toggle st)) = isPressed (MxGreen.g_key st)
  ∧ MxGreen.played (toggle st) = MxGreen.played st
  ∧ toggle (toggle st) = st.
Proof.
  intros Hm toggle. subst toggle. rewrite !(shift_A_eq mods _ Hm).
  cbn [MxGreen.g_key MxGreen.played keycapRemoved isPressed
       set_keycapRemoved].
  repeat split.
  destruct st as [[l p sz a pr kc t] n]. cbn.
  rewrite negb_involutive. reflexivity.
Qed.

Lemma shift_A_toggles_keycap_witness :
  let st := MxGreen.mkState (sample_key f32_zero false) 0 in
  let toggle := MxGreen.keyCallback GLFW_KEY_A GLFW_PRESS 3 in
  keycapRemoved (MxGreen.g_key (toggle st))
  = negb (keycapRemoved (MxGreen.g_key st))
  ∧ isPressed (MxGreen.g_key (toggle st)) = isPressed (MxGreen.g_key st)
  ∧ MxGreen.played (toggle st) = MxGreen.played st
  ∧ toggle (toggle st) = st.
Proof.
  apply (shift_A_toggles_keycap 3
           (MxGreen.mkState (sample_key f32_zero false) 0)).
  vm_compute. discriminate.
Defined.

(** ** The boxes of the switch view *)

(** X13.  [drawThreeFacedCube] draws the front, top and left faces that
    [drawBeveledBox3D] draws for the same arguments, in that order: the
    first, second and fifth of its five faces. *)
Theorem drawThreeFacedCube_faces (x y w h depth baseR baseG baseB : float) :
  let box := drawBeveledBox3D x y w h depth baseR baseG baseB in
  let cube := drawThreeFacedCube x y w h depth baseR baseG baseB in
  length box = 5%nat
  ∧ (λ i : nat, box !! i) <$> [0; 1; 4]%nat = Some <$> cube.
Proof. split; reflexivity. Qed.

(** X14.  In the switch view only the two translations of the stem read
    the press value: the five faces of the housing, the three faces of
    the stem and the calls around them are the same for every press
    value and either state of [isPressed]; the stem is moved as a whole,
    half as far up and left as the keycap would be and as deep. *)
Theorem switch_faces_fixed (key : Key) (p : float) (b : bool) :
  let key' := set_isPressed b (set_pressAnim p key) in
  let calls := FullBoardLoop.drawMechanicalSwitch3D key in
  let calls' := FullBoardLoop.drawMechanicalSwitch3D key' in
  take 6 calls' = take 6 calls
  ∧ drop 8 calls' = drop 8 calls
  ∧ length calls' = 15%nat
  ∧ calls' !! 6%nat
    = Some (glTranslatef (- f32_half * (F32.lit 10 1 * p))%f32
                         (- f32_half * (F32.lit 10 1 * p))%f32
                         (- (FullBoard.KEY_DEPTH * p))%f32)
  ∧ ∃ z, calls' !! 7%nat = Some (glTranslatef f32_zero f32_zero z).
Proof.
  intros key' calls calls'. subst key' calls calls'.
  split; [reflexivity|]. split; [reflexivity|]. split; [reflexivity|].
  split; [reflexivity|]. eexists. reflexivity.
Qed.

(** ** The keycap at the two ends of its travel *)

Section KeycapExtremes.

Lemma sub_plus_zero (x : float) : (x - S754_zero false)%f32 = x.
Proof. destruct x as [[]|[]| |[] m e]; reflexivity. Qed.

Lemma keycap_front_corner (KEY_DEPTH : float) (key : Key) :
  q_a <$> drawKeycap3D KEY_DEPTH key !! 0%nat
  = Some (Vertex (vx (pos key) - F32.lit 10 1 * pressAnim key)%f32
                 (vy (pos key) - F32.lit 10 1 * pressAnim key)%f32
                 (- (KEY_DEPTH * pressAnim key))%f32).
Proof. reflexivity. Qed.

Lemma keycap_back_corner (KEY_DEPTH : float) (key : Key) :
  q_d <$> drawKeycap3D KEY_DEPTH key !! 1%nat
  = Some (Vertex
            (vx (pos key) - F32.lit 10 1 * pressAnim key
             - KEY_DEPTH * (f32_one - f32_half * pressAnim key))%f32
            (vy (pos key) - F32.lit 10 1 * pressAnim key
             - KEY_DEPTH * (f32_one - f32_half * pressAnim key))%f32
            (- (KEY_DEPTH * pressAnim key
                + KEY_DEPTH * (f32_one - f32_half * pressAnim key)))%f32).
Proof. reflexivity. Qed.

End KeycapExtremes.

(** X15.  The keycap of the full board at the two ends of its travel.  At
    rest ([pressAnim = 0.0f]) the front face starts at the corner of the
    key, at depth [-0], and the back face lies [18] up, left and behind.
    Fully pressed ([pressAnim = 0.5f]) the front face is [5] up and left
    and [9] deep, and the back face is [13.5] further on each axis: three
    quarters of [KEY_DEPTH] stay visible. *)
Theorem keycap_extremes (key : Key) :
  let x := vx (pos key) in
  let y := vy (pos key) in
  let rest := drawKeycap3D FullBoard.KEY_DEPTH (set_pressAnim f32_zero key) in
  let full := drawKeycap3D FullBoard.KEY_DEPTH (set_pressAnim f32_half key) in
  q_a <$> rest !! 0%nat = Some (Vertex x y (S754_zero true))
  ∧ q_d <$> rest !! 1%nat
    = Some (Vertex (x - F32.of_Z 18)%f32 (y - F32.of_Z 18)%f32
                   (F32.of_Z (-18)))
  ∧ q_a <$> full !! 0%nat
    = Some (Vertex (x - F32.of_Z 5)%f32 (y - F32.of_Z 5)%f32 (F32.of_Z (-9)))
  ∧ q_d <$> full !! 1%nat
    = Some (Vertex (x - F32.of_Z 5 - F32.lit 135 10)%f32
                   (y - F32.of_Z 5 - F32.lit 135 10)%f32
                   (- F32.lit 225 10)%f32).
Proof.
  intros x y rest full. subst x y rest full.
  rewrite !keycap_front_corner, !keycap_back_corner.
  cbn [pressAnim pos set_pressAnim].
  replace (F32.lit 10 1 * f32_zero)%f32 with (S754_zero false)
    by (vm_compute; reflexivity).
  replace (FullBoard.KEY_DEPTH * f32_zero)%f32 with (S754_zero false)
    by (vm_compute; reflexivity).
  replace (FullBoard.KEY_DEPTH * (f32_one - f32_half * f32_zero))%f32
    with (F32.of_Z 18) by (vm_compute; reflexivity).
  replace (F32.lit 10 1 * f32_half)%f32 with (F32.of_Z 5)
    by (vm_compute; reflexivity).
  replace (FullBoard.KEY_DEPTH * f32_half)%f32 with (F32.of_Z 9)
    by (vm_compute; reflexivity).
  replace (FullBoard.KEY_DEPTH * (f32_one - f32_half * f32_half))%f32
    with (F32.lit 135 10) by (vm_compute; reflexivity).
  rewrite !sub_plus_zero.
  replace (- (S754_zero false + F32.of_Z 18))%f32 with (F32.of_Z (-18))
    by (vm_compute; reflexivity).
  replace (- F32.of_Z 9)%f32 with (F32.of_Z (-9))
    by (vm_compute; reflexivity).
  replace (- (F32.of_Z 9 + F32.lit 135 10))%f32 with (- F32.lit 225 10)%f32
    by (vm_compute; reflexivity).
  repeat split.
Qed.

(** ** A key and its identifier *)

(** X16.  The identifier given to [addKey] answers for the key it adds:
    the lookup sends it to the new last slot, also when it was mapped
    before, every other identifier keeps its slot, and a press event for
    it holds the new key, and only it, down. *)
Theorem added_key_answers_its_identifier (label : string) (x y w h : float)
    (kt : KeyType) (glfwKey : Z) (s : World) :
  glfwKey ≠ -1 →
  Z.of_nat (length (keyboardKeys s)) < 2 ^ 31 - 1 →
  let n := length (keyboardKeys s) in
  let s1 := FullBoard.addKey label x y w h kt glfwKey s in
  glfwKeyToIndex s1 !! glfwKey = Some (Z.of_nat n)
  ∧ (∀ c, c ≠ glfwKey → glfwKeyToIndex s1 !! c = glfwKeyToIndex s !! c)
  ∧ ∃ s2, FullBoard.keyCallback glfwKey GLFW_PRESS s1 = Some s2
          ∧ keyboardKeys s2
            = keyboardKeys s
              ++ [mkKey label (Vec2 x y) (Vec2 w h) f32_zero true false kt]
          ∧ clicks s2 = clicks s ++ [n].
Proof.
  intros Hc Hn n s1.
  assert (s1 = set_glfwKeyToIndex (<[glfwKey := Z.of_nat n]> (glfwKeyToIndex s))
                 (set_keyboardKeys
                    (keyboardKeys s
                     ++ [mkKey label (Vec2 x y) (Vec2 w h) f32_zero false
                               false kt]) s)) as Hs1.
  { subst s1. unfold FullBoard.addKey.
    destruct (Z.eqb_spec glfwKey (-1)) as [H|_]; [contradiction|].
    cbn [negb]. cbv zeta. cbn [keyboardKeys set_keyboardKeys].
    rewrite length_app. cbn [length].
    rewrite to_int_small by (fold n; lia).
    f_equal. f_equal. fold n. lia. }
  clearbody s1. subst s1.
  cbn [glfwKeyToIndex set_glfwKeyToIndex set_keyboardKeys].
  split; [apply lookup_insert_eq|].
  split; [intros c Hne; apply lookup_insert_ne; congruence|].
  eexists. split.
  - unfold FullBoard.keyCallback.
    cbn [glfwKeyToIndex set_glfwKeyToIndex set_keyboardKeys].
    rewrite lookup_insert_eq.
    change (GLFW_PRESS =? GLFW_PRESS) with true. cbv iota.
    erewrite assign_isPressed_slot.
    + cbn [mbind option_bind]. reflexivity.
    + lia.
    + cbn [keyboardKeys set_glfwKeyToIndex set_keyboardKeys].
      rewrite Nat2Z.id. apply list_lookup_middle. reflexivity.
  - cbn [keyboardKeys clicks spawn_click set_keyboardKeys set_glfwKeyToIndex].
    rewrite Nat2Z.id. split.
    + replace n with (length (keyboardKeys s) + 0)%nat at 1 by (subst n; lia).
      rewrite insert_app_r. reflexivity.
    + rewrite to_size_t_small by lia. rewrite Nat2Z.id. reflexivity.
Qed.

Lemma added_key_answers_its_identifier_witness :
  let s1 := FullBoard.addKey "A" (F32.of_Z 40) (F32.of_Z 0) (F32.of_Z 10)
              (F32.of_Z 10) ALPHANUM GLFW_KEY_A drag_world in
  glfwKeyToIndex s1 !! GLFW_KEY_A = Some 2
  ∧ (∀ c, c ≠ GLFW_KEY_A → glfwKeyToIndex s1 !! c = glfwKeyToIndex drag_world !! c)
  ∧ ∃ s2, FullBoard.keyCallback GLFW_KEY_A GLFW_PRESS s1 = Some s2
          ∧ keyboardKeys s2
            = keyboardKeys drag_world
              ++ [mkKey "A" (Vec2 (F32.of_Z 40) (F32.of_Z 0))
                        (Vec2 (F32.of_Z 10) (F32.of_Z 10)) f32_zero true false
                        ALPHANUM]
          ∧ clicks s2 = clicks drag_world ++ [2%nat].
Proof.
  apply (added_key_answers_its_identifier "A" (F32.of_Z 40) (F32.of_Z 0)
           (F32.of_Z 10) (F32.of_Z 10) ALPHANUM GLFW_KEY_A drag_world).
  - vm_compute. discriminate.
  - vm_compute. reflexivity.
Defined.

(** ** The labels of a frame *)

Section FrameLabels.

Lemma texts_app (l1 l2 : list gl_call) : texts (l1 ++ l2) = texts l1 ++ texts l2.
Proof. apply omap_app. Qed.

Lemma texts_quads (qs : list quad) : texts (map glQuad qs) = [].
Proof. induction qs as [|q rest IH]; [reflexivity|exact IH]. Qed.

Lemma texts_drawKeyMerged (k : Key) : texts (FullBoardLoop.drawKeyMerged k) = [].
Proof.
  unfold FullBoardLoop.drawKeyMerged.
  destruct (keycapRemoved k); [|apply texts_quads].
  unfold FullBoardLoop.drawMechanicalSwitch3D. cbv zeta.
  rewrite !texts_app, !texts_quads. reflexivity.
Qed.

Lemma texts_drawLabel (k : Key) :
  texts (FullBoardLoop.drawLabel k)
  = if keycapRemoved k then [] else [label k].
Proof.
  unfold FullBoardLoop.drawLabel. destruct (keycapRemoved k); reflexivity.
Qed.

End FrameLabels.

(** X18.  The loop of a frame calls [renderText] once for every key whose
    keycap is on, in slot order, with the label of the key, and never in
    the switch view. *)
Theorem frame_labels (deltaTime : float) (ks : list Key) :
  texts (snd (FullBoardLoop.updateAndDraw deltaTime ks))
  = label <$> filter (λ k, keycapRemoved k = false) ks.
Proof.
  induction ks as [|k rest IH]; [reflexivity|].
  cbn [FullBoardLoop.updateAndDraw].
  destruct (FullBoardLoop.updateAndDraw deltaTime rest) as [rest' drawn'].
  cbn [snd] in *.
  rewrite !texts_app, texts_drawKeyMerged, texts_drawLabel, IH.
  rewrite (updateKeyAnimation_frame k deltaTime).
  cbn [keycapRemoved label set_pressAnim app].
  rewrite filter_cons.
  destruct (keycapRemoved k).
  - rewrite decide_False by discriminate. reflexivity.
  - rewrite decide_True by reflexivity. reflexivity.
Qed.

(** ** Every key has an identifier *)

Section LookupCovers.

Lemma addKey_index (label : string) (x y w h : float) (kt : KeyType)
    (glfwKey : Z) (s : World) :
  index_part (FullBoard.addKey label x y w h kt glfwKey s)
  = index_step glfwKey (index_part s).
Proof.
  unfold FullBoard.addKey, index_part, index_step.
  destruct (negb (glfwKey =? -1)); cbv zeta;
    cbn [keyboardKeys glfwKeyToIndex set_keyboardKeys set_glfwKeyToIndex
         fst snd];
    rewrite length_app; cbn [length];
    replace (length (keyboardKeys s) + 1)%nat with (S (length (keyboardKeys s)))
      by lia; reflexivity.
Qed.

Lemma addRow_index (row : list (string * Z)) (kt : KeyType) :
  ∀ (currentX currentY : float) (s : World),
    index_part (snd (FullBoard.addRow row kt currentX currentY s))
    = foldl (λ p lc, index_step (snd lc) p) (index_part s) row.
Proof.
  induction row as [|[lbl code] rest IH]; intros cx cy s; [reflexivity|].
  cbn [FullBoard.addRow foldl snd]. rewrite IH, addKey_index. reflexivity.
Qed.

Ltac index_walk :=
  match goal with
  | H : index_part ?s = _
    |- context [FullBoard.addKey ?l ?x ?y ?w ?h ?kt ?c ?s] =>
      let s' := fresh "s" in
      let H' := fresh "Hidx" in
      pose proof (addKey_index l x y w h kt c s) as H';
      rewrite H in H';
      set (s' := FullBoard.addKey l x y w h kt c s) in *;
      clearbody s'; clear H
  | H : index_part ?s = _
    |- context [FullBoard.addRow ?row ?kt ?x ?y ?s] =>
      let s' := fresh "s" in
      let H' := fresh "Hidx" in
      pose proof (addRow_index row kt x y s) as H';
      rewrite H in H';
      destruct (FullBoard.addRow row kt x y s) as [? s'];
      cbn [snd] in H'; clear H
  end.

(** The lookup that [initKeyboardLayout] builds does not depend on where
    the block is placed nor on the globals before. *)
Lemma initKeyboardLayout_index :
  ∃ v, ∀ (g_mainStartX g_mainStartY : float) (s : World),
         index_part (FullBoard.initKeyboardLayout g_mainStartX g_mainStartY s)
         = v.
Proof.
  eexists. intros gx gy s.
  unfold FullBoard.initKeyboardLayout. cbv zeta.
  assert (index_part (set_glfwKeyToIndex ∅ (set_keyboardKeys [] s)) = (0%nat, ∅))
    as Hidx by reflexivity.
  set (s0 := set_glfwKeyToIndex ∅ (set_keyboardKeys [] s)) in *.
  clearbody s0.
  repeat index_walk. exact Hidx.
Qed.

Lemma index_part_snd (s : World) : snd (index_part s) = glfwKeyToIndex s.
Proof. reflexivity. Qed.

Lemma initKeyboardLayout_lookup_fixed (g_mainStartX g_mainStartY : float)
    (s : World) :
  glfwKeyToIndex (FullBoard.initKeyboardLayout g_mainStartX g_mainStartY s)
  = glfwKeyToIndex (FullBoard.initKeyboardLayout f32_zero f32_zero start_world).
Proof.
  destruct initKeyboardLayout_index as [v Hv].
  rewrite <- !index_part_snd.
  rewrite (Hv g_mainStartX g_mainStartY s), (Hv f32_zero f32_zero start_world).
  reflexivity.
Qed.

Lemma covers_spec (m : gmap Z Z) (n : nat) :
  covers m n = true →
  Forall (λ i : nat, ∃ c, m !! c = Some (Z.of_nat i)) (seq 0 n).
Proof.
  unfold covers. intros H. apply Forall_forall. intros i Hi.
  rewrite forallb_forall in H. apply list_elem_of_In in Hi.
  specialize (H i Hi). apply existsb_exists in H.
  destruct H as ([c v] & Hin & Hv). cbn [snd] in Hv.
  apply Z.eqb_eq in Hv. subst v.
  exists c. apply elem_of_map_to_list. apply list_elem_of_In. exact Hin.
Qed.

End LookupCovers.

(** X17.  In both layouts every key can be reached from the keyboard:
    each slot of the keys is the slot of some identifier in the lookup,
    wherever the full board is placed. *)
Theorem every_slot_has_an_identifier :
  (∀ (g_mainStartX g_mainStartY : float) (s : World),
      let s' := FullBoard.initKeyboardLayout g_mainStartX g_mainStartY s in
      Forall (λ i : nat, ∃ c, glfwKeyToIndex s' !! c = Some (Z.of_nat i))
             (seq 0 (length (keyboardKeys s'))))
  ∧ (∀ s : World,
      let s' := Compact.initKeyboard s in
      Forall (λ i : nat, ∃ c, glfwKeyToIndex s' !! c = Some (Z.of_nat i))
             (seq 0 (length (keyboardKeys s')))).
Proof.
  split.
  - intros gx gy s s'. subst s'.
    destruct (initKeyboardLayout_inv gx gy s) as (-> & _).
    rewrite initKeyboardLayout_lookup_fixed.
    apply covers_spec. vm_compute. reflexivity.
  - intros s s'. subst s'.
    destruct (initKeyboard_inv s) as (-> & _).
    change (glfwKeyToIndex (Compact.initKeyboard s))
      with (glfwKeyToIndex (Compact.initKeyboard start_world)).
    apply covers_spec. vm_compute. reflexivity.
Qed.

(** ** The key of the compact board *)

(** X19.  The key of the compact board slides left only: its front face
    keeps the [y] of the key for every press value, where the keycap of
    the full board moves up as well; the [x] and [z] of every vertex are
    those of that keycap.  The two themes draw the same vertices. *)
Theorem drawKey3D_slides_left (key : Key) (depth : float) :
  let bx := vx (pos key) in
  let by_ := vy (pos key) in
  let bw := vx (size key) in
  let bh := vy (size key) in
  let p := pressAnim key in
  let light := CompactView.drawKey3D bx by_ bw bh depth p false in
  let dark := CompactView.drawKey3D bx by_ bw bh depth p true in
  let x := (bx - F32.lit 10 1 * p)%f32 in
  let z := (- (depth * p))%f32 in
  quad_vertices <$> dark = quad_vertices <$> light
  ∧ quad_vertices <$> light !! 0%nat
    = Some [ Vertex x by_ z; Vertex (x + bw)%f32 by_ z;
             Vertex (x + bw)%f32 (by_ + bh)%f32 z; Vertex x (by_ + bh)%f32 z ]
  ∧ (λ q, (λ v, (gx v, gz v)) <$> quad_vertices q) <$> light
    = (λ q, (λ v, (gx v, gz v)) <$> quad_vertices q)
        <$> drawKeycap3D depth key.
Proof. repeat split. Qed.

(** ** The type of a key *)

(** X20.  The type of a key has no effect on what a frame draws for it:
    [getBaseColor] is not called, the switch view, the keycap and the
    label are the same for every type, and the front face of every keycap
    has the color that [getBaseColor] gives for [NUMPAD]. *)
Theorem type_never_drawn (key : Key) (t : KeyType) :
  FullBoardLoop.drawKeyMerged (set_type t key) = FullBoardLoop.drawKeyMerged key
  ∧ FullBoardLoop.drawLabel (set_type t key) = FullBoardLoop.drawLabel key
  ∧ q_color <$> drawKeycap3D FullBoard.KEY_DEPTH key !! 0%nat
    = Some (getBaseColor NUMPAD).
Proof.
  split; [reflexivity|]. split; [reflexivity|].
  cbn [drawKeycap3D lookup list_lookup fmap option_fmap option_map q_color
       getBaseColor].
  assert (F32.lit 9 10 = F32.lit 90 100) as -> by (vm_compute; reflexivity).
  reflexivity.
Qed.

(** ** A press and a drag at the same place *)

Section PressAndDrag.

Lemma drag_keys_no_hit (x y : double) (ks : list Key) :
  all_released ks = true → hits x y ks = 0%nat →
  ∀ n, FullBoard.drag_keys x y n ks = (ks, []).
Proof.
  unfold all_released, hits.
  induction ks as [|k rest IH]; intros Hr Hh n; [reflexivity|].
  cbn [forallb] in Hr. apply andb_prop in Hr. destruct Hr as [Hk Hrest].
  rewrite filter_cons in Hh. rewrite drag_keys_cons.
  destruct (under_cursor x y k) eqn:Hu.
  - rewrite decide_True in Hh by reflexivity. discriminate Hh.
  - rewrite decide_False in Hh by discriminate.
    rewrite (IH Hrest Hh (S n)).
    replace (set_isPressed false k) with k; [reflexivity|].
    apply negb_true_iff in Hk. rewrite <- Hk. symmetry.
    apply set_isPressed_same.
Qed.

Lemma press_first_as_drag (x y : double) (ks : list Key) :
  all_released ks = true → (hits x y ks ≤ 1)%nat →
  ∀ n, FullBoard.press_first x y n ks = FullBoard.drag_keys x y n ks.
Proof.
  unfold all_released, hits.
  induction ks as [|k rest IH]; intros Hr Hh n; [reflexivity|].
  cbn [forallb] in Hr. apply andb_prop in Hr. destruct Hr as [Hk Hrest].
  rewrite filter_cons in Hh. rewrite drag_keys_cons.
  cbn [FullBoard.press_first].
  destruct (under_cursor x y k) eqn:Hu.
  - rewrite decide_True in Hh by reflexivity. cbn [length] in Hh.
    rewrite (drag_keys_no_hit x y rest Hrest ltac:(unfold hits; lia) (S n)).
    rewrite Hk. reflexivity.
  - rewrite decide_False in Hh by discriminate.
    rewrite (IH Hrest Hh (S n)).
    destruct (FullBoard.drag_keys x y (S n) rest) as [rest' sp].
    replace (set_isPressed false k) with k; [reflexivity|].
    apply negb_true_iff in Hk. rewrite <- Hk. symmetry.
    apply set_isPressed_same.
Qed.

End PressAndDrag.

(** X21.  On a board with no key held and at most one key under the
    cursor, pressing the left button does what a cursor event at the same
    place does once the drag flag is set: the two loops, the one that
    stops at the first hit and the one that visits every key, hold the
    same key down and spawn the same sound thread. *)
Theorem left_press_as_drag (xpos ypos : double) (s : World) :
  all_released (keyboardKeys s) = true →
  (hits xpos ypos (keyboardKeys s) ≤ 1)%nat →
  FullBoard.mouse_button_callback xpos ypos GLFW_MOUSE_BUTTON_LEFT GLFW_PRESS s
  = FullBoard.cursor_position_callback xpos ypos (set_g_leftMouseDown true s).
Proof.
  intros Hr Hh.
  unfold FullBoard.mouse_button_callback, FullBoard.cursor_position_callback.
  change (GLFW_MOUSE_BUTTON_LEFT =? GLFW_MOUSE_BUTTON_LEFT) with true.
  change (GLFW_PRESS =? GLFW_PRESS) with true. cbv iota zeta.
  cbn [g_leftMouseDown set_g_leftMouseDown keyboardKeys].
  rewrite (press_first_as_drag xpos ypos _ Hr Hh 0). reflexivity.
Qed.

Lemma left_press_as_drag_witness :
  FullBoard.mouse_button_callback (F64.of_Z 7) (F64.of_Z 3)
    GLFW_MOUSE_BUTTON_LEFT GLFW_PRESS overlap_world
  = FullBoard.cursor_position_callback (F64.of_Z 7) (F64.of_Z 3)
      (set_g_leftMouseDown true overlap_world).
Proof.
  apply (left_press_as_drag (F64.of_Z 7) (F64.of_Z 3) overlap_world).
  - reflexivity.
  - vm_compute. lia.
Defined.

(** ** The sound threads of a run *)

Section RunClicks.

Lemma press_first_spawned (x y : double) (ks : list Key) :
  ∀ n, (length (snd (FullBoard.press_first x y n ks)) ≤ 1)%nat.
Proof.
  induction ks as [|k rest IH]; intros n; cbn [FullBoard.press_first];
    [cbn; lia|].
  destruct (under_cursor x y k); [cbn; lia|].
  specialize (IH (S n)).
  destruct (FullBoard.press_first x y (S n) rest) as [rest' sp]. exact IH.
Qed.

Lemma drag_keys_spawned_length (x y : double) (ks : list Key) :
  ∀ n, (length (snd (FullBoard.drag_keys x y n ks)) ≤ length ks)%nat.
Proof.
  induction ks as [|k rest IH]; intros n; [cbn; lia|].
  rewrite drag_keys_cons. specialize (IH (S n)).
  destruct (FullBoard.drag_keys x y (S n) rest) as [rest' sp].
  cbn [snd length] in *.
  destruct (under_cursor x y k); [destruct (negb (isPressed k))|];
    cbn [snd length]; lia.
Qed.

Lemma handle_clicks (e : Event) (s s' : World) :
  FullBoardLoop.handle e s = Some s' →
  ∃ l, clicks s' = clicks s ++ l
       ∧ (length l ≤ sound_budget (length (keyboardKeys s)) e)%nat.
Proof.
  destruct e as [key action|x y button action|x y|dt];
    cbn [FullBoardLoop.handle sound_budget].
  - unfold FullBoard.keyCallback, assign_isPressed.
    destruct (glfwKeyToIndex s !! key) as [index|];
      [|intros [= <-]; exists []; rewrite app_nil_r; split;
        [reflexivity|cbn; lia]].
    destruct (action =? GLFW_PRESS).
    + destruct (to_size_t index <? Z.of_nat (length (keyboardKeys s)));
        [|discriminate].
      cbn [mbind option_bind]. intros [= <-]. eexists.
      split; [reflexivity|cbn; lia].
    + destruct (action =? GLFW_RELEASE);
        [|intros [= <-]; exists []; rewrite app_nil_r; split;
          [reflexivity|cbn; lia]].
      destruct (to_size_t index <? Z.of_nat (length (keyboardKeys s)));
        [|discriminate].
      intros [= <-]. exists []. rewrite app_nil_r.
      split; [reflexivity|cbn; lia].
  - intros [= <-]. unfold FullBoard.mouse_button_callback.
    destruct (button =? GLFW_MOUSE_BUTTON_LEFT).
    + destruct (action =? GLFW_PRESS).
      * pose proof (press_first_spawned x y
                      (keyboardKeys (set_g_leftMouseDown true s)) 0) as Hsp.
        destruct (FullBoard.press_first x y 0
                    (keyboardKeys (set_g_leftMouseDown true s))) as [ks sp].
        exists sp. split; [reflexivity|exact Hsp].
      * destruct (action =? GLFW_RELEASE);
          exists []; rewrite app_nil_r; split; try reflexivity; cbn; lia.
    + destruct (button =? GLFW_MOUSE_BUTTON_RIGHT);
        [destruct (action =? GLFW_PRESS)|];
        exists []; rewrite app_nil_r; split; try reflexivity; cbn; lia.
  - intros [= <-]. unfold FullBoard.cursor_position_callback.
    destruct (g_leftMouseDown s);
      [|exists []; rewrite app_nil_r; split; [reflexivity|cbn; lia]].
    pose proof (drag_keys_spawned_length x y (keyboardKeys s) 0) as Hsp.
    destruct (FullBoard.drag_keys x y 0 (keyboardKeys s)) as [ks sp].
    exists sp. split; [reflexivity|exact Hsp].
  - intros [= <-]. exists []. rewrite app_nil_r.
    split; [reflexivity|cbn; lia].
Qed.

End RunClicks.

(** X22.  Sound threads are only ever added, and a run adds few: after
    any run of events the threads spawned before it are still the first
    ones, in the same order, and the run has added at most one thread for
    each key press event and each press of the left button, at most one
    for each key of the board for each cursor event, and none for
    frames, releases and the right button. *)
Theorem run_only_adds_sounds (es : list Event) (s s' : World) :
  FullBoardLoop.run es s = Some s' →
  ∃ added,
    clicks s' = clicks s ++ added
    ∧ (length added
       ≤ sum_list (sound_budget (length (keyboardKeys s)) <$> es))%nat.
Proof.
  revert s. induction es as [|e es IH]; intros s.
  - intros [= <-]. exists []. rewrite app_nil_r. split; [reflexivity|cbn; lia].
  - cbn [FullBoardLoop.run].
    destruct (FullBoardLoop.handle e s) as [s1|] eqn:H1; [|discriminate].
    cbn [mbind option_bind]. intros Hr.
    destruct (handle_clicks e s s1 H1) as (l & Hl & Hlen).
    destruct (handle_fixed e s s1 H1) as [_ Hk].
    apply (f_equal length) in Hk. rewrite !length_fmap in Hk.
    destruct (IH s1 Hr) as (l' & Hl' & Hlen'). rewrite Hk in Hlen'.
    exists (l ++ l'). split.
    + rewrite Hl', Hl, app_assoc. reflexivity.
    + rewrite length_app. apply Nat.add_le_mono; [exact Hlen|exact Hlen'].
Qed.

Lemma run_only_adds_sounds_witness :
  let s' := FullBoard.cursor_position_callback (F64.of_Z 20) (F64.of_Z 5)
              (FullBoardLoop.frame (F32.lit 16 1000) drag_world) in
  ∃ added, clicks s' = clicks drag_world ++ added ∧ (length added ≤ 2)%nat.
Proof.
  apply (run_only_adds_sounds
           [ FrameEvent (F32.lit 16 1000);
             CursorPosEvent (F64.of_Z 20) (F64.of_Z 5) ] drag_world).
  reflexivity.
Defined.

(** ** Runs of the compact board *)

Section CompactRuns.

Lemma compact_updateAndDraw_keys (deltaTime : float) (ks : list Key) :
  fst (CompactLoop.updateAndDraw deltaTime ks)
  = map (λ k, updateKeyAnimation k deltaTime) ks.
Proof.
  induction ks as [|k rest IH]; [reflexivity|].
  cbn [CompactLoop.updateAndDraw map].
  destruct (CompactLoop.updateAndDraw deltaTime rest) as [rest' drawn'].
  cbn [fst] in *. rewrite IH. reflexivity.
Qed.

Lemma compact_keyCallback_untouched {B : Type} (g : Key → B)
    (key action : Z) (s : World) :
  (∀ b k, g (set_isPressed b k) = g k) →
  g <$> keyboardKeys (Compact.keyCallback key action s) = g <$> keyboardKeys s
  ∧ glfwKeyToIndex (Compact.keyCallback key action s) = glfwKeyToIndex s.
Proof.
  intros Hg. unfold Compact.keyCallback.
  destruct (glfwKeyToIndex s !! key) as [index|]; [|split; reflexivity].
  destruct (to_size_t index <? Z.of_nat (length (keyboardKeys s)));
    [|split; reflexivity].
  destruct (action =? GLFW_PRESS).
  - cbn [keyboardKeys glfwKeyToIndex spawn_click set_keyboardKeys].
    rewrite (alter_isPressed_untouched g Hg). split; reflexivity.
  - destruct (action =? GLFW_RELEASE); [|split; reflexivity].
    cbn [keyboardKeys glfwKeyToIndex set_keyboardKeys].
    rewrite (alter_isPressed_untouched g Hg). split; reflexivity.
Qed.

Lemma compact_handle_in_range (e : Event) (s : World) :
  forallb (F32.leb f32_zero) (frame_times [e]) = true →
  keys_in_range s → keys_in_range (CompactLoop.handle e s).
Proof.
  unfold keys_in_range.
  destruct e as [key action|x y button action|x y|dt];
    cbn [CompactLoop.handle]; try (intros _ H; exact H).
  - intros _.
    destruct (compact_keyCallback_untouched pressAnim key action s
                pressAnim_isPressed) as (-> & _). auto.
  - intros Hd. cbn in Hd. rewrite andb_true_r in Hd.
    apply nonneg_iff in Hd.
    unfold CompactLoop.frame. cbn [keyboardKeys set_keyboardKeys].
    rewrite compact_updateAndDraw_keys.
    induction (keyboardKeys s) as [|k rest IH];
      [intros _; apply Forall_nil_2|].
    cbn [map fmap list_fmap]. intros H.
    apply Forall_cons in H. destruct H as [Hk Hrest].
    apply Forall_cons. split; [|apply IH, Hrest].
    apply updateKeyAnimation_in_range; assumption.
Qed.

Lemma compact_handle_fixed (e : Event) (s : World) :
  fixed_part <$> keyboardKeys (CompactLoop.handle e s)
  = fixed_part <$> keyboardKeys s
  ∧ glfwKeyToIndex (CompactLoop.handle e s) = glfwKeyToIndex s.
Proof.
  destruct e as [key action|x y button action|x y|dt];
    cbn [CompactLoop.handle]; try (split; reflexivity).
  - apply compact_keyCallback_untouched. apply fixed_part_isPressed.
  - unfold CompactLoop.frame. cbn [keyboardKeys set_keyboardKeys glfwKeyToIndex].
    rewrite compact_updateAndDraw_keys. split; [|reflexivity].
    induction (keyboardKeys s) as [|k rest IH]; [reflexivity|].
    cbn [map fmap list_fmap] in *.
    rewrite updateKeyAnimation_frame, fixed_part_pressAnim, IH. reflexivity.
Qed.

Lemma compact_run_inv (es : list Event) :
  ∀ s, forallb (F32.leb f32_zero) (frame_times es) = true →
       keys_in_range s →
       keys_in_range (CompactLoop.run es s)
       ∧ fixed_part <$> keyboardKeys (CompactLoop.run es s)
         = fixed_part <$> keyboardKeys s
       ∧ glfwKeyToIndex (CompactLoop.run es s) = glfwKeyToIndex s.
Proof.
  induction es as [|e es IH]; intros s Hd Hin.
  - split; [exact Hin|split; reflexivity].
  - change (e :: es) with ([e] ++ es) in Hd.
    unfold frame_times in Hd. rewrite omap_app, forallb_app in Hd.
    apply andb_prop in Hd. destruct Hd as [Hd1 Hd2].
    change (CompactLoop.run (e :: es) s)
      with (CompactLoop.run es (CompactLoop.handle e s)).
    destruct (IH (CompactLoop.handle e s) Hd2
                 (compact_handle_in_range e s Hd1 Hin)) as (H1 & H2 & H3).
    destruct (compact_handle_fixed e s) as [H4 H5].
    split; [exact H1|]. split; [rewrite H2; exact H4|rewrite H3; exact H5].
Qed.

End CompactRuns.

(** X23.  The compact board, from the layout that [initKeyboard] builds:
    along every run of key events and frames whose [deltaTime] is not
    below zero, the press value of every key stays a well-formed float
    between [0.0f] and [0.5f], and the lookup and the label, position and
    size of every key stay those of the layout. *)
Theorem compact_run_keeps_range (es : list Event) (s0 : World) :
  forallb (F32.leb f32_zero) (frame_times es) = true →
  let s := Compact.initKeyboard s0 in
  let s' := CompactLoop.run es s in
  Forall (λ k, in_range (pressAnim k)) (keyboardKeys s')
  ∧ fixed_part <$> keyboardKeys s' = fixed_part <$> keyboardKeys s
  ∧ glfwKeyToIndex s' = glfwKeyToIndex s.
Proof.
  intros Hd s s'. subst s s'.
  assert (keys_in_range (Compact.initKeyboard s0)) as Hin.
  { unfold keys_in_range. rewrite compact_keys_fixed.
    assert (pressAnim <$> keyboardKeys (Compact.initKeyboard start_world)
            = replicate 48 f32_zero) as -> by (vm_compute; reflexivity).
    apply Forall_replicate, in_range_zero. }
  destruct (compact_run_inv es _ Hd Hin) as (H1 & H2 & H3).
  split; [|split; assumption].
  change (Forall (in_range ∘ pressAnim)
            (keyboardKeys (CompactLoop.run es (Compact.initKeyboard s0)))).
  apply Forall_fmap. exact H1.
Qed.

Lemma compact_run_keeps_range_witness :
  let es := [ KeyEvent GLFW_KEY_Q GLFW_PRESS; FrameEvent (F32.lit 16 1000);
              FrameEvent (F32.lit 5 10); KeyEvent GLFW_KEY_Q GLFW_RELEASE;
              FrameEvent (F32.lit 16 1000) ] in
  let s := Compact.initKeyboard start_world in
  let s' := CompactLoop.run es s in
  Forall (λ k, in_range (pressAnim k)) (keyboardKeys s')
  ∧ fixed_part <$> keyboardKeys s' = fixed_part <$> keyboardKeys s
  ∧ glfwKeyToIndex s' = glfwKeyToIndex s.
Proof.
  apply (compact_run_keeps_range
           [ KeyEvent GLFW_KEY_Q GLFW_PRESS; FrameEvent (F32.lit 16 1000);
             FrameEvent (F32.lit 5 10); KeyEvent GLFW_KEY_Q GLFW_RELEASE;
             FrameEvent (F32.lit 16 1000) ] start_world).
  vm_compute. reflexivity.
Defined.

(** ** Sums and differences that are exact *)

Section ExactRounding.

Lemma shr_1_even (a : Z) :
  0 ≤ a →
  shr_1 (Build_shr_record (2 * a) false false) = Build_shr_record a false false.
Proof. destruct a as [|p|p]; intros H; reflexivity. Qed.

Lemma iter_shr_1_exact (n : positive) :
  ∀ a : Z,
    0 ≤ a →
    SpecFloat.iter_pos shr_1 n (Build_shr_record (a * 2 ^ Z.pos n) false false)
    = Build_shr_record a false false.
Proof.
  assert (∀ a : Z,
            0 ≤ a →
            Pos.iter shr_1 (Build_shr_record (a * 2 ^ Z.pos n) false false) n
            = Build_shr_record a false false) as H.
  { induction n as [|n IH] using Pos.peano_ind; intros a Ha.
    - cbn [Pos.iter]. replace (a * 2 ^ 1) with (2 * a) by lia.
      apply shr_1_even, Ha.
    - rewrite Pos.iter_succ, Pos2Z.inj_succ, Z.pow_succ_r by lia.
      replace (a * (2 * 2 ^ Z.pos n)) with (2 * a * 2 ^ Z.pos n) by lia.
      rewrite IH by lia. apply shr_1_even, Ha. }
  intros a Ha. rewrite iter_pos_iter. apply H, Ha.
Qed.

(** A mantissa that is a well-formed one scaled by a power of two is
    cut back to it, and nothing is rounded. *)
Lemma shr_fexp_exact (mq : positive) (eq e : Z) :
  canonical_mantissa F32.prec F32.emax mq eq = true →
  e ≤ eq →
  shr_fexp F32.prec F32.emax (Z.pos mq * 2 ^ (eq - e)) e loc_Exact
  = (Build_shr_record (Z.pos mq) false false, eq).
Proof.
  intros Hc He. unfold shr_fexp, shr.
  rewrite Zdigits2_mul_pow2 by lia.
  replace (Z.pos (digits2_pos mq) + (eq - e) + e)
    with (Z.pos (digits2_pos mq) + eq) by lia.
  rewrite (canonical_fexp mq eq Hc).
  destruct (eq - e) as [|p|p] eqn:Hd; try lia.
  - cbn [shr_record_of_loc]. f_equal; [f_equal|]; lia.
  - cbn [shr_record_of_loc]. rewrite iter_shr_1_exact by lia. f_equal. lia.
Qed.

Lemma binary_round_aux_exact (s : bool) (mq : positive) (eq e : Z) :
  canonical_mantissa F32.prec F32.emax mq eq = true →
  eq ≤ F32.emax - F32.prec →
  e ≤ eq →
  binary_round_aux F32.prec F32.emax s (Z.pos mq * 2 ^ (eq - e)) e loc_Exact
  = S754_finite s mq eq.
Proof.
  intros Hc Hb He. unfold binary_round_aux.
  rewrite (shr_fexp_exact mq eq e Hc He).
  cbn [shr_m loc_of_shr_record round_nearest_even].
  pose proof (shr_fexp_exact mq eq eq Hc ltac:(lia)) as H2.
  rewrite Z.sub_diag, Z.mul_1_r in H2. rewrite H2. cbn [shr_m].
  replace (eq <=? F32.emax - F32.prec) with true
    by (symmetry; apply Z.leb_le; exact Hb).
  reflexivity.
Qed.

(** Rounding a value that a well-formed float has gives that float. *)
Lemma binary_round_exact (s : bool) (m : positive) (e : Z) (mq : positive)
    (eq : Z) :
  canonical_mantissa F32.prec F32.emax mq eq = true →
  eq ≤ F32.emax - F32.prec →
  (e ≤ eq ∧ Z.pos m = Z.pos mq * 2 ^ (eq - e))
  ∨ (eq ≤ e ∧ Z.pos mq = Z.pos m * 2 ^ (e - eq)) →
  binary_round F32.prec F32.emax s m e = S754_finite s mq eq.
Proof.
  intros Hc Hb Hv. unfold binary_round.
  assert (fexp F32.prec F32.emax (Z.pos (digits2_pos m) + e) = eq) as ->.
  { rewrite <- (canonical_fexp mq eq Hc). f_equal.
    destruct Hv as [[He Hm]|[He Hm]].
    - pose proof (Zdigits2_mul_pow2 mq (eq - e) ltac:(lia)) as Hd.
      rewrite <- Hm in Hd. cbn [Zdigits2] in Hd. lia.
    - pose proof (Zdigits2_mul_pow2 m (e - eq) ltac:(lia)) as Hd.
      rewrite <- Hm in Hd. cbn [Zdigits2] in Hd. lia. }
  pose proof (shl_align_spec m e eq) as Hs.
  destruct (shl_align m e eq) as [mz ez]. destruct Hs as [Hez Hmz].
  destruct Hv as [[He Hm]|[He Hm]].
  - replace ez with e in * by lia. rewrite Z.sub_diag, Z.mul_1_r in Hmz.
    rewrite Hmz, Hm. apply binary_round_aux_exact; assumption.
  - replace ez with eq in * by lia. rewrite Hmz, <- Hm.
    pose proof (binary_round_aux_exact s mq eq eq Hc Hb ltac:(lia)) as H.
    rewrite Z.sub_diag, Z.mul_1_r in H. exact H.
Qed.

(** Rounding a positive number of halves below [2^24], with either sign:
    the mantissa is brought to 24 bits and nothing is lost. *)
Lemma round_half (p : positive) :
  Z.pos p < 2 ^ 24 →
  ∃ (mq : positive) (eq : Z),
    (∀ s, binary_round F32.prec F32.emax s p (-1) = S754_finite s mq eq)
    ∧ canonical_mantissa F32.prec F32.emax mq eq = true
    ∧ -25 < eq ≤ -1
    ∧ Z.pos mq = Z.pos p * 2 ^ (-1 - eq)
    ∧ 2 ^ 23 ≤ Z.pos mq < 2 ^ 24.
Proof.
  intros Hn.
  pose proof (Zdigits2_lower (Z.pos p) ltac:(lia)) as Hlo.
  pose proof (Zdigits2_upper (Z.pos p) ltac:(lia)) as Hhi.
  pose proof (Zdigits2_lt (Z.pos p) 24 ltac:(lia) ltac:(lia)) as Hd.
  assert (1 ≤ Zdigits2 (Z.pos p)) as Hd1.
  { pose proof (Zdigits2_ge (Z.pos p) 0 ltac:(simpl; lia)). lia. }
  set (d := Zdigits2 (Z.pos p)) in *.
  assert (0 < 2 ^ (24 - d)) as Hpow by (apply Z.pow_pos_nonneg; lia).
  destruct (Z.pos p * 2 ^ (24 - d)) as [|mq|mq] eqn:Hmq; try lia.
  assert (2 ^ 23 ≤ Z.pos mq < 2 ^ 24) as Hrange.
  { rewrite <- Hmq. split.
    - replace 23 with ((d - 1) + (24 - d)) by lia.
      rewrite Z.pow_add_r by lia. nia.
    - replace 24 with (d + (24 - d)) at 2 by lia.
      rewrite Z.pow_add_r by lia. nia. }
  assert (canonical_mantissa F32.prec F32.emax mq (d - 25) = true) as Hc.
  { apply canonical_mantissa_iff. lia. }
  exists mq, (d - 25). split; [|split; [exact Hc|split; [lia|split]]].
  - intros s.
    apply binary_round_exact; [exact Hc|unfold F32.emax, F32.prec; lia|].
    right. split; [lia|]. rewrite <- Hmq. f_equal. f_equal. lia.
  - rewrite <- Hmq. f_equal. f_equal. lia.
  - exact Hrange.
Qed.

(** The float of a positive number of halves below [2^24]. *)
Lemma hf_finite (n : Z) :
  0 < n < 2 ^ 24 →
  ∃ (mq : positive) (eq : Z),
    hf n = S754_finite false mq eq
    ∧ canonical_mantissa F32.prec F32.emax mq eq = true
    ∧ -25 < eq ≤ -1
    ∧ Z.pos mq = n * 2 ^ (-1 - eq)
    ∧ 2 ^ 23 ≤ Z.pos mq < 2 ^ 24.
Proof.
  intros Hn. destruct n as [|p|p]; try lia.
  destruct (round_half p ltac:(lia)) as (mq & eq & Hr & Hrest).
  exists mq, eq. split; [exact (Hr false)|exact Hrest].
Qed.

(** The float of a number of halves of either sign, zero apart: it has the
    sign of the number and the mantissa of its absolute value. *)
Lemma hf_signed (n : Z) :
  n ≠ 0 → - 2 ^ 24 < n < 2 ^ 24 →
  ∃ (mq : positive) (eq : Z),
    hf n = S754_finite (n <? 0) mq eq
    ∧ canonical_mantissa F32.prec F32.emax mq eq = true
    ∧ -25 < eq ≤ -1
    ∧ Z.pos mq = Z.abs n * 2 ^ (-1 - eq)
    ∧ 2 ^ 23 ≤ Z.pos mq < 2 ^ 24.
Proof.
  intros Hne Hn. destruct n as [|p|p]; [congruence| |].
  - destruct (round_half p ltac:(lia)) as (mq & eq & Hr & Hrest).
    exists mq, eq. split; [exact (Hr false)|exact Hrest].
  - destruct (round_half p ltac:(lia)) as (mq & eq & Hr & Hrest).
    exists mq, eq. split; [exact (Hr true)|exact Hrest].
Qed.

Lemma hf_zero : hf 0 = S754_zero false.
Proof. reflexivity. Qed.

Lemma hf_opp (n : Z) :
  n ≠ 0 → - 2 ^ 24 < n < 2 ^ 24 → hf (- n) = SFopp (hf n).
Proof.
  intros Hne Hn. destruct n as [|p|p]; [congruence| |];
    destruct (round_half p ltac:(lia)) as (mq & eq & Hr & _).
  - change (hf (- Z.pos p)) with (binary_round F32.prec F32.emax true p (-1)).
    change (hf (Z.pos p)) with (binary_round F32.prec F32.emax false p (-1)).
    rewrite !Hr. reflexivity.
  - change (hf (- Z.neg p)) with (binary_round F32.prec F32.emax false p (-1)).
    change (hf (Z.neg p)) with (binary_round F32.prec F32.emax true p (-1)).
    rewrite !Hr. reflexivity.
Qed.

Lemma cond_Zopp_abs (n x : Z) :
  cond_Zopp (n <? 0) (Z.abs n * x) = n * x.
Proof.
  destruct (Z.ltb_spec n 0); cbn [cond_Zopp];
    [rewrite Z.abs_neq by lia|rewrite Z.abs_eq by lia]; lia.
Qed.

(** A number of halves written at a lower exponent normalizes to its
    float. *)
Lemma normalize_half (n ez : Z) :
  - 2 ^ 24 < n < 2 ^ 24 → ez ≤ -1 →
  binary_normalize F32.prec F32.emax (n * 2 ^ (-1 - ez)) ez false = hf n.
Proof.
  intros Hn Hez.
  destruct (Z.eq_dec n 0) as [->|Hne]; [reflexivity|].
  destruct (hf_signed n Hne Hn) as (mq & eq & Hf & Hc & Heq & Hmq & _).
  rewrite Hf.
  assert (0 < 2 ^ (-1 - ez)) as Hpow by (apply Z.pow_pos_nonneg; lia).
  assert (Z.abs n * 2 ^ (-1 - ez) = Z.abs (n * 2 ^ (-1 - ez))) as Habs
    by (rewrite Z.abs_mul, (Z.abs_eq (2 ^ _)) by lia; reflexivity).
  assert (0 < Z.abs n * 2 ^ (-1 - ez)) as Hpos
    by (apply Z.mul_pos_pos; lia).
  assert (∀ m : positive,
            Z.pos m = Z.abs n * 2 ^ (-1 - ez) →
            ∀ s, binary_round F32.prec F32.emax s m ez = S754_finite s mq eq)
    as Hround.
  { intros m Hm s.
    apply binary_round_exact; [exact Hc|unfold F32.emax, F32.prec; lia|].
    destruct (Z_le_gt_dec ez eq) as [Hle|Hgt].
    - left. split; [exact Hle|].
      rewrite Hm, Hmq, <- Z.mul_assoc, <- Z.pow_add_r by lia.
      f_equal. f_equal. lia.
    - right. split; [lia|].
      rewrite Hm, Hmq, <- Z.mul_assoc, <- Z.pow_add_r by lia.
      f_equal. f_equal. lia. }
  destruct (Z.ltb_spec n 0) as [Hneg|Hnn].
  - assert (n * 2 ^ (-1 - ez) < 0) as Hlt by (apply Z.mul_neg_pos; lia).
    destruct (n * 2 ^ (-1 - ez)) as [|m|m] eqn:Hm; try lia.
    cbn [binary_normalize]. apply Hround. rewrite Habs. reflexivity.
  - assert (0 < n * 2 ^ (-1 - ez)) as Hgt by (apply Z.mul_pos_pos; lia).
    destruct (n * 2 ^ (-1 - ez)) as [|m|m] eqn:Hm; try lia.
    cbn [binary_normalize]. apply Hround. rewrite Habs. reflexivity.
Qed.

Lemma add_signed (sa sb : bool) (ma mb : positive) (ea eb : Z) :
  F32.add (S754_finite sa ma ea) (S754_finite sb mb eb)
  = binary_normalize F32.prec F32.emax
      (cond_Zopp sa (Z.pos ma * 2 ^ (ea - Z.min ea eb))
       + cond_Zopp sb (Z.pos mb * 2 ^ (eb - Z.min ea eb)))
      (Z.min ea eb) false.
Proof.
  unfold F32.add, SFadd.
  pose proof (shl_align_spec ma ea (Z.min ea eb)) as Ha.
  pose proof (shl_align_spec mb eb (Z.min ea eb)) as Hb.
  destruct (shl_align ma ea (Z.min ea eb)) as [a ea'].
  destruct (shl_align mb eb (Z.min ea eb)) as [b eb'].
  destruct Ha as [Hea Ha], Hb as [Heb Hb].
  cbn [fst]. rewrite Ha, Hb.
  replace (ea - ea') with (ea - Z.min ea eb) by lia.
  replace (eb - eb') with (eb - Z.min ea eb) by lia.
  reflexivity.
Qed.

Lemma sub_signed (sa sb : bool) (ma mb : positive) (ea eb : Z) :
  F32.sub (S754_finite sa ma ea) (S754_finite sb mb eb)
  = binary_normalize F32.prec F32.emax
      (cond_Zopp sa (Z.pos ma * 2 ^ (ea - Z.min ea eb))
       - cond_Zopp sb (Z.pos mb * 2 ^ (eb - Z.min ea eb)))
      (Z.min ea eb) false.
Proof.
  unfold F32.sub, SFsub.
  pose proof (shl_align_spec ma ea (Z.min ea eb)) as Ha.
  pose proof (shl_align_spec mb eb (Z.min ea eb)) as Hb.
  destruct (shl_align ma ea (Z.min ea eb)) as [a ea'].
  destruct (shl_align mb eb (Z.min ea eb)) as [b eb'].
  destruct Ha as [Hea Ha], Hb as [Heb Hb].
  cbn [fst]. rewrite Ha, Hb.
  replace (ea - ea') with (ea - Z.min ea eb) by lia.
  replace (eb - eb') with (eb - Z.min ea eb) by lia.
  reflexivity.
Qed.

(** A float of halves, as the number of halves at a lower exponent. *)
Lemma halves_at (n : Z) (mq : positive) (eq ez : Z) :
  Z.pos mq = Z.abs n * 2 ^ (-1 - eq) → ez ≤ eq → eq ≤ -1 →
  cond_Zopp (n <? 0) (Z.pos mq * 2 ^ (eq - ez)) = n * 2 ^ (-1 - ez).
Proof.
  intros Hmq Hle Heq.
  rewrite Hmq, <- Z.mul_assoc, <- Z.pow_add_r by lia.
  replace (-1 - eq + (eq - ez)) with (-1 - ez) by lia.
  apply cond_Zopp_abs.
Qed.

(** Sums of halves are exact. *)
Lemma add_hf (a b : Z) :
  - 2 ^ 24 < a < 2 ^ 24 → - 2 ^ 24 < b < 2 ^ 24 →
  - 2 ^ 24 < a + b < 2 ^ 24 →
  (hf a + hf b)%f32 = hf (a + b).
Proof.
  intros Ha Hb Hab.
  destruct (Z.eq_dec a 0) as [->|Ha0].
  { rewrite hf_zero, Z.add_0_l.
    destruct (Z.eq_dec b 0) as [->|Hb0]; [reflexivity|].
    destruct (hf_signed b Hb0 Hb) as (mb & eb & -> & _). reflexivity. }
  destruct (hf_signed a Ha0 Ha) as (ma & ea & Hfa & _ & Hea & Hma & _).
  destruct (Z.eq_dec b 0) as [->|Hb0].
  { rewrite hf_zero, Z.add_0_r, Hfa. reflexivity. }
  destruct (hf_signed b Hb0 Hb) as (mb & eb & Hfb & _ & Heb & Hmb & _).
  rewrite Hfa, Hfb, add_signed.
  rewrite (halves_at a ma ea _ Hma) by lia.
  rewrite (halves_at b mb eb _ Hmb) by lia.
  rewrite <- Z.mul_add_distr_r.
  apply normalize_half; [exact Hab|lia].
Qed.

(** Differences of halves are exact. *)
Lemma sub_hf (a b : Z) :
  - 2 ^ 24 < a < 2 ^ 24 → - 2 ^ 24 < b < 2 ^ 24 →
  - 2 ^ 24 < a - b < 2 ^ 24 →
  (hf a - hf b)%f32 = hf (a - b).
Proof.
  intros Ha Hb Hab.
  destruct (Z.eq_dec b 0) as [->|Hb0].
  { rewrite hf_zero, Z.sub_0_r. apply sub_plus_zero. }
  destruct (hf_signed b Hb0 Hb) as (mb & eb & Hfb & _ & Heb & Hmb & _).
  destruct (Z.eq_dec a 0) as [->|Ha0].
  { rewrite Z.sub_0_l, (hf_opp b Hb0 Hb), hf_zero, Hfb. reflexivity. }
  destruct (hf_signed a Ha0 Ha) as (ma & ea & Hfa & _ & Hea & Hma & _).
  rewrite Hfa, Hfb, sub_signed.
  rewrite (halves_at a ma ea _ Hma) by lia.
  rewrite (halves_at b mb eb _ Hmb) by lia.
  rewrite <- Z.mul_sub_distr_r.
  apply normalize_half; [exact Hab|lia].
Qed.

End ExactRounding.

(** ** The order of floats *)

Section FloatOrder.

Ltac compare_cases :=
  repeat match goal with
         | |- context [Pos.compare_cont Eq ?p ?q] =>
             change (Pos.compare_cont Eq p q) with (Pos.compare p q)
         | H : context [Pos.compare_cont Eq ?p ?q] |- _ =>
             change (Pos.compare_cont Eq p q) with (Pos.compare p q) in H
         end;
  repeat match goal with
         | H : context [Z.compare ?a ?b] |- _ =>
             destruct (Z.compare_spec a b); cbn [CompOpp] in *
         | |- context [Z.compare ?a ?b] =>
             destruct (Z.compare_spec a b); cbn [CompOpp] in *
         | H : context [Pos.compare ?a ?b] |- _ =>
             destruct (Pos.compare_spec a b); cbn [CompOpp] in *
         | |- context [Pos.compare ?a ?b] =>
             destruct (Pos.compare_spec a b); cbn [CompOpp] in *
         end;
  try reflexivity; try discriminate; try lia.

(** The comparison of [SpecFloat] is transitive, on all floats. *)
Lemma leb_trans (a x b : float) :
  SFleb a x = true → SFleb x b = true → SFleb a b = true.
Proof.
  unfold SFleb.
  destruct a as [sa|sa| |sa ma ea], x as [sx|sx| |sx mx ex],
           b as [sb|sb| |sb mb eb];
    try destruct sa; try destruct sx; try destruct sb;
    cbn [SFcompare]; intros H1 H2;
    try reflexivity; try discriminate H1; try discriminate H2;
    compare_cases.
Qed.

Lemma ltb_finite (m1 m2 : positive) (e1 e2 : Z) :
  e1 < e2 ∨ (e1 = e2 ∧ Z.pos m1 < Z.pos m2) →
  SFltb (S754_finite false m1 e1) (S754_finite false m2 e2) = true.
Proof. unfold SFltb. cbn [SFcompare]. intros H. compare_cases. Qed.

Lemma ltb_finite_neg (m1 m2 : positive) (e1 e2 : Z) :
  e2 < e1 ∨ (e1 = e2 ∧ Z.pos m2 < Z.pos m1) →
  SFltb (S754_finite true m1 e1) (S754_finite true m2 e2) = true.
Proof. unfold SFltb. cbn [SFcompare]. intros H. compare_cases. Qed.

(** No cursor coordinate lies in two intervals one of which ends before
    the other begins. *)
Lemma not_in_both (l1 r1 l2 r2 x : double) :
  F64.ltb r1 l2 = true →
  F64.leb l1 x && F64.leb x r1 = true →
  F64.leb l2 x && F64.leb x r2 = false.
Proof.
  intros Hlt H1. apply andb_prop in H1. destruct H1 as [_ Hxr].
  destruct (F64.leb l2 x) eqn:Hlx; [|reflexivity].
  pose proof (leb_trans l2 x r1 Hlx Hxr) as Hle.
  apply leb_not_gtb in Hle. unfold F32.ltb, F64.ltb in *.
  rewrite Hle in Hlt. discriminate Hlt.
Qed.

End FloatOrder.

(** ** Halves as [double]s *)

Section HalvesAsDoubles.

(** A normal [float] converts to the [double] of the same value: the
    mantissa gains 29 bits. *)
Lemma of_float_normal (s : bool) (m : positive) (e : Z) :
  2 ^ 23 ≤ Z.pos m < 2 ^ 24 → -149 ≤ e ≤ 104 →
  ∃ mz, F64.of_float (S754_finite s m e) = S754_finite s mz (e - 29)
        ∧ Z.pos mz = Z.pos m * 2 ^ 29.
Proof.
  intros Hm He. unfold F64.of_float, binary_round.
  assert (Z.pos (digits2_pos m) = 24) as Hd.
  { pose proof (Zdigits2_ge (Z.pos m) 23 ltac:(lia)) as H1.
    pose proof (Zdigits2_lt (Z.pos m) 24 ltac:(lia) ltac:(lia)) as H2.
    cbn [Zdigits2] in H1, H2. lia. }
  rewrite Hd.
  assert (fexp F64.prec F64.emax (24 + e) = e - 29) as ->.
  { unfold fexp, emin, F64.prec, F64.emax. lia. }
  pose proof (shl_align_spec m e (e - 29)) as Hs.
  destruct (shl_align m e (e - 29)) as [mz ez]. destruct Hs as [Hez Hmz].
  replace ez with (e - 29) in * by lia.
  replace (e - (e - 29)) with 29 in Hmz by lia.
  exists mz. split; [|exact Hmz].
  assert (Zdigits2 (Z.pos mz) = 53) as Hdz.
  { rewrite Hmz, Zdigits2_mul_pow2 by lia. lia. }
  assert (shr_fexp F64.prec F64.emax (Z.pos mz) (e - 29) loc_Exact
          = (Build_shr_record (Z.pos mz) false false, e - 29)) as Hsh.
  { unfold shr_fexp, shr. rewrite Hdz.
    assert (fexp F64.prec F64.emax (53 + (e - 29)) - (e - 29) = 0) as ->.
    { unfold fexp, emin, F64.prec, F64.emax. lia. }
    reflexivity. }
  unfold binary_round_aux. rewrite Hsh.
  cbn [shr_m loc_of_shr_record round_nearest_even]. rewrite Hsh.
  cbn [shr_m].
  replace (e - 29 <=? F64.emax - F64.prec) with true; [reflexivity|].
  symmetry. apply Z.leb_le. unfold F64.emax, F64.prec. lia.
Qed.

(** Of two positive numbers of halves the larger has the larger exponent,
    or the same exponent and the larger mantissa. *)
Lemma hf_order (a b : Z) (ma mb : positive) (ea eb : Z) :
  0 < a → a < b →
  -25 < ea ≤ -1 → -25 < eb ≤ -1 →
  Z.pos ma = a * 2 ^ (-1 - ea) → Z.pos mb = b * 2 ^ (-1 - eb) →
  2 ^ 23 ≤ Z.pos ma < 2 ^ 24 → 2 ^ 23 ≤ Z.pos mb < 2 ^ 24 →
  ea < eb ∨ (ea = eb ∧ Z.pos ma < Z.pos mb).
Proof.
  intros Ha Hab Hea Heb Hma Hmb Hra Hrb.
  assert (0 < 2 ^ (-1 - ea)) by (apply Z.pow_pos_nonneg; lia).
  assert (0 < 2 ^ (-1 - eb)) by (apply Z.pow_pos_nonneg; lia).
  destruct (Z_lt_le_dec eb ea) as [Hlt|Hle].
  - (* a smaller exponent for the larger number cannot be *)
    exfalso.
    assert (Z.pos mb = b * 2 ^ (-1 - ea) * 2 ^ (ea - eb)) as Hmb'.
    { rewrite Hmb, <- Z.mul_assoc, <- Z.pow_add_r by lia.
      f_equal. f_equal. lia. }
    assert (2 ^ 1 ≤ 2 ^ (ea - eb)) as Ht by (apply Z.pow_le_mono_r; lia).
    change (2 ^ 1) with 2 in Ht.
    set (k := 2 ^ (-1 - ea)) in *. set (t := 2 ^ (ea - eb)) in *.
    assert (a * k < b * k) by (apply Z.mul_lt_mono_pos_r; lia).
    assert (b * k * 2 ≤ b * k * t) by (apply Z.mul_le_mono_nonneg_l; lia).
    change (2 ^ 23) with 8388608 in *. change (2 ^ 24) with 16777216 in *.
    lia.
  - destruct (Z.eq_dec ea eb) as [Heq|Hne]; [|left; lia].
    right. split; [exact Heq|]. rewrite Hma, Hmb, Heq.
    apply Z.mul_lt_mono_pos_r; lia.
Qed.

(** The order of the halves is the order of their [double]s. *)
Lemma of_float_hf_lt (a b : Z) :
  - 2 ^ 24 < a → a < b → b < 2 ^ 24 →
  F64.ltb (F64.of_float (hf a)) (F64.of_float (hf b)) = true.
Proof.
  intros Ha Hab Hb.
  destruct (Z.eq_dec a 0) as [->|Ha0].
  { destruct (hf_signed b ltac:(lia) ltac:(lia))
      as (mb & eb & Hfb & _ & Heb & Hmb & Hrb).
    destruct (of_float_normal (b <? 0) mb eb Hrb ltac:(lia))
      as (zb & Hzb & Hmzb).
    rewrite Hfb, Hzb. destruct (Z.ltb_spec b 0); [lia|reflexivity]. }
  destruct (hf_signed a Ha0 ltac:(lia))
    as (ma & ea & Hfa & _ & Hea & Hma & Hra).
  destruct (of_float_normal (a <? 0) ma ea Hra ltac:(lia))
    as (za & Hza & Hmza).
  rewrite Hfa, Hza.
  destruct (Z.eq_dec b 0) as [->|Hb0].
  { destruct (Z.ltb_spec a 0); [reflexivity|lia]. }
  destruct (hf_signed b Hb0 ltac:(lia))
    as (mb & eb & Hfb & _ & Heb & Hmb & Hrb).
  destruct (of_float_normal (b <? 0) mb eb Hrb ltac:(lia))
    as (zb & Hzb & Hmzb).
  rewrite Hfb, Hzb.
  assert (0 < 2 ^ 29) as H29 by reflexivity.
  destruct (Z.ltb_spec a 0) as [Han|Hap], (Z.ltb_spec b 0) as [Hbn|Hbp];
    try lia.
  - (* both below zero: the larger absolute value is the smaller *)
    rewrite Z.abs_neq in Hma, Hmb by lia.
    destruct (hf_order (- b) (- a) mb ma eb ea ltac:(lia) ltac:(lia)
                Heb Hea Hmb Hma Hrb Hra) as [Hlt|[Heq Hlt]].
    + apply ltb_finite_neg. left. lia.
    + apply ltb_finite_neg. right. split; [lia|].
      rewrite Hmza, Hmzb. apply Z.mul_lt_mono_pos_r; lia.
  - reflexivity.
  - rewrite Z.abs_eq in Hma, Hmb by lia.
    destruct (hf_order a b ma mb ea eb ltac:(lia) ltac:(lia)
                Hea Heb Hma Hmb Hra Hrb) as [Hlt|[Heq Hlt]].
    + apply ltb_finite. left. lia.
    + apply ltb_finite. right. split; [lia|].
      rewrite Hmza, Hmzb. apply Z.mul_lt_mono_pos_r; lia.
Qed.

End HalvesAsDoubles.

(** ** The rectangles of the full board *)

Section LayoutCells.

Lemma add_hf_off (n c d : Z) :
  -16777216 < n + c < 16777216 → 0 ≤ d < 16777216 →
  n + c + d < 16777216 →
  (hf (n + c) + hf d)%f32 = hf (n + (c + d)).
Proof.
  intros H1 H2 H3. rewrite add_hf by (change (2 ^ 24) with 16777216; lia).
  f_equal. lia.
Qed.

Lemma sub_hf_off (n c d : Z) :
  -16777216 < n + c < 16777216 → 0 ≤ d < 16777216 →
  -16777216 < n + c - d →
  (hf (n + c) - hf d)%f32 = hf (n + (c - d)).
Proof.
  intros H1 H2 H3. rewrite sub_hf by (change (2 ^ 24) with 16777216; lia).
  f_equal. lia.
Qed.

Lemma KEY_WIDTH_hf : FullBoard.KEY_WIDTH = hf 120.
Proof. vm_compute. reflexivity. Qed.

Lemma KEY_HEIGHT_hf : FullBoard.KEY_HEIGHT = hf 120.
Proof. vm_compute. reflexivity. Qed.

Lemma KEY_SPACING_X_hf : FullBoard.KEY_SPACING_X = hf 12.
Proof. vm_compute. reflexivity. Qed.

Lemma KEY_SPACING_Y_hf : FullBoard.KEY_SPACING_Y = hf 12.
Proof. vm_compute. reflexivity. Qed.

Lemma pitch_hf : (hf 120 + hf 12)%f32 = hf 132.
Proof. vm_compute. reflexivity. Qed.

Lemma addKey_cell (n m : Z) (cells : list cell) (label : string)
    (cx w cy h : Z) (kt : KeyType) (glfwKey : Z) (s : World) :
  Forall2 (cell_of n m) cells (keyboardKeys s) →
  Forall2 (cell_of n m) (cells ++ [(cx, w, cy, h)])
    (keyboardKeys
       (FullBoard.addKey label (hf (n + cx)) (hf (m + cy)) (hf w) (hf h)
                         kt glfwKey s)).
Proof.
  intros H. rewrite addKey_keys. apply Forall2_app; [exact H|].
  constructor; [split; reflexivity|constructor].
Qed.

Lemma addRow_cell (n m : Z) (row : list (string * Z)) (kt : KeyType) :
  ∀ (cells : list cell) (cx cy : Z) (s : World),
    -16777216 < n + cx →
    n + cx + 132 * Z.of_nat (length row) < 16777216 →
    Forall2 (cell_of n m) cells (keyboardKeys s) →
    fst (FullBoard.addRow row kt (hf (n + cx)) (hf (m + cy)) s)
    = hf (n + (cx + 132 * Z.of_nat (length row)))
    ∧ Forall2 (cell_of n m) (cells ++ row_cells row cx cy)
        (keyboardKeys
           (snd (FullBoard.addRow row kt (hf (n + cx)) (hf (m + cy)) s))).
Proof.
  induction row as [|[lbl code] rest IH]; intros cells cx cy s H0 Hb H.
  - cbn [FullBoard.addRow fst snd row_cells length]. split.
    + f_equal. lia.
    + rewrite app_nil_r. exact H.
  - cbn [FullBoard.addRow row_cells]. cbn [length] in Hb.
    rewrite KEY_WIDTH_hf, KEY_HEIGHT_hf, KEY_SPACING_X_hf, pitch_hf.
    rewrite add_hf_off by lia.
    destruct (IH (cells ++ [(cx, 120, cy, 120)]) (cx + 132) cy
                 (FullBoard.addKey lbl (hf (n + cx)) (hf (m + cy)) (hf 120)
                                   (hf 120) kt code s)
                 ltac:(lia) ltac:(lia) (addKey_cell n m cells lbl cx 120 cy 120
                                          kt code s H)) as [IH1 IH2].
    split.
    + rewrite IH1. f_equal. cbn [length]. lia.
    + rewrite <- app_assoc in IH2. exact IH2.
Qed.

Ltac cells_norm :=
  repeat first
    [ rewrite add_hf_off by (cbn [length]; lia)
    | rewrite sub_hf_off by (cbn [length]; lia) ].

Ltac cells_step n m :=
  match goal with
  | H : Forall2 (cell_of n m) ?cells (keyboardKeys ?s)
    |- context [FullBoard.addKey ?l (hf (n + ?cx)) (hf (m + ?cy)) (hf ?w)
                                 (hf ?h) ?kt ?c ?s] =>
      let s' := fresh "s" in
      let H' := fresh "Hc" in
      pose proof (addKey_cell n m cells l cx w cy h kt c s H) as H';
      set (s' := FullBoard.addKey l (hf (n + cx)) (hf (m + cy)) (hf w) (hf h)
                                  kt c s) in *;
      clearbody s'; clear H
  | H : Forall2 (cell_of n m) ?cells (keyboardKeys ?s)
    |- context [FullBoard.addRow ?row ?kt (hf (n + ?cx)) (hf (m + ?cy)) ?s] =>
      let s' := fresh "s" in
      let x' := fresh "x" in
      let H' := fresh "Hc" in
      let Hx := fresh "Hx" in
      destruct (addRow_cell n m row kt cells cx cy s
                  ltac:(cbn [length]; lia) ltac:(cbn [length]; lia) H)
        as [Hx H'];
      destruct (FullBoard.addRow row kt (hf (n + cx)) (hf (m + cy)) s)
        as [x' s'];
      cbn [fst snd] in Hx, H'; subst x'; clear H; cells_norm
  end.

(** With the block starting at [(n/2, m/2)], every coordinate of the
    layout is computed without rounding: the keys have the rectangles of
    [layout_cells], moved by the start. *)
Lemma initKeyboardLayout_cells (n m : Z) (s : World) :
  -8388608 ≤ n ≤ 8388608 → -8388608 ≤ m ≤ 8388608 →
  Forall2 (cell_of n m) layout_cells
    (keyboardKeys (FullBoard.initKeyboardLayout (hf n) (hf m) s)).
Proof.
  intros Hn Hm.
  assert (length FullBoard.row1 = 12%nat) as Hl1 by reflexivity.
  assert (length FullBoard.row2 = 13%nat) as Hl2 by reflexivity.
  assert (length FullBoard.row3 = 12%nat) as Hl3 by reflexivity.
  assert (length FullBoard.row4 = 11%nat) as Hl4 by reflexivity.
  assert (length FullBoard.row5 = 7%nat) as Hl5 by reflexivity.
  unfold FullBoard.initKeyboardLayout. cbv zeta.
  replace (FullBoard.KEY_WIDTH * F32.lit 15 10)%f32 with (hf 180)
    by (vm_compute; reflexivity).
  replace (FullBoard.KEY_WIDTH * F32.lit 12 10)%f32 with (hf 144)
    by (vm_compute; reflexivity).
  replace (FullBoard.KEY_WIDTH * F32.lit 60 10)%f32 with (hf 720)
    by (vm_compute; reflexivity).
  replace (F32.lit 948 1) with (hf 1896) by (vm_compute; reflexivity).
  replace (FullBoard.KEY_SPACING_X * F32.of_Z 10)%f32 with (hf 120)
    by (vm_compute; reflexivity).
  replace (F32.of_Z 2 * (FullBoard.KEY_WIDTH + FullBoard.KEY_SPACING_X))%f32
    with (hf 264) by (vm_compute; reflexivity).
  replace (F32.of_Z 2 * (FullBoard.KEY_HEIGHT + FullBoard.KEY_SPACING_Y))%f32
    with (hf 264) by (vm_compute; reflexivity).
  rewrite KEY_WIDTH_hf, KEY_HEIGHT_hf, KEY_SPACING_X_hf, KEY_SPACING_Y_hf.
  rewrite !pitch_hf.
  replace (hf 180 + hf 12)%f32 with (hf 192) by (vm_compute; reflexivity).
  replace (hf 144 + hf 12)%f32 with (hf 156) by (vm_compute; reflexivity).
  replace (hf 720 + hf 12)%f32 with (hf 732) by (vm_compute; reflexivity).
  assert (hf n = hf (n + 0)) as Hn0 by (f_equal; lia).
  assert (hf m = hf (m + 0)) as Hm0 by (f_equal; lia).
  rewrite Hn0, Hm0. clear Hn0 Hm0.
  assert (Forall2 (cell_of n m) []
            (keyboardKeys (set_glfwKeyToIndex ∅ (set_keyboardKeys [] s))))
    as Hc by constructor.
  set (s0 := set_glfwKeyToIndex ∅ (set_keyboardKeys [] s)) in *.
  clearbody s0.
  cells_norm.
  repeat cells_step n m.
  match goal with
  | H : Forall2 _ ?cells _ |- _ =>
      replace layout_cells with cells by (vm_compute; reflexivity); exact H
  end.
Qed.

End LayoutCells.

(** ** Where [main] puts the block *)

Section CenteredStart.

Lemma of_Z_hf (w : Z) : 0 ≤ w < 2 ^ 23 → F32.of_Z w = hf (2 * w).
Proof.
  intros Hw. destruct (Z.eq_dec w 0) as [->|Hne]; [reflexivity|].
  destruct (hf_finite (2 * w) ltac:(change (2 ^ 24) with (2 * 2 ^ 23); lia))
    as (mq & eq & Hf & Hc & He & Hm & _).
  rewrite Hf. unfold F32.of_Z. destruct w as [|p|p]; try lia.
  cbn [binary_normalize].
  apply binary_round_exact; [exact Hc|unfold F32.emax, F32.prec; lia|].
  right. split; [lia|]. rewrite Hm, Z.sub_0_l.
  replace (- eq) with (1 + (-1 - eq)) by lia.
  rewrite Z.pow_add_r by lia. change (2 ^ 1) with 2. lia.
Qed.

Lemma two_eq : F32.lit 2 1 = S754_finite false 8388608 (-22).
Proof. vm_compute. reflexivity. Qed.

(** Halving a whole number of halves is exact. *)
Lemma div2_hf (k : Z) :
  - 2 ^ 24 < 2 * k < 2 ^ 24 → (hf (2 * k) / F32.lit 2 1)%f32 = hf k.
Proof.
  intros Hb. rewrite two_eq.
  destruct (Z.eq_dec k 0) as [->|Hne]; [reflexivity|].
  destruct (hf_signed (2 * k) ltac:(lia) Hb)
    as (m1 & e1 & Hf & Hc & He & Hm & Hr).
  rewrite Hf.
  assert ((2 * k <? 0) = (k <? 0)) as Hsign
    by (destruct (Z.ltb_spec (2 * k) 0), (Z.ltb_spec k 0); lia).
  rewrite Hsign.
  (* the float of [k]: the same mantissa, one exponent below *)
  assert (canonical_mantissa F32.prec F32.emax m1 (e1 - 1) = true) as Hc'.
  { apply canonical_mantissa_iff. lia. }
  assert (∀ p : positive, Z.pos p = Z.abs k →
          ∀ s, binary_round F32.prec F32.emax s p (-1)
               = S754_finite s m1 (e1 - 1)) as Hround.
  { intros p Hp s.
    apply binary_round_exact; [exact Hc'|unfold F32.emax, F32.prec; lia|].
    right. split; [lia|]. rewrite Hm, Hp, Z.abs_mul.
    change (Z.abs 2) with 2.
    replace (-1 - e1) with (-1 - (e1 - 1) - 1) by lia.
    replace (-1 - (e1 - 1)) with (1 + (-1 - (e1 - 1) - 1)) at 2 by lia.
    rewrite (Z.pow_add_r 2 1) by lia. change (2 ^ 1) with 2. lia. }
  assert (hf k = S754_finite (k <? 0) m1 (e1 - 1)) as ->.
  { unfold hf. destruct k as [|p|p]; [congruence| |];
      cbn [binary_normalize]; apply Hround; reflexivity. }
  assert (Z.pos (digits2_pos m1) = 24) as Hd.
  { pose proof (Zdigits2_ge (Z.pos m1) 23 ltac:(lia)) as H1.
    pose proof (Zdigits2_lt (Z.pos m1) 24 ltac:(lia) ltac:(lia)) as H2.
    cbn [Zdigits2] in H1, H2. lia. }
  assert (SFdiv_core_binary F32.prec F32.emax (Z.pos m1) e1 8388608 (-22)
          = (Z.pos m1 * 2 ^ (e1 - 1 - (e1 - 2)), e1 - 2, loc_Exact)) as Hdiv.
  { unfold SFdiv_core_binary. cbn [Zdigits2]. rewrite Hd.
    change (Z.pos (digits2_pos 8388608)) with 24.
    assert (Z.min (fexp F32.prec F32.emax (24 + e1 - (24 + -22)))
                  (e1 - -22) = e1 - 2) as ->.
    { unfold fexp, emin, F32.prec, F32.emax. lia. }
    replace (e1 - -22 - (e1 - 2)) with 24 by lia.
    rewrite Z.shiftl_mul_pow2 by lia.
    replace (e1 - 1 - (e1 - 2)) with 1 by lia.
    pose proof (Z.div_eucl_eq (Z.pos m1 * 2 ^ 24) 8388608 ltac:(lia)) as Heq.
    pose proof (Z.mod_pos_bound (Z.pos m1 * 2 ^ 24) 8388608 ltac:(lia)) as Hmod.
    unfold Z.modulo in Hmod.
    destruct (Z.div_eucl (Z.pos m1 * 2 ^ 24) 8388608) as [q r].
    change (2 ^ 24) with (2 * 8388608) in Heq. change (2 ^ 1) with 2.
    assert (r = 0 ∧ q = Z.pos m1 * 2) as [-> ->] by nia.
    reflexivity. }
  unfold F32.div, SFdiv. rewrite Hdiv. rewrite xorb_false_r.
  apply binary_round_aux_exact; [exact Hc'|unfold F32.emax, F32.prec; lia|lia].
Qed.

(** Where [main] puts the block, for every window below [2^22] pixels a
    side: the start is computed without rounding, also when the window is
    smaller than the block and the start is below zero. *)
Lemma centered_start_exact (windowWidth windowHeight : Z) :
  0 ≤ windowWidth < 4194304 → 0 ≤ windowHeight < 4194304 →
  centered_start windowWidth windowHeight
  = (hf (windowWidth - 948), hf (windowHeight - 390)).
Proof.
  intros Hw Hh. unfold centered_start. cbv zeta.
  replace (F32.lit 948 1) with (hf 1896) by (vm_compute; reflexivity).
  replace (F32.of_Z 6 * FullBoard.KEY_HEIGHT
           + F32.of_Z 5 * FullBoard.KEY_SPACING_Y)%f32
    with (hf 780) by (vm_compute; reflexivity).
  rewrite !of_Z_hf by (change (2 ^ 23) with 8388608; lia).
  rewrite !sub_hf by (change (2 ^ 24) with 16777216; lia).
  replace (2 * windowWidth - 1896) with (2 * (windowWidth - 948)) by lia.
  replace (2 * windowHeight - 780) with (2 * (windowHeight - 390)) by lia.
  rewrite !div2_hf by (change (2 ^ 24) with 16777216; lia).
  reflexivity.
Qed.

Lemma centered_start_hf (windowWidth windowHeight : Z) :
  948 ≤ windowWidth < 4194304 → 390 ≤ windowHeight < 4194304 →
  centered_start windowWidth windowHeight
  = (hf (windowWidth - 948), hf (windowHeight - 390)).
Proof. intros Hw Hh. apply centered_start_exact; lia. Qed.

End CenteredStart.

(** ** No two keys of the full board overlap *)

Section NoOverlap.

Lemma cells_apart_sym (c c' : cell) : cells_apart c' c = cells_apart c c'.
Proof.
  unfold cells_apart.
  destruct (c.1.1.1 + c.1.1.2 <? c'.1.1.1), (c'.1.1.1 + c'.1.1.2 <? c.1.1.1),
           (c.1.2 + c.2 <? c'.1.2), (c'.1.2 + c'.2 <? c.1.2); reflexivity.
Qed.

Lemma all_apart_lookup (cells : list cell) :
  all_apart cells = true →
  ∀ (i j : nat) (c c' : cell),
    i ≠ j → cells !! i = Some c → cells !! j = Some c' →
    cells_apart c c' = true.
Proof.
  intros Hall.
  assert (∀ (i j : nat) (c c' : cell),
            (i < j)%nat → cells !! i = Some c → cells !! j = Some c' →
            cells_apart c c' = true) as Hlt.
  { induction cells as [|c0 rest IH]; intros i j c c' Hij Hi Hj;
      [discriminate Hi|].
    cbn [all_apart] in Hall. apply andb_prop in Hall.
    destruct Hall as [H0 Hrest].
    destruct j as [|j]; [lia|]. cbn in Hj.
    destruct i as [|i].
    - injection Hi as <-. rewrite forallb_forall in H0. apply H0.
      apply list_elem_of_In. apply (list_elem_of_lookup_2 _ j). exact Hj.
    - cbn in Hi. apply (IH Hrest i j); [lia|exact Hi|exact Hj]. }
  intros i j c c' Hne Hi Hj.
  destruct (Nat.lt_total i j) as [H|[H|H]]; [|contradiction|].
  - apply (Hlt i j); assumption.
  - rewrite <- cells_apart_sym. apply (Hlt j i); assumption.
Qed.

Lemma layout_cells_apart : all_apart layout_cells = true.
Proof. vm_compute. reflexivity. Qed.

Lemma layout_cells_small : forallb cell_small layout_cells = true.
Proof. vm_compute. reflexivity. Qed.

(** Two keys whose rectangles are apart are never both under the cursor. *)
Lemma apart_not_both (n m : Z) (c c' : cell) (k k' : Key)
    (xpos ypos : double) :
  -8388608 ≤ n ≤ 8388608 → -8388608 ≤ m ≤ 8388608 →
  cell_small c = true → cell_small c' = true →
  cell_of n m c k → cell_of n m c' k' →
  cells_apart c c' = true →
  under_cursor xpos ypos k = true → under_cursor xpos ypos k' = false.
Proof.
  intros Hn Hm Hs Hs' [Hp Hz] [Hp' Hz'] Hap.
  unfold cell_small in Hs, Hs'.
  repeat match goal with
         | H : _ && _ = true |- _ =>
             apply andb_prop in H; let H1 := fresh H in destruct H as [H H1]
         end.
  repeat match goal with
         | H : (_ <=? _) = true |- _ => apply Z.leb_le in H
         end.
  unfold under_cursor. rewrite Hp, Hz, Hp', Hz'. cbn [vx vy].
  rewrite !add_hf by (change (2 ^ 24) with 16777216; lia).
  set (L := F64.of_float (hf (n + c.1.1.1))).
  set (R := F64.of_float (hf (n + c.1.1.1 + c.1.1.2))).
  set (T := F64.of_float (hf (m + c.1.2))).
  set (B := F64.of_float (hf (m + c.1.2 + c.2))).
  set (L' := F64.of_float (hf (n + c'.1.1.1))).
  set (R' := F64.of_float (hf (n + c'.1.1.1 + c'.1.1.2))).
  set (T' := F64.of_float (hf (m + c'.1.2))).
  set (B' := F64.of_float (hf (m + c'.1.2 + c'.2))).
  intros Hu.
  apply andb_prop in Hu. destruct Hu as [Hu Hb].
  apply andb_prop in Hu. destruct Hu as [Hu Ht].
  assert (F64.leb T ypos && F64.leb ypos B = true) as Hy
    by (rewrite Ht, Hb; reflexivity).
  clear Ht Hb.
  unfold cells_apart in Hap.
  apply orb_prop in Hap. destruct Hap as [Hap|Hap];
    [apply orb_prop in Hap; destruct Hap as [Hap|Hap];
     [apply orb_prop in Hap; destruct Hap as [Hap|Hap]|]|];
    apply Z.ltb_lt in Hap.
  - (* [k] ends left of [k'] *)
    assert (F64.ltb R L' = true) as Hlt
      by (apply of_float_hf_lt; change (2 ^ 24) with 16777216; lia).
    rewrite (not_in_both L R L' R' xpos Hlt Hu). reflexivity.
  - (* [k'] ends left of [k] *)
    assert (F64.ltb R' L = true) as Hlt
      by (apply of_float_hf_lt; change (2 ^ 24) with 16777216; lia).
    destruct (F64.leb L' xpos && F64.leb xpos R') eqn:Hu'; [|reflexivity].
    rewrite (not_in_both L' R' L R xpos Hlt Hu') in Hu. discriminate Hu.
  - (* [k] ends above [k'] *)
    assert (F64.ltb B T' = true) as Hlt
      by (apply of_float_hf_lt; change (2 ^ 24) with 16777216; lia).
    rewrite <- !andb_assoc.
    rewrite (not_in_both T B T' B' ypos Hlt Hy), !andb_false_r. reflexivity.
  - (* [k'] ends above [k] *)
    assert (F64.ltb B' T = true) as Hlt
      by (apply of_float_hf_lt; change (2 ^ 24) with 16777216; lia).
    rewrite <- !andb_assoc.
    destruct (F64.leb T' ypos && F64.leb ypos B') eqn:Hy';
      [|rewrite !andb_false_r; reflexivity].
    rewrite (not_in_both T' B' T B ypos Hlt Hy') in Hy. discriminate Hy.
Qed.

End NoOverlap.

(** X24.  No two keys of the full board overlap: for a window of
    [windowWidth >= 948] by [windowHeight >= 390] pixels (below [2^22]
    each), with the block placed as [main] places it, a cursor position
    that passes the hit test of one key fails the hit test of every
    other key. *)
Theorem keys_never_overlap (windowWidth windowHeight : Z) (s0 : World)
    (xpos ypos : double) (i j : nat) (ki kj : Key) :
  948 ≤ windowWidth < 4194304 → 390 ≤ windowHeight < 4194304 →
  let start := centered_start windowWidth windowHeight in
  let s := FullBoard.initKeyboardLayout (fst start) (snd start) s0 in
  keyboardKeys s !! i = Some ki → keyboardKeys s !! j = Some kj → i ≠ j →
  under_cursor xpos ypos ki = true → under_cursor xpos ypos kj = false.
Proof.
  intros Hw Hh start s. subst s start.
  rewrite (centered_start_hf windowWidth windowHeight Hw Hh). cbn [fst snd].
  intros Hi Hj Hne.
  pose proof (initKeyboardLayout_cells (windowWidth - 948) (windowHeight - 390)
                s0 ltac:(lia) ltac:(lia)) as Hcells.
  destruct (Forall2_lookup_r _ _ _ _ _ Hcells Hi) as (ci & Hci & Hki).
  destruct (Forall2_lookup_r _ _ _ _ _ Hcells Hj) as (cj & Hcj & Hkj).
  pose proof (all_apart_lookup _ layout_cells_apart i j ci cj Hne Hci Hcj)
    as Hap.
  pose proof layout_cells_small as Hsmall. rewrite forallb_forall in Hsmall.
  apply (apart_not_both (windowWidth - 948) (windowHeight - 390) ci cj ki kj);
    try lia; try assumption.
  - apply Hsmall, list_elem_of_In, (list_elem_of_lookup_2 _ i), Hci.
  - apply Hsmall, list_elem_of_In, (list_elem_of_lookup_2 _ j), Hcj.
Qed.

Lemma keys_never_overlap_witness :
  let start := centered_start 1920 1080 in
  let s := FullBoard.initKeyboardLayout (fst start) (snd start) start_world in
  ∃ ki kj,
    keyboardKeys s !! 0%nat = Some ki ∧ keyboardKeys s !! 1%nat = Some kj
    ∧ under_cursor (F64.of_Z 500) (F64.of_Z 360) ki = true
    ∧ under_cursor (F64.of_Z 500) (F64.of_Z 360) kj = false.
Proof.
  intros start s.
  destruct (keyboardKeys s !! 0%nat) as [ki|] eqn:Hki;
    [|vm_compute in Hki; discriminate Hki].
  destruct (keyboardKeys s !! 1%nat) as [kj|] eqn:Hkj;
    [|vm_compute in Hkj; discriminate Hkj].
  exists ki, kj. split; [reflexivity|]. split; [reflexivity|].
  assert (under_cursor (F64.of_Z 500) (F64.of_Z 360) ki = true) as Hu.
  { vm_compute in Hki. injection Hki as <-. vm_compute. reflexivity. }
  split; [exact Hu|].
  apply (keys_never_overlap 1920 1080 start_world (F64.of_Z 500)
           (F64.of_Z 360) 0 1 ki kj); try lia; assumption.
Defined.

(** ** One key under the cursor, in every state *)

Section OneHit.

Lemma hits_none (xpos ypos : double) (ks : list Key) :
  (∀ (j : nat) (kj : Key),
     ks !! j = Some kj → under_cursor xpos ypos kj = false) →
  filter (λ k, under_cursor xpos ypos k = true) ks = [].
Proof.
  induction ks as [|k rest IH]; intros Hno; [reflexivity|].
  rewrite filter_cons, decide_False.
  - apply IH. intros j kj Hj. apply (Hno (S j)). exact Hj.
  - rewrite (Hno 0%nat k eq_refl). discriminate.
Qed.

Lemma hits_at_most_one (xpos ypos : double) (ks : list Key) :
  (∀ (i j : nat) (ki kj : Key),
     i ≠ j → ks !! i = Some ki → ks !! j = Some kj →
     under_cursor xpos ypos ki = true → under_cursor xpos ypos kj = false) →
  (hits xpos ypos ks ≤ 1)%nat.
Proof.
  unfold hits. induction ks as [|k rest IH]; intros Hex; [cbn; lia|].
  rewrite filter_cons.
  destruct (under_cursor xpos ypos k) eqn:Hu.
  - rewrite decide_True by reflexivity. cbn [length].
    rewrite hits_none; [cbn; lia|].
    intros j kj Hj. apply (Hex 0%nat (S j) k kj); [lia|reflexivity|exact Hj|].
    exact Hu.
  - rewrite decide_False by discriminate. apply IH.
    intros i j ki kj Hne Hi Hj.
    apply (Hex (S i) (S j)); [lia|exact Hi|exact Hj].
Qed.

Lemma fixed_part_lookup (ks ks' : list Key) (i : nat) (k' : Key) :
  fixed_part <$> ks' = fixed_part <$> ks →
  ks' !! i = Some k' →
  ∃ k, ks !! i = Some k ∧ pos k' = pos k ∧ size k' = size k.
Proof.
  intros Heq Hk'.
  assert ((fixed_part <$> ks) !! i = Some (fixed_part k')) as H.
  { rewrite <- Heq, list_lookup_fmap, Hk'. reflexivity. }
  rewrite list_lookup_fmap in H.
  destruct (ks !! i) as [k|]; [|discriminate H].
  exists k. split; [reflexivity|].
  cbn in H. injection H as _ Hp Hs _. split; congruence.
Qed.

End OneHit.

(** X25.  In every state that the full board reaches, at most one key is
    under the cursor: for a window of at least 948 by 390 pixels, from the
    layout placed as [main] places it, every run of events is handled and
    leaves a board on which no cursor position is within two keys, so the
    loop that stops at the first hit and the loop that visits every key
    find the same key. *)
Theorem one_key_under_cursor (windowWidth windowHeight : Z) (s0 : World)
    (es : list Event) (xpos ypos : double) :
  948 ≤ windowWidth < 4194304 → 390 ≤ windowHeight < 4194304 →
  let start := centered_start windowWidth windowHeight in
  ∃ s', FullBoardLoop.run es
          (FullBoard.initKeyboardLayout (fst start) (snd start) s0) = Some s'
        ∧ (hits xpos ypos (keyboardKeys s') ≤ 1)%nat.
Proof.
  intros Hw Hh start.
  set (s := FullBoard.initKeyboardLayout (fst start) (snd start) s0).
  destruct (initKeyboardLayout_inv (fst start) (snd start) s0) as (_ & Hb & _).
  destruct (run_defined es _ Hb) as (s' & Hr & _ & Hfix).
  exists s'. split; [exact Hr|].
  apply hits_at_most_one. intros i j ki' kj' Hne Hi Hj.
  destruct (fixed_part_lookup _ _ i ki' Hfix Hi) as (ki & Hki & Hpi & Hsi).
  destruct (fixed_part_lookup _ _ j kj' Hfix Hj) as (kj & Hkj & Hpj & Hsj).
  rewrite (under_cursor_rect xpos ypos ki ki' Hpi Hsi).
  rewrite (under_cursor_rect xpos ypos kj kj' Hpj Hsj).
  pose proof (centered_start_hf windowWidth windowHeight Hw Hh) as Hst.
  fold start in Hst.
  assert (fst start = hf (windowWidth - 948)) as Hx by (rewrite Hst; reflexivity).
  assert (snd start = hf (windowHeight - 390)) as Hy by (rewrite Hst; reflexivity).
  rewrite Hx, Hy in Hki, Hkj.
  pose proof (initKeyboardLayout_cells (windowWidth - 948) (windowHeight - 390)
                s0 ltac:(lia) ltac:(lia)) as Hcells.
  destruct (Forall2_lookup_r _ _ _ _ _ Hcells Hki) as (ci & Hci & Hcki).
  destruct (Forall2_lookup_r _ _ _ _ _ Hcells Hkj) as (cj & Hcj & Hckj).
  pose proof (all_apart_lookup _ layout_cells_apart i j ci cj Hne Hci Hcj)
    as Hap.
  pose proof layout_cells_small as Hsmall. rewrite forallb_forall in Hsmall.
  apply (apart_not_both (windowWidth - 948) (windowHeight - 390) ci cj ki kj);
    try lia; try assumption.
  - apply Hsmall, list_elem_of_In, (list_elem_of_lookup_2 _ i), Hci.
  - apply Hsmall, list_elem_of_In, (list_elem_of_lookup_2 _ j), Hcj.
Qed.

Lemma one_key_under_cursor_witness :
  let start := centered_start 1920 1080 in
  ∃ s', FullBoardLoop.run
          [ MouseButtonEvent (F64.of_Z 500) (F64.of_Z 360)
                             GLFW_MOUSE_BUTTON_LEFT GLFW_PRESS;
            FrameEvent (F32.lit 16 1000);
            CursorPosEvent (F64.of_Z 560) (F64.of_Z 360) ]
          (FullBoard.initKeyboardLayout (fst start) (snd start) start_world)
        = Some s'
        ∧ (hits (F64.of_Z 560) (F64.of_Z 360) (keyboardKeys s') ≤ 1)%nat.
Proof.
  apply (one_key_under_cursor 1920 1080 start_world
           [ MouseButtonEvent (F64.of_Z 500) (F64.of_Z 360)
                              GLFW_MOUSE_BUTTON_LEFT GLFW_PRESS;
             FrameEvent (F32.lit 16 1000);
             CursorPosEvent (F64.of_Z 560) (F64.of_Z 360) ]
           (F64.of_Z 560) (F64.of_Z 360)); lia.
Defined.

(** ** Runs of the single key *)

Section SingleKeyRuns.

Lemma mx_run_cons (e : MxGreenLoop.Event) (es : list MxGreenLoop.Event)
    (s : MxGreen.State) :
  MxGreenLoop.run (e :: es) s = MxGreenLoop.run es (MxGreenLoop.handle e s).
Proof. reflexivity. Qed.

Lemma mx_handle_account (e : MxGreenLoop.Event) (s : MxGreen.State) :
  let s' := MxGreenLoop.handle e s in
  MxGreen.played s'
  = (MxGreen.played s + if MxGreenLoop.plain_press e then 1 else 0)%nat
  ∧ keycapRemoved (MxGreen.g_key s')
    = xorb (keycapRemoved (MxGreen.g_key s)) (MxGreenLoop.shift_press e)
  ∧ fixed_part (MxGreen.g_key s') = fixed_part (MxGreen.g_key s).
Proof.
  destruct e as [key action mods|dt];
    cbn [MxGreenLoop.handle MxGreenLoop.plain_press MxGreenLoop.shift_press].
  - unfold MxGreen.keyCallback.
    destruct (key =? GLFW_KEY_A); [|cbn; rewrite xorb_false_r; auto with lia].
    destruct (action =? GLFW_PRESS).
    + destruct (Z.land mods GLFW_MOD_SHIFT =? 0);
        cbn; rewrite ?xorb_false_r, ?xorb_true_r; auto with lia.
    + destruct (action =? GLFW_RELEASE);
        cbn; rewrite xorb_false_r; auto with lia.
  - cbn [MxGreenLoop.frame fst MxGreen.played MxGreen.g_key].
    rewrite updateKeyAnimation_frame. cbn. rewrite xorb_false_r.
    auto with lia.
Qed.

Lemma mx_handle_in_range (e : MxGreenLoop.Event) (s : MxGreen.State) :
  forallb (F32.leb f32_zero) (MxGreenLoop.frame_times [e]) = true →
  in_range (pressAnim (MxGreen.g_key s)) →
  in_range (pressAnim (MxGreen.g_key (MxGreenLoop.handle e s))).
Proof.
  destruct e as [key action mods|dt]; cbn [MxGreenLoop.handle].
  - intros _ H. unfold MxGreen.keyCallback.
    destruct (key =? GLFW_KEY_A); [|exact H].
    destruct (action =? GLFW_PRESS).
    + destruct (negb (Z.land mods GLFW_MOD_SHIFT =? 0)); exact H.
    + destruct (action =? GLFW_RELEASE); exact H.
  - intros Hd H. cbn in Hd. rewrite andb_true_r in Hd.
    apply nonneg_iff in Hd.
    cbn [MxGreenLoop.frame fst MxGreen.g_key].
    apply updateKeyAnimation_in_range; assumption.
Qed.

Lemma mx_run_keycap (es : list MxGreenLoop.Event) (s : MxGreen.State) :
  let s' := MxGreenLoop.run es s in
  keycapRemoved (MxGreen.g_key s')
  = xorb (keycapRemoved (MxGreen.g_key s))
         (Nat.odd (length (filter (λ e, MxGreenLoop.shift_press e = true) es)))
  ∧ fixed_part (MxGreen.g_key s') = fixed_part (MxGreen.g_key s).
Proof.
  revert s. induction es as [|e es IH]; intros s.
  - cbn. rewrite xorb_false_r. auto.
  - cbv zeta. rewrite mx_run_cons.
    destruct (IH (MxGreenLoop.handle e s)) as (H2 & H3).
    destruct (mx_handle_account e s) as (_ & A2 & A3).
    rewrite H2, H3, A2, A3, filter_cons. split; [|reflexivity].
    destruct (MxGreenLoop.shift_press e);
      [rewrite decide_True by reflexivity
      |rewrite decide_False by discriminate]; cbn [length].
    + rewrite Nat.odd_succ, <- Nat.negb_odd.
      destruct (keycapRemoved (MxGreen.g_key s)),
               (Nat.odd (length (filter (λ e0, MxGreenLoop.shift_press e0 = true) es)));
        reflexivity.
    + rewrite xorb_false_r. reflexivity.
Qed.

Lemma text_calls_quads (qs : list quad) : text_calls (map glQuad qs) = [].
Proof. induction qs as [|q qs IH]; [reflexivity|exact IH]. Qed.

End SingleKeyRuns.

(** X26.  The single-key program keeps exact accounts: after any run of
    key events and frames, the number of clicks played (calls of
    [playKeySound], each running the [chuck] command once) has grown by
    the number of presses of A without the shift modifier, the keycap is
    off exactly if it was toggled an odd number of times by presses of A
    with the shift modifier, and the label, position and size of the key
    are unchanged. *)
Theorem single_key_accounts (es : list MxGreenLoop.Event) (s : MxGreen.State) :
  let s' := MxGreenLoop.run es s in
  MxGreen.played s'
  = (MxGreen.played s + length (filter (λ e, MxGreenLoop.plain_press e = true) es))%nat
  ∧ keycapRemoved (MxGreen.g_key s')
    = xorb (keycapRemoved (MxGreen.g_key s))
           (Nat.odd (length (filter (λ e, MxGreenLoop.shift_press e = true) es)))
  ∧ fixed_part (MxGreen.g_key s') = fixed_part (MxGreen.g_key s).
Proof.
  revert s. induction es as [|e es IH]; intros s.
  - cbn. rewrite xorb_false_r. auto with lia.
  - cbv zeta. rewrite mx_run_cons.
    destruct (IH (MxGreenLoop.handle e s)) as (H1 & H2 & H3).
    destruct (mx_handle_account e s) as (A1 & A2 & A3).
    rewrite H1, H2, H3, A1, A2, A3, !filter_cons.
    split; [|split; [|reflexivity]].
    + destruct (MxGreenLoop.plain_press e);
        [rewrite decide_True by reflexivity
        |rewrite decide_False by discriminate]; cbn [length]; lia.
    + destruct (MxGreenLoop.shift_press e);
        [rewrite decide_True by reflexivity
        |rewrite decide_False by discriminate]; cbn [length].
      * rewrite Nat.odd_succ, <- Nat.negb_odd.
        destruct (keycapRemoved (MxGreen.g_key s)),
                 (Nat.odd (length (filter (λ e0, MxGreenLoop.shift_press e0 = true) es)));
          reflexivity.
      * rewrite xorb_false_r. reflexivity.
Qed.

(** X27.  In the single-key program, from the globals with which the loop
    of [main] begins, the press value of the key stays a well-formed
    float between [0.0f] and [0.5f] along every run of key events and
    frames whose [deltaTime] is not below zero. *)
Theorem single_key_keeps_range (es : list MxGreenLoop.Event) :
  forallb (F32.leb f32_zero) (MxGreenLoop.frame_times es) = true →
  in_range (pressAnim (MxGreen.g_key (MxGreenLoop.run es MxGreenLoop.initial))).
Proof.
  assert (∀ s, forallb (F32.leb f32_zero) (MxGreenLoop.frame_times es) = true →
               in_range (pressAnim (MxGreen.g_key s)) →
               in_range (pressAnim (MxGreen.g_key (MxGreenLoop.run es s))))
    as H.
  { induction es as [|e es IH]; intros s Hd Hin; [exact Hin|].
    rewrite mx_run_cons.
    change (e :: es) with ([e] ++ es) in Hd.
    unfold MxGreenLoop.frame_times in Hd.
    rewrite omap_app, forallb_app in Hd.
    apply andb_prop in Hd. destruct Hd as [Hd1 Hd2].
    apply (IH _ Hd2). apply mx_handle_in_range; assumption. }
  intros Hd. apply (H _ Hd). apply in_range_zero.
Qed.

Lemma single_key_keeps_range_witness :
  in_range
    (pressAnim
       (MxGreen.g_key
          (MxGreenLoop.run
             [ MxGreenLoop.KeyEvent GLFW_KEY_A GLFW_PRESS 0;
               MxGreenLoop.FrameEvent (F32.lit 16 1000);
               MxGreenLoop.KeyEvent GLFW_KEY_A GLFW_PRESS GLFW_MOD_SHIFT;
               MxGreenLoop.FrameEvent (F32.lit 3 10);
               MxGreenLoop.KeyEvent GLFW_KEY_A GLFW_RELEASE 0;
               MxGreenLoop.FrameEvent (F32.lit 16 1000) ]
             MxGreenLoop.initial))).
Proof.
  apply (single_key_keeps_range
           [ MxGreenLoop.KeyEvent GLFW_KEY_A GLFW_PRESS 0;
             MxGreenLoop.FrameEvent (F32.lit 16 1000);
             MxGreenLoop.KeyEvent GLFW_KEY_A GLFW_PRESS GLFW_MOD_SHIFT;
             MxGreenLoop.FrameEvent (F32.lit 3 10);
             MxGreenLoop.KeyEvent GLFW_KEY_A GLFW_RELEASE 0;
             MxGreenLoop.FrameEvent (F32.lit 16 1000) ]).
  vm_compute. reflexivity.
Defined.

(** X29.  In the single-key program, after any run from the globals with
    which the loop of [main] begins, a frame draws the label exactly if
    A was pressed with the shift modifier an even number of times; it
    then draws the one text "A" at [(380 - 10 p, 292 - 10 p)], [p] being
    the press value after the update of that frame. *)
Theorem single_key_label (es : list MxGreenLoop.Event) (deltaTime : float) :
  let s := MxGreenLoop.run es MxGreenLoop.initial in
  let p := pressAnim (MxGreen.g_key (fst (MxGreenLoop.frame deltaTime s))) in
  text_calls (snd (MxGreenLoop.frame deltaTime s))
  = if Nat.odd (length (filter (λ e, MxGreenLoop.shift_press e = true) es))
    then []
    else [ ((F32.lit 380 1 - F32.lit 10 1 * p)%f32,
            (F32.lit 292 1 - F32.lit 10 1 * p)%f32,
            "A"%string) ].
Proof.
  cbv zeta.
  destruct (mx_run_keycap es MxGreenLoop.initial) as (Hcap & Hfix).
  set (s := MxGreenLoop.run es MxGreenLoop.initial) in *.
  cbn [MxGreenLoop.frame fst snd MxGreen.g_key].
  rewrite (updateKeyAnimation_frame (MxGreen.g_key s) deltaTime).
  set (p := pressAnim (updateKeyAnimation (MxGreen.g_key s) deltaTime)).
  unfold MxGreenLoop.draw.
  change (keycapRemoved (set_pressAnim p (MxGreen.g_key s)))
    with (keycapRemoved (MxGreen.g_key s)).
  rewrite Hcap. cbn [MxGreenLoop.initial MxGreen.g_key keycapRemoved xorb].
  destruct (Nat.odd _).
  - unfold MxGreenLoop.drawMechanicalSwitch3D. cbv zeta.
    unfold text_calls. rewrite !omap_app.
    change (omap _ (map glQuad ?qs)) with (text_calls (map glQuad qs)).
    rewrite !text_calls_quads. reflexivity.
  - unfold text_calls. rewrite omap_app.
    change (omap _ (map glQuad ?qs)) with (text_calls (map glQuad qs)).
    rewrite text_calls_quads. cbn [app omap mbind option_bind mret].
    change (label (set_pressAnim p (MxGreen.g_key s)))
      with (label (MxGreen.g_key s)).
    change (pos (set_pressAnim p (MxGreen.g_key s)))
      with (pos (MxGreen.g_key s)).
    change (size (set_pressAnim p (MxGreen.g_key s)))
      with (size (MxGreen.g_key s)).
    change (pressAnim (set_pressAnim p (MxGreen.g_key s))) with p.
    pose proof (f_equal (λ t, fst (fst (fst t))) Hfix) as Hl.
    pose proof (f_equal (λ t, snd (fst (fst t))) Hfix) as Hp.
    pose proof (f_equal (λ t, snd (fst t)) Hfix) as Hs.
    cbn [fixed_part fst snd] in Hl, Hp, Hs. rewrite Hl, Hp, Hs.
    assert (label (MxGreen.g_key MxGreenLoop.initial) = "A"%string) as ->
      by reflexivity.
    assert (pos (MxGreen.g_key MxGreenLoop.initial)
            = Vec2 (F32.lit 350 1) (F32.lit 250 1)) as ->
      by (vm_compute; reflexivity).
    assert (size (MxGreen.g_key MxGreenLoop.initial)
            = Vec2 (F32.lit 100 1) (F32.lit 100 1)) as ->
      by (vm_compute; reflexivity).
    cbn [vx vy].
    assert ((F32.lit 350 1 + F32.lit 30 1)%f32 = F32.lit 380 1) as ->
      by (vm_compute; reflexivity).
    assert ((F32.lit 250 1 + F32.lit 100 1 * f32_half - F32.lit 8 1)%f32
            = F32.lit 292 1) as ->
      by (vm_compute; reflexivity).
    reflexivity.
Qed.

(** ** The labels of the compact board *)

(** X28.  In the compact board the labels stay where they are while the
    keys move: a frame calls [renderText] once for every key, in slot
    order, at [(pos.x + 10, pos.y + size.y / 2 - 8)] with the label of
    the key, whatever [deltaTime] and the press values are. *)
Theorem compact_labels_fixed (deltaTime : float) (ks : list Key) :
  text_calls (snd (CompactLoop.updateAndDraw deltaTime ks))
  = (λ k, ((vx (pos k) + F32.of_Z 10)%f32,
           (vy (pos k) + vy (size k) / F32.of_Z 2 - F32.of_Z 8)%f32,
           label k)) <$> ks.
Proof.
  induction ks as [|k rest IH]; [reflexivity|].
  cbn [CompactLoop.updateAndDraw].
  destruct (CompactLoop.updateAndDraw deltaTime rest) as [rest' drawn'].
  cbn [snd] in *. unfold text_calls in *.
  rewrite !omap_app, IH.
  change (omap _ (map glQuad ?qs)) with (text_calls (map glQuad qs)).
  rewrite text_calls_quads. rewrite (updateKeyAnimation_frame k deltaTime).
  reflexivity.
Qed.

(** ** The pointer on the board of [main] *)

Section PointerOnBoard.

(** On the board of [main], for every window below [2^22] pixels a side
    and in every state a run reaches, no cursor position is within two
    keys. *)
Lemma run_keys_disjoint (windowWidth windowHeight : Z) (s0 : World)
    (es : list Event) (s : World) :
  0 ≤ windowWidth < 4194304 → 0 ≤ windowHeight < 4194304 →
  FullBoardLoop.run es (main_board windowWidth windowHeight s0) = Some s →
  keys_disjoint (keyboardKeys s).
Proof.
  intros Hw Hh Hrun. unfold main_board in Hrun. cbv zeta in Hrun.
  set (start := centered_start windowWidth windowHeight) in *.
  destruct (initKeyboardLayout_inv (fst start) (snd start) s0) as (_ & Hb & _).
  destruct (run_defined es _ Hb) as (s' & Hr & _ & Hfix).
  rewrite Hrun in Hr. injection Hr as <-.
  intros xpos ypos i j ki' kj' Hne Hi Hj.
  destruct (fixed_part_lookup _ _ i ki' Hfix Hi) as (ki & Hki & Hpi & Hsi).
  destruct (fixed_part_lookup _ _ j kj' Hfix Hj) as (kj & Hkj & Hpj & Hsj).
  rewrite (under_cursor_rect xpos ypos ki ki' Hpi Hsi).
  rewrite (under_cursor_rect xpos ypos kj kj' Hpj Hsj).
  pose proof (centered_start_exact windowWidth windowHeight Hw Hh) as Hst.
  fold start in Hst.
  assert (fst start = hf (windowWidth - 948)) as Hx by (rewrite Hst; reflexivity).
  assert (snd start = hf (windowHeight - 390)) as Hy by (rewrite Hst; reflexivity).
  rewrite Hx, Hy in Hki, Hkj.
  pose proof (initKeyboardLayout_cells (windowWidth - 948) (windowHeight - 390)
                s0 ltac:(lia) ltac:(lia)) as Hcells.
  destruct (Forall2_lookup_r _ _ _ _ _ Hcells Hki) as (ci & Hci & Hcki).
  destruct (Forall2_lookup_r _ _ _ _ _ Hcells Hkj) as (cj & Hcj & Hckj).
  pose proof (all_apart_lookup _ layout_cells_apart i j ci cj Hne Hci Hcj)
    as Hap.
  pose proof layout_cells_small as Hsmall. rewrite forallb_forall in Hsmall.
  apply (apart_not_both (windowWidth - 948) (windowHeight - 390) ci cj ki kj);
    try lia; try assumption.
  - apply Hsmall, list_elem_of_In, (list_elem_of_lookup_2 _ i), Hci.
  - apply Hsmall, list_elem_of_In, (list_elem_of_lookup_2 _ j), Hcj.
Qed.



Lemma last_hit_last {A} (f : A → bool) (l : list A) (c : A) :
  ∀ p, last l = Some c → last_hit p (map f l) = f c.
Proof.
  induction l as [|a rest IH]; intros p Hl; [discriminate Hl|].
  cbn [map last_hit]. destruct rest as [|b rest'].
  - injection Hl as <-. reflexivity.
  - apply IH. exact Hl.
Qed.

Lemma entries_enters (hits : list bool) :
  ∀ p, p = false → last_hit p hits = true → (1 ≤ entries p hits)%nat.
Proof.
  induction hits as [|h rest IH]; intros p -> Hl; [discriminate Hl|].
  cbn [entries last_hit] in *. destruct h; cbn; [lia|].
  specialize (IH false eq_refl Hl). lia.
Qed.

Lemma entries_app (l1 l2 : list bool) :
  ∀ p, entries p (l1 ++ l2)
       = (entries p l1 + entries (last_hit p l1) l2)%nat.
Proof.
  induction l1 as [|h rest IH]; intros p; [reflexivity|].
  cbn [app entries last_hit]. rewrite IH. lia.
Qed.

Lemma entries_miss {A} (f : A → bool) (l : list A) :
  Forall (λ c, f c = false) l →
  entries false (map f l) = 0%nat ∧ last_hit false (map f l) = false.
Proof.
  induction 1 as [|c rest Hc _ IH]; [split; reflexivity|].
  cbn [map entries last_hit]. rewrite Hc. exact IH.
Qed.

Lemma entries_stay {A} (f : A → bool) (l : list A) :
  Forall (λ c, f c = true) l →
  ∀ p, (entries p (map f l) ≤ if p then 0 else 1)%nat.
Proof.
  induction 1 as [|c rest Hc _ IH]; intros p; [destruct p; cbn; lia|].
  cbn [map entries]. rewrite Hc. specialize (IH true). cbn in IH.
  destruct p; cbn; lia.
Qed.

End PointerOnBoard.

(** The callback of the cursor has no first-match rule of its own: on a
    board whose keys overlapped, with the cursor in the overlap, it would
    press the second key under the cursor as well.  No such board is
    reached ([run_keys_disjoint]). *)
Lemma move_presses_every_key_under_cursor :
  isPressed <$> keyboardKeys
                  (FullBoard.cursor_position_callback (F64.of_Z 7) (F64.of_Z 7)
                     overlap_world)
  = [true; true].
Proof. vm_compute. reflexivity. Qed.



(** C6, as the claim states it, fails when the cursor leaves Y and comes
    back: on the board of a 1920 by 1080 window, with the button held
    since a press on Esc, the moves (500, 360) strictly inside Esc,
    (560, 360) on F1, (549, 360) in the gap between the two keys and
    (561, 360) strictly inside F1 spawn two sound threads for F1. *)
Lemma drag_reenters_Y_counterexample :
  ¬ (∀ (s : World) (iX iY : nat) (kX kY : Key)
       (moves : list (double * double)) (first final : double * double),
       g_leftMouseDown s = true →
       keyboardKeys s !! iX = Some kX → keyboardKeys s !! iY = Some kY →
       iX ≠ iY →
       head moves = Some first → last moves = Some final →
       strictly_inside (fst first) (snd first) kX = true →
       strictly_inside (fst final) (snd final) kY = true →
       let s' := FullBoard.cursor_moves moves s in
       isPressed <$> keyboardKeys s' !! iY = Some true
       ∧ isPressed <$> keyboardKeys s' !! iX = Some false
       ∧ activations iY s' = (activations iY s + 1)%nat).
Proof.
  intros H.
  destruct (keyboardKeys pressed_on_Esc !! 0%nat) as [kX|] eqn:HX;
    [|vm_compute in HX; discriminate HX].
  destruct (keyboardKeys pressed_on_Esc !! 1%nat) as [kY|] eqn:HY;
    [|vm_compute in HY; discriminate HY].
  specialize (H pressed_on_Esc 0%nat 1%nat kX kY drag_with_reentry
                (F64.of_Z 500, F64.of_Z 360) (F64.of_Z 561, F64.of_Z 360)).
  assert (activations 1 (FullBoard.cursor_moves drag_with_reentry
                           pressed_on_Esc)
          = (activations 1 pressed_on_Esc + 2)%nat) as Htwo
    by (vm_compute; reflexivity).
  destruct H as (_ & _ & Hone).
  - vm_compute. reflexivity.
  - exact HX.
  - exact HY.
  - discriminate.
  - reflexivity.
  - reflexivity.
  - vm_compute in HX. injection HX as <-. vm_compute. reflexivity.
  - vm_compute in HY. injection HY as <-. vm_compute. reflexivity.
  - rewrite Htwo in Hone. lia.
Qed.

(** C6, amended.  On the board of [main], whatever the size of the window
    (below [2^22] pixels a side), in a state that a run of events reached
    with the primary button held, a sequence of cursor moves that begins
    strictly inside the rectangle of key X and ends strictly inside the
    rectangle of another key Y presses X at its first move and leaves Y
    pressed and X released; for Y it spawns one sound thread each time
    the cursor comes onto Y from outside (once at least), and none while
    the cursor stays over Y: exactly one over the whole sequence when the
    cursor, once over Y, stays over Y. *)
Theorem drag_from_X_to_Y (windowWidth windowHeight : Z) (s0 : World)
    (es : list Event) (s : World) (iX iY : nat) (kX kY : Key)
    (moves : list (double * double)) (first final : double * double) :
  0 ≤ windowWidth < 4194304 → 0 ≤ windowHeight < 4194304 →
  FullBoardLoop.run es (main_board windowWidth windowHeight s0) = Some s →
  g_leftMouseDown s = true →
  keyboardKeys s !! iX = Some kX → keyboardKeys s !! iY = Some kY →
  iX ≠ iY →
  head moves = Some first → last moves = Some final →
  strictly_inside (fst first) (snd first) kX = true →
  strictly_inside (fst final) (snd final) kY = true →
  let overY := map (λ c, under_cursor (fst c) (snd c) kY) moves in
  let s1 := FullBoard.cursor_moves [first] s in
  let s' := FullBoard.cursor_moves moves s in
  isPressed <$> keyboardKeys s1 !! iX = Some true
  ∧ isPressed <$> keyboardKeys s' !! iY = Some true
  ∧ isPressed <$> keyboardKeys s' !! iX = Some false
  ∧ activations iY s' = (activations iY s + entries false overY)%nat
  ∧ (1 ≤ entries false overY)%nat
  ∧ (∀ pre inY : list (double * double),
       moves = pre ++ inY →
       Forall (λ c, under_cursor (fst c) (snd c) kY = false) pre →
       Forall (λ c, under_cursor (fst c) (snd c) kY = true) inY →
       activations iY s' = (activations iY s + 1)%nat).
Proof.
  intros Hw Hh Hrun Hdown HX HY Hne Hfirst Hfinal HinX HinY overY s1 s'.
  pose proof (run_keys_disjoint _ _ _ _ _ Hw Hh Hrun) as Hdis.
  apply strictly_inside_under_cursor in HinX, HinY.
  assert (under_cursor (fst first) (snd first) kY = false) as HfirstY
    by (apply (Hdis _ _ iX iY kX kY Hne HX HY HinX)).
  assert (under_cursor (fst final) (snd final) kX = false) as HfinalX
    by (apply (Hdis _ _ iY iX kY kX (not_eq_sym Hne) HY HX HinY)).
  destruct moves as [|c rest]; [discriminate Hfirst|].
  injection Hfirst as ->.
  destruct (cursor_moves_entries iY (first :: rest) s kY Hdown HY)
    as [HaY HkY].
  destruct (cursor_moves_entries iX (first :: rest) s kX Hdown HX)
    as [_ HkX].
  fold s' in HaY, HkY, HkX. fold overY in HaY, HkY.
  assert (entries (isPressed kY) overY = entries false overY) as Hent.
  { subst overY. cbn [map entries]. rewrite HfirstY. reflexivity. }
  assert (last_hit false overY = true) as Hlast.
  { subst overY. rewrite (last_hit_last _ _ final false Hfinal). exact HinY. }
  rewrite Hent in HaY.
  split; [|split; [|split; [|split; [|split]]]].
  - subst s1. rewrite cursor_moves_one.
    destruct (cursor_step_lookup (fst first) (snd first) s iX kX Hdown HX)
      as (Hj & _ & _).
    rewrite Hj. unfold drag_key. rewrite HinX. reflexivity.
  - rewrite HkY. subst overY.
    rewrite (last_hit_last _ _ final _ Hfinal), HinY. reflexivity.
  - rewrite HkX.
    rewrite (last_hit_last (λ c, under_cursor (fst c) (snd c) kX) _ final _
               Hfinal), HfinalX.
    reflexivity.
  - exact HaY.
  - apply entries_enters; [reflexivity|exact Hlast].
  - intros pre inY Hsplit Hpre HinY'. rewrite HaY. f_equal.
    pose proof (entries_enters overY false eq_refl Hlast) as Hge.
    subst overY. rewrite Hsplit, map_app, entries_app in Hge |- *.
    destruct (entries_miss (λ c, under_cursor (fst c) (snd c) kY) pre Hpre)
      as [H0 Hl0].
    rewrite H0, Hl0 in Hge |- *.
    pose proof (entries_stay (λ c, under_cursor (fst c) (snd c) kY) inY
                  HinY' false) as Hle.
    cbn in Hle. lia.
Qed.

Lemma drag_from_X_to_Y_witness :
  let s' := FullBoard.cursor_moves drag_with_reentry pressed_on_Esc in
  isPressed <$> keyboardKeys s' !! 1%nat = Some true
  ∧ isPressed <$> keyboardKeys s' !! 0%nat = Some false
  ∧ activations 1 s' = (activations 1 pressed_on_Esc + 2)%nat.
Proof.
  intros s'.
  destruct (keyboardKeys pressed_on_Esc !! 0%nat) as [kX|] eqn:HX;
    [|vm_compute in HX; discriminate HX].
  destruct (keyboardKeys pressed_on_Esc !! 1%nat) as [kY|] eqn:HY;
    [|vm_compute in HY; discriminate HY].
  destruct (drag_from_X_to_Y 1920 1080 start_world
              [ MouseButtonEvent (F64.of_Z 500) (F64.of_Z 360)
                                 GLFW_MOUSE_BUTTON_LEFT GLFW_PRESS ]
              pressed_on_Esc 0 1 kX kY drag_with_reentry
              (F64.of_Z 500, F64.of_Z 360) (F64.of_Z 561, F64.of_Z 360))
    as (_ & HpY & HpX & Hact & _).
  - lia.
  - lia.
  - vm_compute. reflexivity.
  - vm_compute. reflexivity.
  - exact HX.
  - exact HY.
  - discriminate.
  - reflexivity.
  - reflexivity.
  - vm_compute in HX. injection HX as <-. vm_compute. reflexivity.
  - vm_compute in HY. injection HY as <-. vm_compute. reflexivity.
  - subst s'. split; [exact HpY|]. split; [exact HpX|].
    rewrite Hact. f_equal.
    vm_compute in HY. injection HY as <-. vm_compute. reflexivity.
Defined.
